(** * Document Model Walker: a shallow embedding of [explore_step_file.py]

    The development follows the class [DocModel]: the UID allocator
    [_get_uid_from_entry], the recursive walker [_get_sub_shapes], the root
    scan [_get_shapes], [parse_doc] and [load_stp].

    Python dictionaries are finite maps, Python lists are lists kept in the
    order of the source ([append] adds at the end, [-1] reads the end,
    [pop] removes the end), Python integers are [Z].  Diagnostic printing
    (the [verbose] branches, the counter [cnt] they maintain and the
    unconditional [print] calls) has no effect on any table and is left
    out. *)

From Stdlib Require Import Ascii.
From Stdlib Require QArith.QArith_base.
From stdpp Require Import base gmap list strings pretty.

Open Scope Z_scope.

(** ** Strings: Python's [str] on integers and the shape of a UID *)

(** [str(value)] for a Python integer: decimal digits, preceded by a minus
    sign for a negative value. *)
Definition str (value : Z) : string := pretty value.

(** [entry + '.' + str(value)] *)
Definition uid_of (entry : string) (value : Z) : string :=
  entry +:+ "." +:+ str value.

(** No character of the string is a full stop. *)
Fixpoint dotfree (s : string) : bool :=
  match s with
  | EmptyString => true
  | String a s' => negb (Ascii.eqb a "."%char) && dotfree s'
  end.

(** ** The kernel's colour *)

(** [Quantity_Color]: an RGB triple.  The walker only builds the default
    colour and copies colours; it never computes with the components. *)
Record Quantity_Color := mkColor {
  Red : QArith_base.Q;
  Green : QArith_base.Q;
  Blue : QArith_base.Q
}.

(** [Quantity_Color(0.5, 0.5, 0.5, Quantity_TOC_RGB)] *)
Definition default_color : Quantity_Color :=
  mkColor (QArith_base.Qmake 1 2) (QArith_base.Qmake 1 2) (QArith_base.Qmake 1 2).

(** A label of the document.  Inside one document a label and its entry
    (the string [TDF_Tool.Entry] writes, such as [0:1:1:1]) determine each
    other, so a label is represented by its entry. *)
Definition TDF_Label := string.

(** [TDF_Tool.Entry(lab, entry); entry.ToCString()] *)
Definition TDF_Tool_Entry (lab : TDF_Label) : string := lab.

(** [IFSelect_ReturnStatus], the status [ReadFile] returns. *)
Inductive IFSelect_ReturnStatus :=
  | IFSelect_RetVoid
  | IFSelect_RetDone
  | IFSelect_RetError
  | IFSelect_RetFail
  | IFSelect_RetStop.

Global Instance IFSelect_ReturnStatus_eq_dec : EqDecision IFSelect_ReturnStatus.
Proof. solve_decision. Defined.

(** ** Outcomes of running Python code *)

(** A run either completes with a value, raises [IndexError] (reading or
    popping the end of an empty list), or exhausts the recursion budget of
    the model. *)
Inductive result (A : Type) :=
  | Ok (a : A)
  | IndexError
  | OutOfFuel.
Arguments Ok {A} a.
Arguments IndexError {A}.
Arguments OutOfFuel {A}.

(** ** The geometry kernel *)



(** The geometry kernel is an external collaborator, used through a narrow
    interface.  Its transforms and shapes stay abstract: [Identity] is
    [TopLoc_Location()], [Multiplied] is [TopLoc_Location.Multiplied],
    [BRepBuilderAPI_Transform shape loc] is
    [BRepBuilderAPI_Transform(shape, loc.Transformation()).Shape()] and
    [TopoDS_Shape_null] is [TopoDS_Shape()], the shape of a label without
    geometry.  Shapes are compared ([in output_shapes]), hence the
    decidable equality.

    The colour tool of a document stays abstract as well.  Its state is
    read by [GetInstanceColor(shape, scope, c)] and [GetColor(lab, scope,
    c)], which answer [True] and fill [c] when they find a colour, and
    changed by [SetInstanceColor(shape, scope, c)], whose returned flag the
    walker ignores.  Nothing is assumed about what a write does to later
    answers: the kernel may store the colour, store it elsewhere, or refuse
    the write.  Scopes are the integer codes written at the call sites: 0,
    1 and 2.  [new_color_tool] is the colour tool of a document nothing has
    been transferred into. *)
Class Kernel := mkKernel {
  Loc : Type;
  Shape : Type;
  Shape_eq_dec :: EqDecision Shape;
  Identity : Loc;
  Multiplied : Loc → Loc → Loc;
  BRepBuilderAPI_Transform : Shape → Loc → Shape;
  TopoDS_Shape_null : Shape;
  XCAFDoc_ColorTool : Type;
  GetInstanceColor : XCAFDoc_ColorTool → Shape → nat → option Quantity_Color;
  GetColor : XCAFDoc_ColorTool → TDF_Label → nat → option Quantity_Color;
  SetInstanceColor : Shape → nat → Quantity_Color → XCAFDoc_ColorTool → XCAFDoc_ColorTool;
  new_color_tool : XCAFDoc_ColorTool
}.

Section Walker.

Context {K : Kernel}.

(** [XCAFDoc_ShapeTool]: the read-only structure of a document. *)
Record XCAFDoc_ShapeTool := mkShapeTool {
  GetFreeShapes : list TDF_Label;
  IsAssembly : TDF_Label → bool;
  IsSimpleShape : TDF_Label → bool;
  IsReference : TDF_Label → bool;
  GetComponents : TDF_Label → list TDF_Label;
  GetSubShapes : TDF_Label → list TDF_Label;
  GetReferredShape : TDF_Label → TDF_Label;
  GetLocation : TDF_Label → Loc;
  GetShape : TDF_Label → Shape;
  GetLabelName : TDF_Label → string
}.

(** [TDocStd_Document]: the two tools found under [doc.Main()]. *)
Record TDocStd_Document := mkDoc {
  shape_tool : XCAFDoc_ShapeTool;
  color_tool : XCAFDoc_ColorTool
}.

(** ** The tables *)

(** A value of [part_dict]: [{'shape': , 'name': , 'color': }]. *)
Record PartRecord := mkPart {
  p_shape : Shape;
  p_name : string;
  p_color : Quantity_Color
}.

(** A value of [label_dict].  The key ['ref_entry'] is present (with value
    [None]) only in the records of simple shapes: [l_ref_entry] is [None]
    when the key is absent and [Some None] when it is present. *)
Record LabelRecord := mkLabel {
  l_entry : string;
  l_name : string;
  l_parent_uid : option string;
  l_ref_entry : option (option string);
  l_is_assy : bool
}.

(** The instance attributes of [DocModel]. *)
Record DocModel := mkDocModel {
  doc : TDocStd_Document;
  part_dict : gmap string PartRecord;
  label_dict : gmap string LabelRecord;
  _share_dict : gmap string Z;
  _parent_uid_stack : list (option string)
}.

(** One activation of [parse_doc]: the object [self], the local variables
    shared by the nested functions, and two ghost traces: [uids] holds
    every value [_get_uid_from_entry] has returned in this activation,
    oldest first, and [component_uids] those of them that the call in the
    loop over the components of an assembly (line 202) returned.  The
    traces are never read by the code of the model. *)
Record Frame := mkFrame {
  self : DocModel;
  lvl : Z;
  output_shapes : list (Shape * (string * Quantity_Color));
  locs : list Loc;
  uids : list string;
  component_uids : list string
}.


(** ** The state monad of the walk *)

Definition M (A : Type) : Type := Frame → result (A * Frame).

Definition ret {A} (a : A) : M A := λ fr, Ok (a, fr).

Definition bind {A B} (m : M A) (k : A → M B) : M B :=
  λ fr, match m fr with
        | Ok (a, fr') => k a fr'
        | IndexError => IndexError
        | OutOfFuel => OutOfFuel
        end.

Notation "'let*' x ':=' m 'in' k" := (bind m (λ x, k))
  (at level 10, x name, m at level 100, k at level 200).
Notation "m ;; k" := (bind m (λ _, k))
  (at level 100, k at level 200, right associativity).

(** [for x in l: body(x)] *)
Fixpoint for_each {A} (l : list A) (body : A → M unit) : M unit :=
  match l with
  | [] => ret tt
  | x :: l' => body x ;; for_each l' body
  end.

(** Updates of single fields. *)
Definition with_self (f : DocModel → DocModel) (fr : Frame) : Frame :=
  mkFrame (f (self fr)) (lvl fr) (output_shapes fr) (locs fr) (uids fr)
    (component_uids fr).

Definition with_share_dict (sd : gmap string Z) (dm : DocModel) : DocModel :=
  mkDocModel (doc dm) (part_dict dm) (label_dict dm) sd (_parent_uid_stack dm).

Definition with_label_dict (ld : gmap string LabelRecord) (dm : DocModel) : DocModel :=
  mkDocModel (doc dm) (part_dict dm) ld (_share_dict dm) (_parent_uid_stack dm).

Definition with_part_dict (pd : gmap string PartRecord) (dm : DocModel) : DocModel :=
  mkDocModel (doc dm) pd (label_dict dm) (_share_dict dm) (_parent_uid_stack dm).

Definition with_parent_uid_stack (stk : list (option string)) (dm : DocModel) : DocModel :=
  mkDocModel (doc dm) (part_dict dm) (label_dict dm) (_share_dict dm) stk.

Definition with_color_tool (ct : XCAFDoc_ColorTool) (dm : DocModel) : DocModel :=
  mkDocModel (mkDoc (shape_tool (doc dm)) ct)
    (part_dict dm) (label_dict dm) (_share_dict dm) (_parent_uid_stack dm).

Definition with_doc (d : TDocStd_Document) (dm : DocModel) : DocModel :=
  mkDocModel d (part_dict dm) (label_dict dm) (_share_dict dm) (_parent_uid_stack dm).

(** ** The UID allocator *)

(** The body of [_get_uid_from_entry] on the backing map: the UID returned
    and the updated map. *)
Definition next_uid (entry : string) (sd : gmap string Z) : string * gmap string Z :=
  let value := match sd !! entry with
               | Some value => value
               | None => -1
               end in
  let value := value + 1 in
  (uid_of entry value, <[entry := value]> sd).

(** [_get_uid_from_entry(entry)], acting on [self._share_dict]. *)
Definition _get_uid_from_entry (entry : string) : M string :=
  λ fr,
    let '(uid, sd) := next_uid entry (_share_dict (self fr)) in
    Ok (uid, mkFrame (with_share_dict sd (self fr)) (lvl fr) (output_shapes fr)
                     (locs fr) (uids fr ++ [uid]) (component_uids fr)).

(** The allocator called on a sequence of entries: the UIDs returned, in
    order, and the final backing map. *)
Fixpoint alloc_all (entries : list string) (sd : gmap string Z)
    : list string * gmap string Z :=
  match entries with
  | [] => ([], sd)
  | entry :: rest =>
      let '(uid, sd') := next_uid entry sd in
      let '(more, sd'') := alloc_all rest sd' in
      (uid :: more, sd'')
  end.


(** ** Primitive steps of the walker *)

(** [self._parent_uid_stack[-1]] *)
Definition parent_uid_top : M (option string) :=
  λ fr, match last (_parent_uid_stack (self fr)) with
        | Some top => Ok (top, fr)
        | None => IndexError
        end.

(** [self.label_dict[uid] = l_dict] *)
Definition set_label (uid : string) (l_dict : LabelRecord) : M unit :=
  λ fr, Ok (tt, with_self (λ dm, with_label_dict (<[uid := l_dict]> (label_dict dm)) dm) fr).

(** [self.part_dict[uid] = p_dict] *)
Definition set_part (uid : string) (p_dict : PartRecord) : M unit :=
  λ fr, Ok (tt, with_self (λ dm, with_part_dict (<[uid := p_dict]> (part_dict dm)) dm) fr).

(** [self._parent_uid_stack.append(uid)] *)
Definition parent_uid_append (uid : string) : M unit :=
  λ fr, Ok (tt, with_self (λ dm,
              with_parent_uid_stack (_parent_uid_stack dm ++ [Some uid]) dm) fr).

(** [locs.append(loc)] *)
Definition locs_append (loc : Loc) : M unit :=
  λ fr, Ok (tt, mkFrame (self fr) (lvl fr) (output_shapes fr) (locs fr ++ [loc])
                        (uids fr) (component_uids fr)).

(** [locs.pop()] *)
Definition locs_pop : M unit :=
  λ fr, match locs fr with
        | [] => IndexError
        | _ :: _ =>
            Ok (tt, mkFrame (self fr) (lvl fr) (output_shapes fr)
                            (removelast (locs fr)) (uids fr) (component_uids fr))
        end.

(** Ghost: [uid], which the call of line 202 has just returned, is noted
    in [component_uids]. *)
Definition note_component_uid (uid : string) : M unit :=
  λ fr, Ok (tt, mkFrame (self fr) (lvl fr) (output_shapes fr) (locs fr)
                        (uids fr) (component_uids fr ++ [uid])).

(** [lvl += d] *)
Definition lvl_add (d : Z) : M unit :=
  λ fr, Ok (tt, mkFrame (self fr) (lvl fr + d) (output_shapes fr) (locs fr)
                        (uids fr) (component_uids fr)).

(** [while len(stk) > lvl+2: stk.pop()].  The loop runs at most [len(stk)]
    times before [pop] would meet the empty list; [n] counts the elements
    still there. *)
Fixpoint trim_loop (n : nat) (lvl : Z) (stk : list (option string))
    : result (list (option string)) :=
  if bool_decide (Z.of_nat (length stk) > lvl + 2) then
    match n with
    | O => IndexError
    | S n' => trim_loop n' lvl (removelast stk)
    end
  else Ok stk.

(** The trimming of [self._parent_uid_stack] after a recursive call. *)
Definition trim_parent_uid_stack : M unit :=
  λ fr, let stk := _parent_uid_stack (self fr) in
        match trim_loop (length stk) (lvl fr) stk with
        | Ok stk' => Ok (tt, with_self (with_parent_uid_stack stk') fr)
        | IndexError => IndexError
        | OutOfFuel => OutOfFuel
        end.

(** [if not shape in output_shapes: output_shapes[shape] = [name, c]] *)
Definition output_shapes_add (shape : Shape) (name : string) (c : Quantity_Color)
    : M unit :=
  λ fr, if decide (shape ∈ (output_shapes fr).*1) then Ok (tt, fr)
        else Ok (tt, mkFrame (self fr) (lvl fr)
                             (output_shapes fr ++ [(shape, (name, c))])
                             (locs fr) (uids fr) (component_uids fr)).

(** ** Colour resolution *)

(** [get(0, c) or get(1, c) or get(2, c)]: the scopes are queried in the
    order 0, 1, 2 and the first colour found is the one left in [c]. *)
Definition first_color (get : nat → option Quantity_Color) : option Quantity_Color :=
  match get 0%nat with
  | Some c => Some c
  | None =>
      match get 1%nat with
      | Some c => Some c
      | None => get 2%nat
      end
  end.

(** [SetInstanceColor(shape, 0, c); SetInstanceColor(shape, 1, c);
     SetInstanceColor(shape, 2, c)] on a colour table. *)
Definition set_all_scopes (shape : Shape) (c : Quantity_Color)
    (ct : XCAFDoc_ColorTool) : XCAFDoc_ColorTool :=
  SetInstanceColor shape 2 c (SetInstanceColor shape 1 c (SetInstanceColor shape 0 c ct)).

(** The same three calls on the colour table of [self.doc]. *)
Definition set_instance_colors (shape : Shape) (c : Quantity_Color) : M unit :=
  λ fr, Ok (tt, with_self (λ dm,
              with_color_tool (set_all_scopes shape c (color_tool (doc dm))) dm) fr).

(** Reading the colour table of [self.doc]. *)
Definition get_color_tool : M XCAFDoc_ColorTool :=
  λ fr, Ok (color_tool (doc (self fr)), fr).

(** The colour of a simple shape (lines 288-318): the instance colour when
    there is one, else the colour of the label, else the default. *)
Definition resolve_shape_color (shape : Shape) (lab : TDF_Label) : M Quantity_Color :=
  let c := default_color in
  let* ct := get_color_tool in
  match first_color (GetInstanceColor ct shape) with
  | Some c => set_instance_colors shape c ;; ret c
  | None =>
      match first_color (GetColor ct lab) with
      | Some c => set_instance_colors shape c ;; ret c
      | None => ret c
      end
  end.

(** The colour of a sub-shape (lines 347-377).  In the label-colour branch
    the three [SetInstanceColor] calls are made on [shape], the shape of
    the enclosing label, as in the source. *)
Definition resolve_subshape_color (shape shape_sub : Shape) (lab_subs : TDF_Label)
    : M Quantity_Color :=
  let c := default_color in
  let* ct := get_color_tool in
  match first_color (GetInstanceColor ct shape_sub) with
  | Some c => set_instance_colors shape_sub c ;; ret c
  | None =>
      match first_color (GetColor ct lab_subs) with
      | Some c => set_instance_colors shape c ;; ret c
      | None => ret c
      end
  end.

(** ** The recursive walker *)

(** Reading [locs]. *)
Definition get_locs : M (list Loc) := λ fr, Ok (locs fr, fr).

(** Lines 267-271: [loc = TopLoc_Location()] followed by
    [for l in locs: loc = loc.Multiplied(l)]. *)
Definition compose_locs (locs : list Loc) : Loc :=
  fold_left Multiplied locs Identity.

(** The body of the loop over the sub-shapes of a simple shape (lines
    342-393). *)
Definition visit_sub_shape (st : XCAFDoc_ShapeTool) (shape : Shape) (loc : Loc)
    (lab_subs : TDF_Label) : M unit :=
  let shape_sub := GetShape st lab_subs in
  let* c := resolve_subshape_color shape shape_sub lab_subs in
  let shape_to_disp := BRepBuilderAPI_Transform shape_sub loc in
  output_shapes_add shape_to_disp (GetLabelName st lab_subs) c.

(** The branch of [_get_sub_shapes] for a simple shape (lines 255-393). *)
Definition visit_simple_shape (st : XCAFDoc_ShapeTool) (lab : TDF_Label)
    (uid text_entry name : string) (parent_uid : option string)
    (l_subss : list TDF_Label) : M unit :=
  set_label uid (mkLabel text_entry name parent_uid (Some None) false) ;;
  let shape := GetShape st lab in
  let* locs := get_locs in
  let loc := compose_locs locs in
  let* c := resolve_shape_color shape lab in
  let shape_disp := BRepBuilderAPI_Transform shape loc in
  output_shapes_add shape_disp (GetLabelName st lab) c ;;
  set_part uid (mkPart shape_disp name c) ;;
  for_each l_subss (visit_sub_shape st shape loc).

(** The body of the loop over the components of an assembly (lines
    197-252).  [recur] is the recursive call [_get_sub_shapes]. *)
Definition visit_component (recur : TDF_Label → option Loc → M unit)
    (st : XCAFDoc_ShapeTool) (label : TDF_Label) : M unit :=
  if IsReference st label then
    let text_cmpnt_entry := TDF_Tool_Entry label in
    let* uid := _get_uid_from_entry text_cmpnt_entry in
    note_component_uid uid ;;
    let label_reference := GetReferredShape st label in
    let loc := GetLocation st label in
    locs_append loc ;;
    lvl_add 1 ;;
    recur label_reference (Some loc) ;;
    lvl_add (-1) ;;
    locs_pop ;;
    trim_parent_uid_stack
  else ret tt.

(** The branch of [_get_sub_shapes] for an assembly (lines 188-252). *)
Definition visit_assembly (recur : TDF_Label → option Loc → M unit)
    (st : XCAFDoc_ShapeTool) (lab : TDF_Label)
    (uid text_entry name : string) (parent_uid : option string) : M unit :=
  set_label uid (mkLabel text_entry name parent_uid None true) ;;
  parent_uid_append uid ;;
  for_each (GetComponents st lab) (visit_component recur st).

(** [_get_sub_shapes(lab, loc)].  [fuel] bounds the depth of the recursion;
    [st] is the variable [shape_tool] of the enclosing [parse_doc].  The
    parameter [loc] is never read: both branches assign [loc] before using
    it. *)
Fixpoint _get_sub_shapes (fuel : nat) (st : XCAFDoc_ShapeTool)
    (lab : TDF_Label) (loc : option Loc) : M unit :=
  match fuel with
  | O => λ _, OutOfFuel
  | S fuel' =>
      let text_entry := TDF_Tool_Entry lab in
      let* uid := _get_uid_from_entry text_entry in
      let name := GetLabelName st lab in
      let l_subss := GetSubShapes st lab in
      let* parent_uid := parent_uid_top in
      if IsAssembly st lab then
        visit_assembly (_get_sub_shapes fuel' st) st lab uid text_entry name parent_uid
      else if IsSimpleShape st lab then
        visit_simple_shape st lab uid text_entry name parent_uid l_subss
      else ret tt
  end.

(** [_get_shapes()] *)
Definition _get_shapes (fuel : nat) (st : XCAFDoc_ShapeTool) : M unit :=
  for_each (GetFreeShapes st) (λ root_item, _get_sub_shapes fuel st root_item None).

(** The frame [parse_doc] starts from: [lvl = 0], [output_shapes = {}],
    [locs = []]. *)
Definition parse_doc_enter (dm : DocModel) : Frame := mkFrame dm 0 [] [] [] [].

(** The walk of [parse_doc], keeping its whole final frame. *)
Definition parse_doc_frame (fuel : nat) (dm : DocModel) : result Frame :=
  match _get_shapes fuel (shape_tool (doc dm)) (parse_doc_enter dm) with
  | Ok (_, fr) => Ok fr
  | IndexError => IndexError
  | OutOfFuel => OutOfFuel
  end.

(** [self.parse_doc()]: the value returned ([output_shapes]) and the object
    afterwards. *)
Definition parse_doc (fuel : nat) (dm : DocModel)
    : result (list (Shape * (string * Quantity_Color)) * DocModel) :=
  match parse_doc_frame fuel dm with
  | Ok fr => Ok (output_shapes fr, self fr)
  | IndexError => IndexError
  | OutOfFuel => OutOfFuel
  end.

(** ** Construction and loading *)

(** What the kernel answers when documents are created and files read.
    [create_doc] is the document the method [create_doc] obtains
    ([NewDocument], [NewShape], then the name "Top" set on the new root
    label).  For [STEPCAFControl_Reader], [ReadFile filename] is the status
    of reading the file and [Transfer filename doc] is [doc] after
    [step_reader.Transfer(doc)] once that file has been read. *)
Class Environment := mkEnvironment {
  create_doc : TDocStd_Document;
  ReadFile : string → IFSelect_ReturnStatus;
  Transfer : string → TDocStd_Document → TDocStd_Document
}.

Context {E : Environment}.

(** [DocModel.__init__] *)
Definition __init__ : DocModel := mkDocModel create_doc ∅ ∅ ∅ [None].

(** [TDocStd_Document(TCollection_ExtendedString("Step-doc"))]: a document
    nothing has been transferred into; it has no label. *)
Definition new_TDocStd_Document : TDocStd_Document :=
  mkDoc
    (mkShapeTool [] (λ _, false) (λ _, false) (λ _, false) (λ _, []) (λ _, [])
       (λ _, "") (λ _, Identity) (λ _, TopoDS_Shape_null) (λ _, ""))
    new_color_tool.

(** [not filename]: [None] and the empty string are falsy. *)
Definition falsy (filename : option string) : bool :=
  match filename with
  | None => true
  | Some fname => bool_decide (fname = "")
  end.

(** [load_stp(filename)] *)
Definition load_stp (fuel : nat) (filename : option string) (dm : DocModel)
    : result DocModel :=
  match filename with
  | None => Ok dm
  | Some fname =>
      if bool_decide (fname = "") then Ok dm
      else
        let doc := new_TDocStd_Document in
        let status := ReadFile fname in
        let doc := if decide (status = IFSelect_RetDone) then Transfer fname doc
                   else doc in
        let dm := with_doc doc dm in
        match parse_doc fuel dm with
        | Ok (_, dm') => Ok dm'
        | IndexError => IndexError
        | OutOfFuel => OutOfFuel
        end
  end.

(** ** Paths of the walk and acyclic documents *)

(** [descent st lab refs leaf]: from [lab] the walker reaches [leaf] by
    following the reference components [refs], outermost first, each one a
    component of the assembly reached so far. *)
Inductive descent (st : XCAFDoc_ShapeTool) : TDF_Label → list TDF_Label → TDF_Label → Prop :=
  | descent_here lab : descent st lab [] lab
  | descent_step a c refs leaf :
      IsAssembly st a = true →
      c ∈ GetComponents st a →
      IsReference st c = true →
      descent st (GetReferredShape st c) refs leaf →
      descent st a (c :: refs) leaf.

(** The labels handled by the simple-shape branch of the walker. *)
Definition is_leaf (st : XCAFDoc_ShapeTool) (lab : TDF_Label) : Prop :=
  IsAssembly st lab = false ∧ IsSimpleShape st lab = true.

(** The reference graph is acyclic: [rank] decreases from an assembly to
    whatever its reference components refer to. *)
Definition ranked (st : XCAFDoc_ShapeTool) (rank : TDF_Label → nat) : Prop :=
  ∀ a c, IsAssembly st a = true → c ∈ GetComponents st a →
         IsReference st c = true →
         (rank (GetReferredShape st c) < rank a)%nat.

(** ** The walk as a relation between frames *)

(** The frame once [_get_uid_from_entry entry] has run. *)
Definition after_alloc (entry : string) (fr : Frame) : Frame :=
  mkFrame (with_share_dict (next_uid entry (_share_dict (self fr))).2 (self fr))
    (lvl fr) (output_shapes fr) (locs fr)
    (uids fr ++ [(next_uid entry (_share_dict (self fr))).1])
    (component_uids fr).

(** The frame once [self.label_dict[uid] = l_dict] has run. *)
Definition after_set_label (uid : string) (l_dict : LabelRecord) (fr : Frame) : Frame :=
  with_self (λ dm, with_label_dict (<[uid := l_dict]> (label_dict dm)) dm) fr.

(** The frame in which the loop over the components of the assembly [lab]
    starts: a UID has been allocated for [lab], its Label Record stored
    with the parent [parent_uid], and the UID pushed on the stack of
    parents. *)
Definition enter_assembly (st : XCAFDoc_ShapeTool) (lab : TDF_Label)
    (parent_uid : option string) (fr : Frame) : Frame :=
  let uid := (next_uid lab (_share_dict (self fr))).1 in
  with_self (λ dm, with_parent_uid_stack (_parent_uid_stack dm ++ [Some uid]) dm)
    (after_set_label uid (mkLabel lab (GetLabelName st lab) parent_uid None true)
       (after_alloc lab fr)).

(** The frame in which the walker is called on what the reference
    component [label] refers to: a UID has been allocated for [label] (and
    noted in the ghost trace of such UIDs), its location appended to
    [locs], and [lvl] incremented. *)
Definition enter_component (st : XCAFDoc_ShapeTool) (label : TDF_Label)
    (fr : Frame) : Frame :=
  let fr1 := after_alloc label fr in
  mkFrame (self fr1) (lvl fr1 + 1) (output_shapes fr1)
    (locs fr1 ++ [GetLocation st label]) (uids fr1)
    (component_uids fr1 ++ [(next_uid label (_share_dict (self fr))).1]).

(** What the loop body does once the recursive call has returned:
    [lvl -= 1], [locs.pop()] and the trimming of the stack of parents. *)
Definition leave_component : M unit :=
  lvl_add (-1) ;; locs_pop ;; trim_parent_uid_stack.

(** What the walker is busy with: one call of [_get_sub_shapes], the loop
    over a list of components, or the loop of [_get_shapes] over a list of
    roots. *)
Inductive work :=
  | Visit (lab : TDF_Label)
  | Components (labels : list TDF_Label)
  | Roots (labels : list TDF_Label).

(** [runs st w fr fr']: started in the frame [fr], the work [w] completes
    in the frame [fr'].  One rule per path through the code. *)
Inductive runs (st : XCAFDoc_ShapeTool) : work → Frame → Frame → Prop :=
  | runs_simple_shape lab fr parent_uid fr' :
      is_leaf st lab →
      last (_parent_uid_stack (self fr)) = Some parent_uid →
      visit_simple_shape st lab (next_uid lab (_share_dict (self fr))).1
        lab (GetLabelName st lab) parent_uid (GetSubShapes st lab)
        (after_alloc lab fr) = Ok (tt, fr') →
      runs st (Visit lab) fr fr'
  | runs_other lab fr parent_uid :
      IsAssembly st lab = false →
      IsSimpleShape st lab = false →
      last (_parent_uid_stack (self fr)) = Some parent_uid →
      runs st (Visit lab) fr (after_alloc lab fr)
  | runs_assembly lab fr parent_uid fr' :
      IsAssembly st lab = true →
      last (_parent_uid_stack (self fr)) = Some parent_uid →
      runs st (Components (GetComponents st lab))
        (enter_assembly st lab parent_uid fr) fr' →
      runs st (Visit lab) fr fr'
  | runs_components_nil fr :
      runs st (Components []) fr fr
  | runs_components_skip label rest fr fr' :
      IsReference st label = false →
      runs st (Components rest) fr fr' →
      runs st (Components (label :: rest)) fr fr'
  | runs_components_reference label rest fr fr1 fr2 fr' :
      IsReference st label = true →
      runs st (Visit (GetReferredShape st label)) (enter_component st label fr) fr1 →
      leave_component fr1 = Ok (tt, fr2) →
      runs st (Components rest) fr2 fr' →
      runs st (Components (label :: rest)) fr fr'
  | runs_roots_nil fr :
      runs st (Roots []) fr fr
  | runs_roots_cons root_item rest fr fr1 fr' :
      runs st (Visit root_item) fr fr1 →
      runs st (Roots rest) fr1 fr' →
      runs st (Roots (root_item :: rest)) fr fr'.

(** ** Vocabulary of the statements *)

(** Every UID of [us] is accounted for in the map [sd]: it is made of an
    entry of the map and of a serial not above the last one used. *)
Definition accounted (us : list string) (sd : gmap string Z) : Prop :=
  ∀ u, u ∈ us → ∃ e n m, u = uid_of e n ∧ sd !! e = Some m ∧ n ≤ m.

(** The serial the next call for [entry] will use. *)
Definition next_serial (sd : gmap string Z) (entry : string) : Z :=
  match sd !! entry with
  | Some value => value + 1
  | None => 0
  end.

(** The number of calls for [entry] among [entries]. *)
Definition calls_for (entry : string) (entries : list string) : nat :=
  length (filter (λ e, e = entry) entries).

(** From [fr] to [fr'] nothing changed but, possibly, the colour table
    and [output_shapes]. *)
Definition same_but_colors (fr fr' : Frame) : Prop :=
  shape_tool (doc (self fr')) = shape_tool (doc (self fr)) ∧
  part_dict (self fr') = part_dict (self fr) ∧
  label_dict (self fr') = label_dict (self fr) ∧
  _share_dict (self fr') = _share_dict (self fr) ∧
  _parent_uid_stack (self fr') = _parent_uid_stack (self fr) ∧
  lvl fr' = lvl fr ∧
  locs fr' = locs fr ∧
  uids fr' = uids fr.

(** The UIDs returned so far are pairwise distinct and accounted for in
    the backing map. *)
Definition trace_ok (fr : Frame) : Prop :=
  NoDup (uids fr) ∧ accounted (uids fr) (_share_dict (self fr)).

(** From [fr0] to [fr] the trace has grown, and the two tables differ only
    at UIDs returned in between. *)
Definition grows (fr0 fr : Frame) : Prop :=
  trace_ok fr ∧
  uids fr0 `prefix_of` uids fr ∧
  ∀ u, u ∈ uids fr0 ∨ u ∉ uids fr →
       label_dict (self fr) !! u = label_dict (self fr0) !! u ∧
       part_dict (self fr) !! u = part_dict (self fr0) !! u.

(** The Part Record [p] is the one of [leaf] reached with the transforms
    [base] followed by those of the reference components [refs]. *)
Definition placed_by (st : XCAFDoc_ShapeTool) (base : list Loc) (refs : list TDF_Label)
    (leaf : TDF_Label) (p : PartRecord) : Prop :=
  p_shape p = BRepBuilderAPI_Transform (GetShape st leaf)
                (compose_locs (base ++ map (GetLocation st) refs)) ∧
  p_name p = GetLabelName st leaf.

(** [p] is the record of some simple shape reached from [start]. *)
Definition from_path (st : XCAFDoc_ShapeTool) (start : TDF_Label) (base : list Loc) (p : PartRecord) : Prop :=
  ∃ refs leaf, descent st start refs leaf ∧ is_leaf st leaf ∧
               placed_by st base refs leaf p.

(** Every Part Record present after a run was there before or comes from
    a path of the work done. *)
Definition records_sound (st : XCAFDoc_ShapeTool) (w : work) (fr fr' : Frame) : Prop :=
  ∀ uid p, part_dict (self fr') !! uid = Some p →
    part_dict (self fr) !! uid = Some p ∨
    match w with
    | Visit lab => from_path st lab (locs fr) p
    | Components labels =>
        ∃ label, label ∈ labels ∧ IsReference st label = true ∧
                 from_path st (GetReferredShape st label)
                   (locs fr ++ [GetLocation st label]) p
    | Roots labels => ∃ root_item, root_item ∈ labels ∧ from_path st root_item (locs fr) p
    end.

(** Every simple shape the work reaches has a Part Record after the run,
    stored under a UID returned during the run. *)
Definition record_stored (st : XCAFDoc_ShapeTool) (fr fr' : Frame) (base : list Loc) (refs : list TDF_Label)
    (leaf : TDF_Label) : Prop :=
  ∃ uid p, uid ∈ uids fr' ∧ (uid ∉ uids fr) ∧
           part_dict (self fr') !! uid = Some p ∧ placed_by st base refs leaf p.

(** Every simple shape reachable from the work done has its record stored. *)
Definition records_complete (st : XCAFDoc_ShapeTool) (w : work) (fr fr' : Frame) : Prop :=
  match w with
  | Visit lab =>
      ∀ refs leaf, descent st lab refs leaf → is_leaf st leaf →
                   record_stored st fr fr' (locs fr) refs leaf
  | Components labels =>
      ∀ label refs leaf, label ∈ labels → IsReference st label = true →
        descent st (GetReferredShape st label) refs leaf → is_leaf st leaf →
        record_stored st fr fr' (locs fr ++ [GetLocation st label]) refs leaf
  | Roots labels =>
      ∀ root_item refs leaf, root_item ∈ labels →
        descent st root_item refs leaf → is_leaf st leaf →
        record_stored st fr fr' (locs fr) refs leaf
  end.

(** The work [w] brings the walker to [lab]: [lab] is reached through
    reference components from the label visited, from what a reference
    component of the list refers to, or from a root of the list. *)
Definition reaches (st : XCAFDoc_ShapeTool) (w : work) (lab : TDF_Label) : Prop :=
  match w with
  | Visit start => ∃ refs, descent st start refs lab
  | Components labels =>
      ∃ label refs, label ∈ labels ∧ IsReference st label = true ∧
                    descent st (GetReferredShape st label) refs lab
  | Roots labels => ∃ root_item refs, root_item ∈ labels ∧ descent st root_item refs lab
  end.

(** How a run sorts the UIDs it has been given.  Those noted in
    [component_uids] were returned during the run, in that order, and the
    run has stored nothing under them.  Every other one was returned on
    entering [_get_sub_shapes] for a label [lab] that satisfies [P]: if
    [lab] is an assembly or a simple shape, the UID keys a Label Record
    whose entry is [lab]; if it is neither, the run has stored nothing
    under the UID. *)
Definition sorts (st : XCAFDoc_ShapeTool) (P : TDF_Label → Prop) (fr fr' : Frame)
    : Prop :=
  component_uids fr `prefix_of` component_uids fr' ∧
  component_uids fr' `sublist_of` uids fr' ∧
  (∀ u, u ∈ component_uids fr' → u ∉ component_uids fr → u ∉ uids fr) ∧
  (∀ u, u ∈ uids fr' → u ∉ uids fr → u ∈ component_uids fr' →
        label_dict (self fr') !! u = label_dict (self fr) !! u) ∧
  (∀ u, u ∈ uids fr' → u ∉ uids fr → u ∉ component_uids fr' →
        ∃ lab n, u = uid_of lab n ∧ P lab ∧
          if IsAssembly st lab || IsSimpleShape st lab
          then ∃ r, label_dict (self fr') !! u = Some r ∧ l_entry r = lab
          else label_dict (self fr') !! u = label_dict (self fr) !! u).

(** The colour table [ct] answers no query at the scopes 0, 1, 2: no shape
    has an instance colour and no label has a colour. *)
Definition colorless (ct : XCAFDoc_ColorTool) : Prop :=
  (∀ shape k, (k < 3)%nat → GetInstanceColor ct shape k = None) ∧
  (∀ lab k, (k < 3)%nat → GetColor ct lab k = None).

(** From [fr] to [fr'] the colour table has stayed the same, and every
    Part Record and every entry of [output_shapes] that has been added has
    the default colour. *)
Definition plain (fr fr' : Frame) : Prop :=
  color_tool (doc (self fr')) = color_tool (doc (self fr)) ∧
  (∀ u p, part_dict (self fr') !! u = Some p →
          part_dict (self fr) !! u = Some p ∨ p_color p = default_color) ∧
  (∀ shape name c, (shape, (name, c)) ∈ output_shapes fr' →
                   (shape, (name, c)) ∈ output_shapes fr ∨ c = default_color).


(** A write for [shape] does not change what an instance-colour query for
    [shape'] answers; so it is, for any two shapes, when the kernel
    refuses the write. *)
Definition unseen_by (shape shape' : Shape) : Prop :=
  ∀ ct scope c scope',
    GetInstanceColor (SetInstanceColor shape scope c ct) shape' scope' =
    GetInstanceColor ct shape' scope'.

(** ** Invariants of a [DocModel] *)

(** The serials stored in [_share_dict] are not negative. *)
Definition serials_nonneg (dm : DocModel) : Prop :=
  ∀ e m, _share_dict dm !! e = Some m → 0 ≤ m.

(** Every key of [label_dict] is made of the entry of its record and of a
    serial that [_share_dict] has already used for that entry. *)
Definition keyed_by_entry (dm : DocModel) : Prop :=
  ∀ u r, label_dict dm !! u = Some r →
    ∃ n m, u = uid_of (l_entry r) n ∧
           _share_dict dm !! l_entry r = Some m ∧ 0 ≤ n ≤ m.

(** Every key of [part_dict] is a key of [label_dict], for a record that
    is not an assembly and has the same name. *)
Definition parts_labelled (dm : DocModel) : Prop :=
  ∀ u p, part_dict dm !! u = Some p →
    ∃ r, label_dict dm !! u = Some r ∧ l_is_assy r = false ∧
         l_name r = p_name p.

(** [pu] is the key of a Label Record of an assembly. *)
Definition is_assembly_key (dm : DocModel) (pu : string) : Prop :=
  ∃ rp, label_dict dm !! pu = Some rp ∧ l_is_assy rp = true.

(** The stack of parents is not empty, and every UID on it, like every
    [parent_uid] of a Label Record, is the key of the record of an
    assembly. *)
Definition parents_known (dm : DocModel) : Prop :=
  _parent_uid_stack dm ≠ [] ∧
  (∀ pu, Some pu ∈ _parent_uid_stack dm → is_assembly_key dm pu) ∧
  (∀ u r pu, label_dict dm !! u = Some r → l_parent_uid r = Some pu →
             is_assembly_key dm pu).

Definition model_ok (dm : DocModel) : Prop :=
  serials_nonneg dm ∧ keyed_by_entry dm ∧ parts_labelled dm ∧ parents_known dm.

(** The objects a program can hold: a new [DocModel], and what completed
    calls of [parse_doc] and [load_stp] turn such an object into. *)
Inductive reachable : DocModel → Prop :=
  | reachable_init : reachable __init__
  | reachable_parse_doc fuel dm shapes dm' :
      reachable dm → parse_doc fuel dm = Ok (shapes, dm') → reachable dm'
  | reachable_load_stp fuel filename dm dm' :
      reachable dm → load_stp fuel filename dm = Ok dm' → reachable dm'.

(** Every Label Record the run has added or changed describes a label of
    the document: its name and kind are those of its entry. *)
Definition labels_describe (st : XCAFDoc_ShapeTool) (fr fr' : Frame) : Prop :=
  ∀ u r, label_dict (self fr') !! u = Some r →
    label_dict (self fr) !! u = Some r ∨
    (l_name r = GetLabelName st (l_entry r) ∧
     l_is_assy r = IsAssembly st (l_entry r) ∧
     (l_is_assy r = false → IsSimpleShape st (l_entry r) = true) ∧
     l_ref_entry r = (if l_is_assy r then None else Some None)).

(** From [lab] the walker reaches, through reference components, a label
    from which it reaches that same label again. *)
Definition reaches_cycle (st : XCAFDoc_ShapeTool) (lab : TDF_Label) : Prop :=
  ∃ refs mid again,
    descent st lab refs mid ∧ again ≠ [] ∧ descent st mid again mid.

(** The Label Record [r] hangs under the record of an assembly that has a
    reference component referring to the label of [r]. *)
Definition child_of (st : XCAFDoc_ShapeTool) (dm : DocModel) (r : LabelRecord) : Prop :=
  ∃ pu rp label,
    l_parent_uid r = Some pu ∧
    label_dict dm !! pu = Some rp ∧ l_is_assy rp = true ∧
    label ∈ GetComponents st (l_entry rp) ∧
    IsReference st label = true ∧
    GetReferredShape st label = l_entry r.

(** The UIDs returned during a run are new: none was a key of a table
    when the run started. *)
Definition returns_new_uids (fr fr' : Frame) : Prop :=
  ∀ u, u ∈ uids fr' →
       u ∈ uids fr ∨
       (label_dict (self fr) !! u = None ∧ part_dict (self fr) !! u = None).

(** From [fr] to [fr'] entries were only appended to [output_shapes], and
    its keys stay pairwise distinct if they were. *)
Definition out_grows (fr fr' : Frame) : Prop :=
  output_shapes fr `prefix_of` output_shapes fr' ∧
  (NoDup (output_shapes fr).*1 → NoDup (output_shapes fr').*1).

(** Every Part Record present after the run was there before, or its shape
    is a key of [output_shapes]. *)
Definition parts_shown (fr fr' : Frame) : Prop :=
  ∀ u p, part_dict (self fr') !! u = Some p →
         part_dict (self fr) !! u = Some p ∨ p_shape p ∈ (output_shapes fr').*1.

(** What a run does to the stack of parents and to the parents of the
    Label Records, when it starts with the stack at the height its level
    calls for: one more than [lvl] on entering [_get_sub_shapes], two more
    inside the loop over the components of an assembly. *)
Definition tree_post (st : XCAFDoc_ShapeTool) (w : work) (fr fr' : Frame) : Prop :=
  match w with
  | Visit lab =>
      Z.of_nat (length (_parent_uid_stack (self fr))) = lvl fr + 1 →
      let uid := (next_uid lab (_share_dict (self fr))).1 in
      _parent_uid_stack (self fr') =
        _parent_uid_stack (self fr) ++ (if IsAssembly st lab then [Some uid] else []) ∧
      ∀ u r, label_dict (self fr') !! u = Some r →
        label_dict (self fr) !! u = Some r ∨
        (u = uid ∧ l_entry r = lab ∧
         Some (l_parent_uid r) = last (_parent_uid_stack (self fr))) ∨
        child_of st (self fr') r
  | Components labels =>
      Z.of_nat (length (_parent_uid_stack (self fr))) = lvl fr + 2 →
      ∀ pu rp,
        last (_parent_uid_stack (self fr)) = Some (Some pu) →
        label_dict (self fr) !! pu = Some rp → l_is_assy rp = true →
        (∀ label, label ∈ labels → label ∈ GetComponents st (l_entry rp)) →
        _parent_uid_stack (self fr') = _parent_uid_stack (self fr) ∧
        ∀ u r, label_dict (self fr') !! u = Some r →
          label_dict (self fr) !! u = Some r ∨ child_of st (self fr') r
  | Roots _ => True
  end.

(** During the run a Label Record whose entry is [lab] has been stored
    under a UID returned during the run. *)
Definition label_stored (fr fr' : Frame) (lab : TDF_Label) : Prop :=
  ∃ u r, u ∈ uids fr' ∧ (u ∉ uids fr) ∧
         label_dict (self fr') !! u = Some r ∧ l_entry r = lab.

(** Every assembly and every simple shape the work reaches has its Label
    Record stored. *)
Definition labels_complete (st : XCAFDoc_ShapeTool) (w : work) (fr fr' : Frame) : Prop :=
  match w with
  | Visit lab =>
      ∀ refs target, descent st lab refs target →
        IsAssembly st target = true ∨ IsSimpleShape st target = true →
        label_stored fr fr' target
  | Components labels =>
      ∀ label refs target, label ∈ labels → IsReference st label = true →
        descent st (GetReferredShape st label) refs target →
        IsAssembly st target = true ∨ IsSimpleShape st target = true →
        label_stored fr fr' target
  | Roots labels =>
      ∀ root_item refs target, root_item ∈ labels →
        descent st root_item refs target →
        IsAssembly st target = true ∨ IsSimpleShape st target = true →
        label_stored fr fr' target
  end.

End Walker.

(** * A concrete kernel and some documents *)

(** Shapes are solids with an identifier, moved by transforms; a transform
    is the word of the elementary moves it is made of, and [Multiplied]
    appends words.  The composition is not commutative. *)
Inductive demo_shape :=
  | Solid (id : nat)
  | Located (s : demo_shape) (loc : list nat).

Global Instance demo_shape_eq_dec : EqDecision demo_shape.
Proof. solve_decision. Defined.

Definition red : Quantity_Color :=
  mkColor (QArith_base.Qmake 1 1) (QArith_base.Qmake 0 1) (QArith_base.Qmake 0 1).

Definition blue : Quantity_Color :=
  mkColor (QArith_base.Qmake 0 1) (QArith_base.Qmake 0 1) (QArith_base.Qmake 1 1).

(** The colour tool of the concrete kernel is a plain table: the instance
    colours by shape and scope, the label colours by label and scope. *)
Record demo_color_tool := mkColorTool {
  demo_instance_colors : demo_shape → nat → option Quantity_Color;
  demo_label_colors : TDF_Label → nat → option Quantity_Color
}.

(** A write that is stored under the shape and the scope given. *)
Definition demo_store (shape : demo_shape) (scope : nat) (c : Quantity_Color)
    (ct : demo_color_tool) : demo_color_tool :=
  {| demo_instance_colors := λ shape' scope',
       if decide (shape' = shape) then
         if decide (scope' = scope) then Some c
         else demo_instance_colors ct shape' scope'
       else demo_instance_colors ct shape' scope';
     demo_label_colors := demo_label_colors ct |}.

Definition no_colors : demo_color_tool :=
  mkColorTool (λ _ _, None) (λ _ _, None).

(** The concrete kernel stores every write. *)
Definition demo_kernel : Kernel :=
  mkKernel (list nat) demo_shape _ [] app Located (Solid 0)
    demo_color_tool demo_instance_colors demo_label_colors demo_store no_colors.


(** One root assembly [0:1:1:1] with two reference components, both
    referring to the simple shape [0:1:1:2], placed by the moves [[1]] and
    [[2]]. *)
Definition two_instances_tool : @XCAFDoc_ShapeTool demo_kernel :=
  @mkShapeTool demo_kernel
    ["0:1:1:1"]
    (λ lab, bool_decide (lab = "0:1:1:1"))
    (λ lab, bool_decide (lab = "0:1:1:2"))
    (λ lab, bool_decide (lab = "0:1:1:1:1") || bool_decide (lab = "0:1:1:1:2"))
    (λ lab, if bool_decide (lab = "0:1:1:1") then ["0:1:1:1:1"; "0:1:1:1:2"] else [])
    (λ _, [])
    (λ lab, if bool_decide (lab = "0:1:1:1:1") || bool_decide (lab = "0:1:1:1:2")
            then "0:1:1:2" else "")
    (λ lab, if bool_decide (lab = "0:1:1:1:1") then [1%nat]
            else if bool_decide (lab = "0:1:1:1:2") then [2%nat] else [])
    (λ lab, if bool_decide (lab = "0:1:1:2") then Solid 1 else Solid 0)
    (λ lab, if bool_decide (lab = "0:1:1:1") then "Top"
            else if bool_decide (lab = "0:1:1:2") then "Part" else "").

Definition two_instances : @TDocStd_Document demo_kernel :=
  @mkDoc demo_kernel two_instances_tool no_colors.

(** Two free shapes at the root: the assembly [0:1:1:1], without
    components, then the simple shape [0:1:1:2]. *)
Definition two_roots_tool : @XCAFDoc_ShapeTool demo_kernel :=
  @mkShapeTool demo_kernel
    ["0:1:1:1"; "0:1:1:2"]
    (λ lab, bool_decide (lab = "0:1:1:1"))
    (λ lab, bool_decide (lab = "0:1:1:2"))
    (λ _, false)
    (λ _, [])
    (λ _, [])
    (λ _, "")
    (λ _, [])
    (λ lab, if bool_decide (lab = "0:1:1:2") then Solid 1 else Solid 0)
    (λ lab, if bool_decide (lab = "0:1:1:1") then "First" else "Second").

Definition two_roots : @TDocStd_Document demo_kernel :=
  @mkDoc demo_kernel two_roots_tool no_colors.

(** One free simple shape [0:1:1:1], the solid 1, with one declared
    sub-shape [0:1:1:1:1], the solid 2.  The only colour of the document
    is the label colour [red] of the sub-shape, at scope 0. *)
Definition with_sub_shape_tool : @XCAFDoc_ShapeTool demo_kernel :=
  @mkShapeTool demo_kernel
    ["0:1:1:1"]
    (λ _, false)
    (λ lab, bool_decide (lab = "0:1:1:1"))
    (λ _, false)
    (λ _, [])
    (λ lab, if bool_decide (lab = "0:1:1:1") then ["0:1:1:1:1"] else [])
    (λ _, "")
    (λ _, [])
    (λ lab, if bool_decide (lab = "0:1:1:1") then Solid 1
            else if bool_decide (lab = "0:1:1:1:1") then Solid 2 else Solid 0)
    (λ lab, if bool_decide (lab = "0:1:1:1") then "Body" else "Face").

Definition with_sub_shape : @TDocStd_Document demo_kernel :=
  @mkDoc demo_kernel with_sub_shape_tool
    (mkColorTool (λ _ _, None)
       (λ lab scope, if bool_decide (lab = "0:1:1:1:1") && bool_decide (scope = 0%nat)
                     then Some red else None)).

(** Two free simple shapes.  [0:1:1:1], the solid 1, has the instance
    colour [red] at scope 2 and the label colour [blue] at scope 0.
    [0:1:1:2], the solid 2, has no instance colour and the label colours
    [blue] at scope 1 and [red] at scope 2. *)
Definition colored_shapes_tool : @XCAFDoc_ShapeTool demo_kernel :=
  @mkShapeTool demo_kernel
    ["0:1:1:1"; "0:1:1:2"]
    (λ _, false)
    (λ lab, bool_decide (lab = "0:1:1:1") || bool_decide (lab = "0:1:1:2"))
    (λ _, false)
    (λ _, [])
    (λ _, [])
    (λ _, "")
    (λ _, [])
    (λ lab, if bool_decide (lab = "0:1:1:1") then Solid 1
            else if bool_decide (lab = "0:1:1:2") then Solid 2 else Solid 0)
    (λ lab, if bool_decide (lab = "0:1:1:1") then "Painted" else "Plain").

Definition colored_shapes : @TDocStd_Document demo_kernel :=
  @mkDoc demo_kernel colored_shapes_tool
    (mkColorTool
       (λ shape scope, if bool_decide (shape = Solid 1) && bool_decide (scope = 2%nat)
                       then Some red else None)
       (λ lab scope,
          if bool_decide (lab = "0:1:1:1") && bool_decide (scope = 0%nat) then Some blue
          else if bool_decide (lab = "0:1:1:2") && bool_decide (scope = 1%nat) then Some blue
          else if bool_decide (lab = "0:1:1:2") && bool_decide (scope = 2%nat) then Some red
          else None)).

(** Two levels of assemblies.  The root assembly [0:1:1:1] has the
    reference component [0:1:1:1:1], placed by the move [[1]], which
    refers to the assembly [0:1:1:2]; that assembly has the reference
    component [0:1:1:2:1], placed by the move [[2]], which refers to the
    simple shape [0:1:1:3], the solid 7. *)
Definition nested_tool : @XCAFDoc_ShapeTool demo_kernel :=
  @mkShapeTool demo_kernel
    ["0:1:1:1"]
    (λ lab, bool_decide (lab = "0:1:1:1") || bool_decide (lab = "0:1:1:2"))
    (λ lab, bool_decide (lab = "0:1:1:3"))
    (λ lab, bool_decide (lab = "0:1:1:1:1") || bool_decide (lab = "0:1:1:2:1"))
    (λ lab, if bool_decide (lab = "0:1:1:1") then ["0:1:1:1:1"]
            else if bool_decide (lab = "0:1:1:2") then ["0:1:1:2:1"] else [])
    (λ _, [])
    (λ lab, if bool_decide (lab = "0:1:1:1:1") then "0:1:1:2"
            else if bool_decide (lab = "0:1:1:2:1") then "0:1:1:3" else "")
    (λ lab, if bool_decide (lab = "0:1:1:1:1") then [1%nat]
            else if bool_decide (lab = "0:1:1:2:1") then [2%nat] else [])
    (λ lab, if bool_decide (lab = "0:1:1:3") then Solid 7 else Solid 0)
    (λ lab, if bool_decide (lab = "0:1:1:1") then "Machine"
            else if bool_decide (lab = "0:1:1:2") then "Arm"
            else if bool_decide (lab = "0:1:1:3") then "Bolt" else "").

Definition nested : @TDocStd_Document demo_kernel :=
  @mkDoc demo_kernel nested_tool no_colors.

(** A rank for the documents above: the root assembly [0:1:1:1] is above
    the assembly [0:1:1:2], which is above every other label. *)
Definition demo_rank (lab : TDF_Label) : nat :=
  if bool_decide (lab = "0:1:1:1") then 2
  else if bool_decide (lab = "0:1:1:2") then 1 else 0.

(** The document of a new [DocModel]: the empty assembly [0:1:1:1] named
    "Top". *)
Definition top_only_tool : @XCAFDoc_ShapeTool demo_kernel :=
  @mkShapeTool demo_kernel
    ["0:1:1:1"]
    (λ lab, bool_decide (lab = "0:1:1:1"))
    (λ _, false)
    (λ _, false)
    (λ _, [])
    (λ _, [])
    (λ _, "")
    (λ _, [])
    (λ _, Solid 0)
    (λ lab, if bool_decide (lab = "0:1:1:1") then "Top" else "").

Definition top_only : @TDocStd_Document demo_kernel :=
  @mkDoc demo_kernel top_only_tool no_colors.

(** A file system with five readable STEP files, one per document above;
    reading any other file fails. *)
Definition demo_files : list (string * @TDocStd_Document demo_kernel) :=
  [("two.step", two_instances); ("roots.step", two_roots);
   ("sub.step", with_sub_shape); ("colors.step", colored_shapes);
   ("nested.step", nested)].

Definition demo_lookup (filename : string) : option (@TDocStd_Document demo_kernel) :=
  match list_find (λ entry, entry.1 = filename) demo_files with
  | Some (_, (_, doc)) => Some doc
  | None => None
  end.

Definition demo_environment : @Environment demo_kernel :=
  @mkEnvironment demo_kernel top_only
    (λ filename, match demo_lookup filename with
                 | Some _ => IFSelect_RetDone
                 | None => IFSelect_RetFail
                 end)
    (λ filename doc, default doc (demo_lookup filename)).

(** A new [DocModel] in that environment. *)
Definition demo_model : @DocModel demo_kernel :=
  @__init__ demo_kernel demo_environment.

(** An assembly that contains itself: the root assembly [0:1:1:1] has the
    reference component [0:1:1:1:1], which refers to [0:1:1:1]. *)
Definition self_reference_tool : @XCAFDoc_ShapeTool demo_kernel :=
  @mkShapeTool demo_kernel
    ["0:1:1:1"]
    (λ lab, bool_decide (lab = "0:1:1:1"))
    (λ _, false)
    (λ lab, bool_decide (lab = "0:1:1:1:1"))
    (λ lab, if bool_decide (lab = "0:1:1:1") then ["0:1:1:1:1"] else [])
    (λ _, [])
    (λ lab, if bool_decide (lab = "0:1:1:1:1") then "0:1:1:1" else "")
    (λ _, [])
    (λ _, Solid 0)
    (λ _, "Loop").

Definition self_reference : @TDocStd_Document demo_kernel :=
  @mkDoc demo_kernel self_reference_tool no_colors.

(** The new [DocModel] once it has loaded [two.step]. *)
Definition demo_loaded : @DocModel demo_kernel :=
  match @load_stp demo_kernel demo_environment 2 (Some "two.step") demo_model with
  | Ok dm => dm
  | _ => demo_model
  end.







(** * Facts *)

(** ** UIDs are split at their last full stop *)

Lemma pretty_N_char_dotfree x : Ascii.eqb (pretty_N_char x) "."%char = false.
Proof. unfold pretty_N_char. by repeat case_match. Qed.

Lemma pretty_N_go_dotfree x s : dotfree s = true → dotfree (pretty_N_go x s) = true.
Proof.
  revert s. induction (N.lt_wf_0 x) as [x _ IH]; intros s Hs.
  assert (x = 0 ∨ 0 < x)%N as [->|Hx] by lia.
  - by rewrite pretty_N_go_0.
  - rewrite pretty_N_go_step by done. apply IH.
    + by apply N.div_lt.
    + simpl. by rewrite pretty_N_char_dotfree, Hs.
Qed.

Lemma pretty_N_dotfree (x : N) : dotfree (pretty x) = true.
Proof.
  unfold pretty, pretty_N. case_decide; [done|]. by apply pretty_N_go_dotfree.
Qed.

Lemma str_dotfree z : dotfree (str z) = true.
Proof.
  unfold str, pretty, pretty_Z. destruct z as [|p|p]; [done| |].
  - apply pretty_N_dotfree.
  - simpl. apply pretty_N_dotfree.
Qed.

Lemma append_nil (t : string) : "" +:+ t = t.
Proof. reflexivity. Qed.

Lemma append_cons a (s t : string) : String a s +:+ t = String a (s +:+ t).
Proof. reflexivity. Qed.

Lemma dotfree_app_dot s t : dotfree (s +:+ String "."%char t) = false.
Proof.
  induction s as [|a s IH]; rewrite ?append_nil, ?append_cons; simpl; [done|].
  rewrite IH. by rewrite andb_false_r.
Qed.

Lemma split_at_last_dot s1 s2 d1 d2 :
  dotfree d1 = true → dotfree d2 = true →
  s1 +:+ String "."%char d1 = s2 +:+ String "."%char d2 → s1 = s2 ∧ d1 = d2.
Proof.
  intros H1 H2. revert s2.
  induction s1 as [|a s1 IH]; intros [|b s2] Heq;
    rewrite ?append_nil, ?append_cons in Heq.
  - by simplify_eq.
  - injection Heq as <- ->. by rewrite dotfree_app_dot in H1.
  - injection Heq as -> <-. by rewrite dotfree_app_dot in H2.
  - injection Heq as -> Heq. apply IH in Heq as [-> ->]. done.
Qed.

Lemma uid_of_inj e1 n1 e2 n2 : uid_of e1 n1 = uid_of e2 n2 → e1 = e2 ∧ n1 = n2.
Proof.
  intros Heq.
  apply (split_at_last_dot e1 e2 (str n1) (str n2)) in Heq as [-> Hs];
    auto using str_dotfree.
  split; [done|]. by apply (inj pretty) in Hs.
Qed.

(** ** The allocator on its backing map *)

Lemma next_uid_fresh us sd entry :
  accounted us sd → (next_uid entry sd).1 ∉ us.
Proof.
  intros Hacc Hin. destruct (Hacc _ Hin) as (e & n & m & Heq & Hm & Hle).
  unfold next_uid in Heq. simpl in Heq.
  apply uid_of_inj in Heq as [-> Hn]. rewrite Hm in Hn. lia.
Qed.

Lemma next_uid_accounted us sd entry :
  accounted us sd →
  accounted (us ++ [(next_uid entry sd).1]) (next_uid entry sd).2.
Proof.
  intros Hacc u Hin. unfold next_uid. simpl.
  apply elem_of_app in Hin as [Hin|Hin].
  - destruct (Hacc _ Hin) as (e & n & m & -> & Hm & Hle).
    destruct (decide (e = entry)) as [->|Hne].
    + exists entry, n, (m + 1). rewrite Hm, lookup_insert_eq. split_and!; [done..|lia].
    + exists e, n, m. by rewrite lookup_insert_ne.
  - apply list_elem_of_singleton in Hin as ->.
    eexists entry, _, _. rewrite lookup_insert_eq. split_and!; [done..|lia].
Qed.

Lemma accounted_nil sd : accounted [] sd.
Proof. intros u Hin. by apply elem_of_nil in Hin. Qed.

Lemma next_uid_fst entry sd : (next_uid entry sd).1 = uid_of entry (next_serial sd entry).
Proof. unfold next_uid, next_serial. simpl. by destruct (sd !! entry). Qed.

Lemma next_serial_next_uid entry e sd :
  next_serial (next_uid entry sd).2 e =
  if decide (e = entry) then next_serial sd e + 1 else next_serial sd e.
Proof.
  unfold next_uid, next_serial. simpl. case_decide as He.
  - subst. rewrite lookup_insert_eq. destruct (sd !! entry); lia.
  - by rewrite lookup_insert_ne.
Qed.

Lemma alloc_all_cons e rest sd :
  alloc_all (e :: rest) sd =
  ((next_uid e sd).1 :: (alloc_all rest (next_uid e sd).2).1,
   (alloc_all rest (next_uid e sd).2).2).
Proof.
  cbn [alloc_all]. destruct (next_uid e sd) as [uid sd'].
  cbn [fst snd]. by destruct (alloc_all rest sd').
Qed.

Lemma calls_for_cons entry e rest :
  calls_for entry (e :: rest) =
  if decide (e = entry) then S (calls_for entry rest) else calls_for entry rest.
Proof. unfold calls_for. rewrite filter_cons. by case_decide. Qed.

Lemma alloc_all_lookup entries sd k entry :
  entries !! k = Some entry →
  (alloc_all entries sd).1 !! k =
    Some (uid_of entry (next_serial sd entry + Z.of_nat (calls_for entry (take k entries)))).
Proof.
  revert sd k. induction entries as [|e rest IH]; intros sd k Hk; [done|].
  rewrite alloc_all_cons, next_uid_fst. cbn [fst].
  destruct k as [|k]; cbn in Hk.
  - injection Hk as ->. cbn [lookup list_lookup take]. do 2 f_equal.
    unfold calls_for. cbn. lia.
  - cbn [lookup list_lookup take].
    etrans; [exact (IH (next_uid e sd).2 _ Hk)|].
    rewrite next_serial_next_uid, calls_for_cons.
    do 2 f_equal. repeat case_decide; simplify_eq; lia.
Qed.

Lemma alloc_all_map entries sd entry :
  (alloc_all entries sd).2 !! entry =
  if decide (calls_for entry entries = 0%nat) then sd !! entry
  else Some (next_serial sd entry + Z.of_nat (calls_for entry entries) - 1).
Proof.
  revert sd. induction entries as [|e rest IH]; intros sd; [done|].
  rewrite alloc_all_cons. cbn [snd]. rewrite IH, next_serial_next_uid, calls_for_cons.
  destruct (decide (e = entry)) as [->|Hne].
  - rewrite (decide_False (P := S _ = 0%nat)) by done.
    unfold next_uid, next_serial. cbn [snd]. rewrite lookup_insert_eq.
    rewrite (decide_True (P := entry = entry)) by done.
    case_decide as Hc; [rewrite Hc|]; destruct (sd !! entry); f_equal; lia.
  - rewrite (decide_False (P := entry = e)) by done.
    unfold next_uid. cbn [snd]. rewrite lookup_insert_ne by done. done.
Qed.

Lemma alloc_all_NoDup entries sd prev :
  NoDup prev → accounted prev sd →
  NoDup (prev ++ (alloc_all entries sd).1) ∧
  accounted (prev ++ (alloc_all entries sd).1) (alloc_all entries sd).2.
Proof.
  revert sd prev. induction entries as [|e rest IH]; intros sd prev Hnd Hacc.
  - cbn. by rewrite app_nil_r.
  - rewrite alloc_all_cons. cbn [fst snd].
    pose proof (next_uid_fresh prev sd e Hacc) as Hfresh.
    pose proof (next_uid_accounted prev sd e Hacc) as Hacc'.
    assert (NoDup (prev ++ [(next_uid e sd).1])) as Hnd'.
    { apply NoDup_app. split_and!; [done| |apply NoDup_singleton].
      intros x Hx Hx'. apply list_elem_of_singleton in Hx' as ->. done. }
    destruct (IH _ _ Hnd' Hacc') as [H1 H2].
    by rewrite <-!app_assoc in H1, H2.
Qed.

(** C4.  Over the lifetime of a backing map, which starts empty, the
    allocator is called on some sequence of entries.  The call number [k],
    for the entry [entry], returns [entry + '.' + serial] where the serial
    is the number of earlier calls for the same entry: 0 on the first call
    and one more on each later call.  The map then holds, for each entry
    called at least once, the last serial used, and no entry never called.
    All the UIDs returned are pairwise distinct. *)
Theorem uid_allocator_serials_and_distinct (entries : list string) :
  (∀ k entry, entries !! k = Some entry →
     (alloc_all entries ∅).1 !! k =
       Some (uid_of entry (Z.of_nat (calls_for entry (take k entries))))) ∧
  (∀ entry, (alloc_all entries ∅).2 !! entry =
     if decide (calls_for entry entries = 0%nat) then None
     else Some (Z.of_nat (calls_for entry entries) - 1)) ∧
  NoDup (alloc_all entries ∅).1.
Proof.
  split_and!.
  - intros k entry Hk. rewrite (alloc_all_lookup _ _ _ _ Hk).
    unfold next_serial. by rewrite lookup_empty.
  - intros entry. rewrite alloc_all_map. unfold next_serial.
    rewrite lookup_empty. by case_decide.
  - destruct (alloc_all_NoDup entries ∅ [] (NoDup_nil_2) (accounted_nil _)) as [Hnd _].
    done.
Qed.

(** ** Loading *)

Section Loading.

Context {K : Kernel} {E : Environment}.

(** A document with no free shape is walked without visiting anything. *)
Lemma parse_doc_no_free_shapes fuel (dm : DocModel) :
  GetFreeShapes (shape_tool (doc dm)) = [] →
  parse_doc fuel dm = Ok ([], dm).
Proof.
  intros Hfree. unfold parse_doc, parse_doc_frame, _get_shapes.
  rewrite Hfree. cbn. by destruct dm.
Qed.

(** C10.  Called with a falsy file name ([None] or the empty string),
    [load_stp] returns at once: the object is exactly as it was, with the
    same document, the same [part_dict], [label_dict], [_share_dict] and
    [_parent_uid_stack].  No walk is started, whatever the recursion budget,
    even none. *)
Theorem load_stp_falsy_filename_returns_unchanged
    (fuel : nat) (filename : option string) (dm : DocModel) :
  falsy filename = true → load_stp fuel filename dm = Ok dm.
Proof.
  unfold falsy, load_stp. destruct filename as [fname|]; [|done].
  by intros ->.
Qed.

(** C9.  When reading the file does not end with [IFSelect_RetDone],
    [load_stp] completes without raising: [self.doc] becomes the new
    document nothing was transferred into, the walk of that document visits
    no label, and [part_dict], [label_dict], [_share_dict] and
    [_parent_uid_stack] are what they were before the call.  Tables that
    were empty, as they are in a new [DocModel], are still empty. *)
Theorem load_stp_failed_read_leaves_tables
    (fuel : nat) (fname : string) (dm : DocModel) :
  fname ≠ "" →
  ReadFile fname ≠ IFSelect_RetDone →
  ∃ dm', load_stp fuel (Some fname) dm = Ok dm' ∧
         doc dm' = new_TDocStd_Document ∧
         part_dict dm' = part_dict dm ∧
         label_dict dm' = label_dict dm ∧
         _share_dict dm' = _share_dict dm ∧
         _parent_uid_stack dm' = _parent_uid_stack dm ∧
         (part_dict dm = ∅ → label_dict dm = ∅ →
          part_dict dm' = ∅ ∧ label_dict dm' = ∅).
Proof.
  intros Hname Hstatus. exists (with_doc new_TDocStd_Document dm).
  split; [|by split_and!; try done; intros -> ->].
  unfold load_stp. rewrite bool_decide_eq_false_2 by done.
  rewrite decide_False by done.
  by rewrite parse_doc_no_free_shapes.
Qed.

End Loading.

(** ** Colour resolution *)

Section Colours.

Context {K : Kernel}.

Implicit Types (ct : XCAFDoc_ColorTool) (shape : Shape) (fr : Frame)
  (c : Quantity_Color) (st : XCAFDoc_ShapeTool) (lab : TDF_Label).


Lemma first_color_None (get : nat → option Quantity_Color) :
  (∀ k, (k < 3)%nat → get k = None) → first_color get = None.
Proof.
  intros Hnone. unfold first_color.
  by rewrite (Hnone 0%nat), (Hnone 1%nat), (Hnone 2%nat) by lia.
Qed.






(** Where the writes for a shape do not show in the answers for another,
    the three calls leave these answers as they were. *)
Lemma set_all_scopes_unseen shape shape' c ct k :
  unseen_by shape shape' →
  GetInstanceColor (set_all_scopes shape c ct) shape' k = GetInstanceColor ct shape' k.
Proof. intros Hunseen. unfold set_all_scopes. by rewrite !Hunseen. Qed.



Lemma resolve_shape_color_default shape lab fr :
  first_color (GetInstanceColor (color_tool (doc (self fr))) shape) = None →
  first_color (GetColor (color_tool (doc (self fr))) lab) = None →
  resolve_shape_color shape lab fr = Ok (default_color, fr).
Proof.
  intros Hi Hl. unfold resolve_shape_color, bind, get_color_tool. by rewrite Hi, Hl.
Qed.

Lemma same_but_colors_refl fr : same_but_colors fr fr.
Proof. done. Qed.

Lemma same_but_colors_trans fr1 fr2 fr3 :
  same_but_colors fr1 fr2 → same_but_colors fr2 fr3 → same_but_colors fr1 fr3.
Proof. unfold same_but_colors. intros ??. destruct_and!. split_and!; congruence. Qed.

Lemma resolve_shape_color_total shape lab fr :
  ∃ c fr', resolve_shape_color shape lab fr = Ok (c, fr') ∧
           same_but_colors fr fr' ∧ output_shapes fr' = output_shapes fr.
Proof.
  unfold resolve_shape_color, bind, get_color_tool.
  destruct (first_color (GetInstanceColor _ shape)); [by eexists _, _|].
  destruct (first_color (GetColor _ lab)); by eexists _, _.
Qed.

Lemma resolve_subshape_color_total shape shape_sub lab fr :
  ∃ c fr', resolve_subshape_color shape shape_sub lab fr = Ok (c, fr') ∧
           same_but_colors fr fr' ∧ output_shapes fr' = output_shapes fr.
Proof.
  unfold resolve_subshape_color, bind, get_color_tool.
  destruct (first_color (GetInstanceColor _ shape_sub)); [by eexists _, _|].
  destruct (first_color (GetColor _ lab)); by eexists _, _.
Qed.

Lemma output_shapes_add_total shape name c fr :
  ∃ fr', output_shapes_add shape name c fr = Ok (tt, fr') ∧
         self fr' = self fr ∧ lvl fr' = lvl fr ∧ locs fr' = locs fr ∧
         uids fr' = uids fr.
Proof. unfold output_shapes_add. case_decide; by eexists. Qed.

Lemma visit_sub_shape_total st shape loc lab_subs fr :
  ∃ fr', visit_sub_shape st shape loc lab_subs fr = Ok (tt, fr') ∧
         same_but_colors fr fr'.
Proof.
  unfold visit_sub_shape, bind.
  destruct (resolve_subshape_color_total shape (GetShape st lab_subs) lab_subs fr)
    as (c & fr1 & -> & Hsame & _).
  destruct (output_shapes_add_total (BRepBuilderAPI_Transform (GetShape st lab_subs) loc)
              (GetLabelName st lab_subs) c fr1) as (fr2 & -> & Hself & ? & ? & ?).
  exists fr2. split; [done|]. eapply same_but_colors_trans; [done|].
  unfold same_but_colors. rewrite Hself. by split_and!.
Qed.

Lemma for_each_sub_shapes_total st shape loc l_subss fr :
  ∃ fr', for_each l_subss (visit_sub_shape st shape loc) fr = Ok (tt, fr') ∧
         same_but_colors fr fr'.
Proof.
  revert fr. induction l_subss as [|lab_subs rest IH]; intros fr.
  - exists fr. by split.
  - cbn [for_each]. unfold bind.
    destruct (visit_sub_shape_total st shape loc lab_subs fr) as (fr1 & -> & H1).
    destruct (IH fr1) as (fr2 & -> & H2).
    exists fr2. split; [done|]. by eapply same_but_colors_trans.
Qed.

Lemma _get_uid_from_entry_run entry fr :
  _get_uid_from_entry entry fr =
  Ok ((next_uid entry (_share_dict (self fr))).1, after_alloc entry fr).
Proof.
  unfold _get_uid_from_entry, after_alloc.
  by destruct (next_uid entry (_share_dict (self fr))).
Qed.

(** The simple-shape branch always completes.  It adds one record to each
    table under [uid]; the Part Record holds the shape moved by the
    composition of [locs] and the colour the resolution block returned. *)
Lemma visit_simple_shape_run st lab uid text_entry name parent_uid l_subss fr :
  let shape := GetShape st lab in
  let l_dict := mkLabel text_entry name parent_uid (Some None) false in
  ∃ c fr_res fr',
    resolve_shape_color shape lab (after_set_label uid l_dict fr) = Ok (c, fr_res) ∧
    visit_simple_shape st lab uid text_entry name parent_uid l_subss fr = Ok (tt, fr') ∧
    part_dict (self fr') =
      <[uid := mkPart (BRepBuilderAPI_Transform shape (compose_locs (locs fr))) name c]>
        (part_dict (self fr)) ∧
    label_dict (self fr') = <[uid := l_dict]> (label_dict (self fr)) ∧
    shape_tool (doc (self fr')) = shape_tool (doc (self fr)) ∧
    _share_dict (self fr') = _share_dict (self fr) ∧
    _parent_uid_stack (self fr') = _parent_uid_stack (self fr) ∧
    lvl fr' = lvl fr ∧ locs fr' = locs fr ∧ uids fr' = uids fr ∧
    (l_subss = [] → color_tool (doc (self fr')) = color_tool (doc (self fr_res))).
Proof.
  intros shape l_dict.
  destruct (resolve_shape_color_total shape lab (after_set_label uid l_dict fr))
    as (c & fr1 & Hres & Hs1 & _).
  exists c, fr1.
  unfold visit_simple_shape, bind, set_label, get_locs.
  fold l_dict. fold (after_set_label uid l_dict fr). fold shape.
  change (locs (after_set_label uid l_dict fr)) with (locs fr).
  rewrite Hres.
  destruct (output_shapes_add_total
              (BRepBuilderAPI_Transform shape (compose_locs (locs fr)))
              (GetLabelName st lab) c fr1) as (fr2 & -> & Hself2 & ? & ? & ?).
  unfold set_part.
  match goal with
  | |- context [for_each _ _ ?f] =>
      destruct (for_each_sub_shapes_total st shape (compose_locs (locs fr)) l_subss f)
        as (fr3 & Hloop & Hs3)
  end.
  exists fr3. rewrite Hloop.
  unfold same_but_colors in Hs1, Hs3. cbn in Hs1, Hs3. destruct_and!.
  split_and!; try congruence.
  intros ->. cbn in Hloop. unfold ret in Hloop. injection Hloop as <-.
  cbn. by rewrite Hself2.
Qed.

(** On a label that is a simple shape and not an assembly, the walker
    allocates one UID, reads the parent on top of the stack and runs the
    simple-shape branch. *)
Lemma _get_sub_shapes_leaf fuel st lab loc fr parent_uid :
  is_leaf st lab →
  last (_parent_uid_stack (self fr)) = Some parent_uid →
  _get_sub_shapes (S fuel) st lab loc fr =
  visit_simple_shape st lab (next_uid lab (_share_dict (self fr))).1
    lab (GetLabelName st lab) parent_uid (GetSubShapes st lab)
    (after_alloc lab fr).
Proof.
  intros [Hassy Hsimple] Htop. cbn [_get_sub_shapes]. unfold TDF_Tool_Entry.
  unfold bind at 1. rewrite _get_uid_from_entry_run.
  unfold bind at 1, parent_uid_top. cbn [after_alloc self with_share_dict _parent_uid_stack].
  by rewrite Htop, Hassy, Hsimple.
Qed.


(** C8.  The walker is on a label that is a simple shape (and no assembly)
    whose shape has no instance colour and whose label has no colour at
    any of the scopes 0, 1, 2.  The resolution block returns the default
    colour, RGB (0.5, 0.5, 0.5), and leaves the frame it ran in as it was:
    nothing is written to the colour table.  The visit completes and the
    Part Record stored under the UID of the label has the default colour.
    When the label declares no sub-shape, the colour table at the end of
    the visit is the one it started with. *)
Theorem uncolored_simple_shape_gets_default
    (fuel : nat) st lab (loc : option Loc) fr (parent_uid : option string) :
  is_leaf st lab →
  last (_parent_uid_stack (self fr)) = Some parent_uid →
  let shape := GetShape st lab in
  let ct := color_tool (doc (self fr)) in
  let uid := uid_of lab (next_serial (_share_dict (self fr)) lab) in
  (∀ k, (k < 3)%nat → GetInstanceColor ct shape k = None) →
  (∀ k, (k < 3)%nat → GetColor ct lab k = None) →
  default_color =
    mkColor (QArith_base.Qmake 1 2) (QArith_base.Qmake 1 2) (QArith_base.Qmake 1 2) ∧
  ∃ fr_lbl fr',
    color_tool (doc (self fr_lbl)) = ct ∧
    resolve_shape_color shape lab fr_lbl = Ok (default_color, fr_lbl) ∧
    _get_sub_shapes (S fuel) st lab loc fr = Ok (tt, fr') ∧
    (∃ p, part_dict (self fr') !! uid = Some p ∧ p_color p = default_color) ∧
    (GetSubShapes st lab = [] → color_tool (doc (self fr')) = ct).
Proof.
  intros Hleaf Htop shape ct uid Hinst Hlab. split; [done|].
  rewrite (_get_sub_shapes_leaf _ _ _ _ _ _ Hleaf Htop).
  match goal with
  | |- context [visit_simple_shape ?st ?lab ?u ?e ?n ?p ?l ?f] =>
      destruct (visit_simple_shape_run st lab u e n p l f)
        as (c & fr_res & fr' & Hres & Hrun & Hpart & _ & _ & _ & _ & _ & _ & _ & Hsub)
  end.
  rewrite resolve_shape_color_default in Hres by by apply first_color_None.
  injection Hres as <- <-.
  eexists _, fr'. split_and!; [|by apply resolve_shape_color_default;
                                  apply first_color_None|exact Hrun| |].
  - done.
  - eexists. split.
    { rewrite Hpart. unfold uid. rewrite <-next_uid_fst. apply lookup_insert_eq. }
    reflexivity.
  - intros Hnil. by rewrite (Hsub Hnil).
Qed.

(** The label-colour branch of the block that resolves the colour of a
    sub-shape. *)
Lemma resolve_subshape_color_label shape shape_sub lab_subs fr c :
  first_color (GetInstanceColor (color_tool (doc (self fr))) shape_sub) = None →
  first_color (GetColor (color_tool (doc (self fr))) lab_subs) = Some c →
  resolve_subshape_color shape shape_sub lab_subs fr =
  Ok (c, with_self (λ dm,
        with_color_tool (set_all_scopes shape c (color_tool (doc dm))) dm) fr).
Proof.
  intros Hi Hl. unfold resolve_subshape_color, bind, get_color_tool. by rewrite Hi, Hl.
Qed.

(** C7.  The label colour of a sub-shape is written to the shape of the
    enclosing label.  The walker is on a simple shape [lab] that declares
    one sub-shape [lab_subs]; [shape] and [shape_sub] are their shapes.  In
    the colour table [ct] the visit starts with, neither [shape] nor [lab]
    has a colour, [shape_sub] has no instance colour and the label
    [lab_subs] has the colour [c].  The visit completes, and the colour
    table it leaves is [ct] after [SetInstanceColor(shape, n, c)] for [n] =
    0, 1, 2: the three calls of lines 375-377 are made on [shape], and no
    call is made on [shape_sub].  So an instance-colour query for the
    sub-shape still finds nothing, in every kernel where a write for one
    shape does not show in the answers for another. *)
Theorem sub_shape_label_color_written_to_enclosing_shape
    (fuel : nat) st lab lab_subs (loc : option Loc) fr (parent_uid : option string) c :
  is_leaf st lab →
  last (_parent_uid_stack (self fr)) = Some parent_uid →
  GetSubShapes st lab = [lab_subs] →
  let shape := GetShape st lab in
  let shape_sub := GetShape st lab_subs in
  let ct := color_tool (doc (self fr)) in
  (∀ k, (k < 3)%nat → GetInstanceColor ct shape k = None) →
  (∀ k, (k < 3)%nat → GetColor ct lab k = None) →
  (∀ k, (k < 3)%nat → GetInstanceColor ct shape_sub k = None) →
  first_color (GetColor ct lab_subs) = Some c →
  ∃ fr',
    _get_sub_shapes (S fuel) st lab loc fr = Ok (tt, fr') ∧
    color_tool (doc (self fr')) = set_all_scopes shape c ct ∧
    (unseen_by shape shape_sub →
     ∀ k, (k < 3)%nat →
          GetInstanceColor (color_tool (doc (self fr'))) shape_sub k = None).
Proof.
  intros Hleaf Htop Hsubs shape shape_sub ct Hshape Hlab Hsub Hc.
  rewrite (_get_sub_shapes_leaf _ _ _ _ _ _ Hleaf Htop), Hsubs.
  unfold visit_simple_shape, bind, set_label, get_locs.
  rewrite resolve_shape_color_default by (by apply first_color_None).
  match goal with
  | |- context [output_shapes_add ?s ?n ?c0 ?f] =>
      destruct (output_shapes_add_total s n c0 f) as (fr2 & -> & Hself2 & _)
  end.
  unfold set_part. cbn [for_each]. unfold bind, visit_sub_shape, bind.
  rewrite (resolve_subshape_color_label _ _ _ _ c);
    [|cbn; rewrite Hself2; cbn; by apply first_color_None
     |cbn; rewrite Hself2; cbn; done].
  match goal with
  | |- context [output_shapes_add ?s ?n ?c0 ?f] =>
      destruct (output_shapes_add_total s n c0 f) as (fr3 & -> & Hself3 & _)
  end.
  eexists. split; [reflexivity|].
  rewrite Hself3. cbn. rewrite Hself2. cbn.
  split; [done|].
  intros Hunseen k Hk. rewrite set_all_scopes_unseen by done. by apply Hsub.
Qed.

End Colours.

(** ** The walker and its relational reading *)

Section WalkerRuns.

Context {K : Kernel}.

Implicit Types (st : XCAFDoc_ShapeTool) (fr : Frame) (lab label : TDF_Label)
  (loc : option Loc).

Lemma bind_Ok {A B} (m : M A) (k : A → M B) fr b fr2 :
  bind m k fr = Ok (b, fr2) →
  ∃ a fr1, m fr = Ok (a, fr1) ∧ k a fr1 = Ok (b, fr2).
Proof.
  unfold bind. destruct (m fr) as [[a fr1]| |]; [|done..]. by exists a, fr1.
Qed.

Lemma _get_sub_shapes_unfold fuel st lab loc fr :
  _get_sub_shapes (S fuel) st lab loc fr =
  match last (_parent_uid_stack (self fr)) with
  | None => IndexError
  | Some parent_uid =>
      let uid := (next_uid lab (_share_dict (self fr))).1 in
      if IsAssembly st lab then
        visit_assembly (_get_sub_shapes fuel st) st lab uid lab
          (GetLabelName st lab) parent_uid (after_alloc lab fr)
      else if IsSimpleShape st lab then
        visit_simple_shape st lab uid lab (GetLabelName st lab) parent_uid
          (GetSubShapes st lab) (after_alloc lab fr)
      else Ok (tt, after_alloc lab fr)
  end.
Proof.
  cbn [_get_sub_shapes]. unfold TDF_Tool_Entry.
  unfold bind at 1. rewrite _get_uid_from_entry_run.
  unfold bind at 1, parent_uid_top.
  cbn [after_alloc self with_share_dict _parent_uid_stack].
  destruct (last (_parent_uid_stack (self fr))); [|done].
  by destruct (IsAssembly st lab), (IsSimpleShape st lab).
Qed.

Lemma visit_assembly_run recur st lab parent_uid fr :
  visit_assembly recur st lab (next_uid lab (_share_dict (self fr))).1 lab
    (GetLabelName st lab) parent_uid (after_alloc lab fr) =
  for_each (GetComponents st lab) (visit_component recur st)
    (enter_assembly st lab parent_uid fr).
Proof. done. Qed.

Lemma visit_component_skip recur st label fr :
  IsReference st label = false → visit_component recur st label fr = Ok (tt, fr).
Proof. intros Href. unfold visit_component. by rewrite Href. Qed.

Lemma visit_component_reference recur st label fr :
  IsReference st label = true →
  visit_component recur st label fr =
  bind (recur (GetReferredShape st label) (Some (GetLocation st label)))
       (λ _, leave_component) (enter_component st label fr).
Proof.
  intros Href. unfold visit_component. rewrite Href. unfold TDF_Tool_Entry.
  unfold bind at 1. rewrite _get_uid_from_entry_run. done.
Qed.

(** A completed call of the walker is a run. *)
Lemma _get_sub_shapes_runs fuel st lab loc fr fr' :
  _get_sub_shapes fuel st lab loc fr = Ok (tt, fr') → runs st (Visit lab) fr fr'.
Proof.
  revert lab loc fr fr'. induction fuel as [|fuel IH]; intros lab loc fr fr'; [done|].
  rewrite _get_sub_shapes_unfold.
  destruct (last (_parent_uid_stack (self fr))) as [parent_uid|] eqn:Htop; [|done].
  cbn zeta. destruct (IsAssembly st lab) eqn:Hassy.
  - rewrite visit_assembly_run. intros Hloop.
    eapply runs_assembly; [done..|].
    revert Hloop. generalize (enter_assembly st lab parent_uid fr).
    induction (GetComponents st lab) as [|label rest IHrest]; intros f Hloop.
    + cbn in Hloop. unfold ret in Hloop. injection Hloop as <-. constructor.
    + cbn [for_each] in Hloop. apply bind_Ok in Hloop as ([] & f1 & Hbody & Hrest).
      destruct (IsReference st label) eqn:Href.
      * rewrite visit_component_reference in Hbody by done.
        apply bind_Ok in Hbody as ([] & f2 & Hrec & Hleave).
        eapply runs_components_reference; eauto.
      * rewrite visit_component_skip in Hbody by done. injection Hbody as <-.
        eapply runs_components_skip; eauto.
  - destruct (IsSimpleShape st lab) eqn:Hsimple.
    + intros Hvisit. by eapply runs_simple_shape.
    + intros [= <-]. by eapply runs_other.
Qed.

Lemma _get_shapes_runs fuel st fr fr' :
  _get_shapes fuel st fr = Ok (tt, fr') → runs st (Roots (GetFreeShapes st)) fr fr'.
Proof.
  unfold _get_shapes. revert fr.
  induction (GetFreeShapes st) as [|root_item rest IH]; intros fr Hloop.
  - cbn in Hloop. unfold ret in Hloop. injection Hloop as <-. constructor.
  - cbn [for_each] in Hloop. apply bind_Ok in Hloop as ([] & fr1 & Hvisit & Hrest).
    eapply runs_roots_cons; eauto using _get_sub_shapes_runs.
Qed.

Lemma parse_doc_frame_runs fuel (dm : DocModel) fr' :
  parse_doc_frame fuel dm = Ok fr' →
  runs (shape_tool (doc dm)) (Roots (GetFreeShapes (shape_tool (doc dm))))
    (parse_doc_enter dm) fr'.
Proof.
  unfold parse_doc_frame.
  destruct (_get_shapes fuel _ _) as [[[] fr1]| |] eqn:Hrun; [|done..].
  intros [= <-]. by eapply _get_shapes_runs.
Qed.

(** *** What a run restores *)

Lemma leave_component_Ok fr1 fr2 :
  leave_component fr1 = Ok (tt, fr2) →
  locs fr1 ≠ [] ∧
  (∃ stk, trim_loop (length (_parent_uid_stack (self fr1))) (lvl fr1 + -1)
            (_parent_uid_stack (self fr1)) = Ok stk ∧
          fr2 = mkFrame (with_parent_uid_stack stk (self fr1)) (lvl fr1 + -1)
                  (output_shapes fr1) (removelast (locs fr1)) (uids fr1)
                  (component_uids fr1)).
Proof.
  unfold leave_component, bind, lvl_add, locs_pop, trim_parent_uid_stack.
  cbn [locs lvl self output_shapes uids].
  destruct (locs fr1) as [|l ls] eqn:Hlocs; [done|].
  cbn [locs lvl self output_shapes uids].
  destruct (trim_loop _ _ _) as [stk| |] eqn:Htrim; [|done..].
  intros [= <-]. split; [done|]. exists stk. split; [done|].
  unfold with_self. cbn. done.
Qed.

Lemma runs_restores st w fr fr' :
  runs st w fr fr' →
  lvl fr' = lvl fr ∧ locs fr' = locs fr ∧
  shape_tool (doc (self fr')) = shape_tool (doc (self fr)).
Proof.
  induction 1 as
    [lab fr parent_uid fr' Hleaf Htop Hvisit
    |lab fr parent_uid Hassy Hsimple Htop
    |lab fr parent_uid fr' Hassy Htop Hloop IH
    |fr
    |label rest fr fr' Href Hrest IH
    |label rest fr fr1 fr2 fr' Href Hvisit IH1 Hleave Hrest IH2
    |fr
    |root_item rest fr fr1 fr' Hvisit IH1 Hrest IH2].
  - destruct (visit_simple_shape_run st lab (next_uid lab (_share_dict (self fr))).1
                lab (GetLabelName st lab) parent_uid (GetSubShapes st lab)
                (after_alloc lab fr))
      as (c & fr_res & fr'' & _ & Hrun & _ & _ & Hst & _ & _ & Hlvl & Hlocs & _).
    rewrite Hvisit in Hrun. injection Hrun as <-. by split_and!.
  - done.
  - done.
  - done.
  - done.
  - destruct IH1 as (Hlvl1 & Hlocs1 & Hst1), IH2 as (Hlvl2 & Hlocs2 & Hst2).
    apply leave_component_Ok in Hleave as (_ & stk & _ & ->).
    cbn in Hlvl2, Hlocs2, Hst2. cbn in Hlvl1, Hlocs1, Hst1.
    rewrite Hlvl2, Hlocs2, Hst2, Hlvl1, Hlocs1, Hst1.
    split_and!; [lia| |done]. by rewrite removelast_last.
  - done.
  - destruct IH1 as (? & ? & ?), IH2 as (? & ? & ?). split_and!; congruence.
Qed.

(** *** Termination on acyclic documents *)

Lemma length_removelast {A} (l : list A) :
  length (removelast l) = pred (length l).
Proof. rewrite removelast_firstn_len, length_take. lia. Qed.

Lemma trim_loop_total (n : nat) (l : Z) (stk : list (option string)) :
  0 ≤ l → stk ≠ [] → (length stk ≤ n)%nat →
  ∃ stk', trim_loop n l stk = Ok stk' ∧ stk' ≠ [].
Proof.
  intros Hl. revert stk. induction n as [|n IH]; intros stk Hne Hlen.
  - destruct stk; [done|]. cbn in Hlen. lia.
  - cbn [trim_loop]. case_bool_decide as Hgt; [|by exists stk].
    apply IH.
    + destruct stk as [|a [|b stk]]; cbn in Hgt |- *; [lia..|done].
    + rewrite length_removelast. lia.
Qed.

Lemma for_each_total {A} (I : Frame → Prop) (l : list A) (body : A → M unit) :
  (∀ x fr, x ∈ l → I fr → ∃ fr', body x fr = Ok (tt, fr') ∧ I fr') →
  ∀ fr, I fr → ∃ fr', for_each l body fr = Ok (tt, fr') ∧ I fr'.
Proof.
  induction l as [|x l IH]; intros Hbody fr HI.
  - by exists fr.
  - cbn [for_each]. unfold bind.
    destruct (Hbody x fr) as (fr1 & -> & HI1); [by left|done|].
    apply IH; [|done]. intros y f Hy. apply Hbody. by right.
Qed.

Lemma _get_sub_shapes_total st (rank : TDF_Label → nat) :
  ranked st rank →
  ∀ fuel lab loc fr,
    (rank lab < fuel)%nat →
    _parent_uid_stack (self fr) ≠ [] →
    0 ≤ lvl fr →
    ∃ fr', _get_sub_shapes fuel st lab loc fr = Ok (tt, fr') ∧
           _parent_uid_stack (self fr') ≠ [].
Proof.
  intros Hranked. induction fuel as [|fuel IH]; intros lab loc fr Hrank Hstk Hlvl; [lia|].
  rewrite _get_sub_shapes_unfold.
  destruct (last (_parent_uid_stack (self fr))) as [parent_uid|] eqn:Htop.
  2:{ apply last_None in Htop. done. }
  cbn zeta. destruct (IsAssembly st lab) eqn:Hassy.
  - rewrite visit_assembly_run.
    destruct (for_each_total
                (λ f, _parent_uid_stack (self f) ≠ [] ∧ lvl f = lvl fr)
                (GetComponents st lab)
                (visit_component (_get_sub_shapes fuel st) st)) with
      (fr := enter_assembly st lab parent_uid fr) as (fr' & Hrun & Hne & _).
    + intros label f Hin [Hne Hl].
      destruct (IsReference st label) eqn:Href.
      2:{ rewrite visit_component_skip by done. by exists f. }
      rewrite visit_component_reference by done. unfold bind.
      destruct (IH (GetReferredShape st label) (Some (GetLocation st label))
                  (enter_component st label f)) as (f1 & Hrec & Hne1).
      { specialize (Hranked lab label Hassy Hin Href). lia. }
      { done. }
      { cbn. lia. }
      rewrite Hrec.
      apply _get_sub_shapes_runs, runs_restores in Hrec as (Hl1 & Hlocs1 & _).
      cbn in Hl1, Hlocs1.
      unfold leave_component, bind, lvl_add, locs_pop, trim_parent_uid_stack.
      cbn [locs lvl self output_shapes uids]. rewrite Hlocs1.
      destruct (locs f ++ [GetLocation st label]) as [|l0 ls] eqn:Happ.
      { by destruct (locs f). }
      cbn [locs lvl self output_shapes uids].
      destruct (trim_loop_total (length (_parent_uid_stack (self f1)))
                  (lvl f1 + -1) (_parent_uid_stack (self f1)))
        as (stk & -> & Hstk'); [lia|done|done|].
      eexists. split; [done|]. cbn. split; [done|lia].
    + split; [|done]. cbn. by destruct (_parent_uid_stack (self fr)).
    + by exists fr'.
  - destruct (IsSimpleShape st lab) eqn:Hsimple.
    + destruct (visit_simple_shape_run st lab (next_uid lab (_share_dict (self fr))).1
                  lab (GetLabelName st lab) parent_uid (GetSubShapes st lab)
                  (after_alloc lab fr))
        as (c & fr_res & fr' & _ & Hrun & _ & _ & _ & _ & Hstk' & _).
      exists fr'. split; [done|]. by rewrite Hstk'.
    + by eexists.
Qed.

(** *** The trace of UIDs and the keys of the tables *)

Lemma grows_refl fr : trace_ok fr → grows fr fr.
Proof. intros Hok. by split_and!. Qed.

Lemma grows_trans fr0 fr1 fr2 : grows fr0 fr1 → grows fr1 fr2 → grows fr0 fr2.
Proof.
  intros (Hok1 & Hpre1 & Hsame1) (Hok2 & Hpre2 & Hsame2).
  split_and!; [done|by etrans|].
  intros u Hu.
  assert (u ∈ uids fr1 ∨ u ∉ uids fr2) as H2.
  { destruct Hu as [Hu|Hu]; [left|by right].
    destruct Hpre1 as [k ->]. apply elem_of_app. by left. }
  assert (u ∈ uids fr0 ∨ u ∉ uids fr1) as H1.
  { destruct Hu as [Hu|Hu]; [by left|right].
    intros Hin. apply Hu. destruct Hpre2 as [k ->]. apply elem_of_app. by left. }
  destruct (Hsame1 u H1) as [<- <-]. by apply Hsame2.
Qed.

(** Steps that leave the trace, the backing map and both tables alone. *)
Lemma grows_same fr fr' :
  trace_ok fr →
  uids fr' = uids fr →
  _share_dict (self fr') = _share_dict (self fr) →
  label_dict (self fr') = label_dict (self fr) →
  part_dict (self fr') = part_dict (self fr) →
  grows fr fr'.
Proof.
  intros [Hnd Hacc] Hu Hsd Hl Hp. unfold grows, trace_ok.
  rewrite Hu, Hsd, Hl, Hp. by split_and!.
Qed.

Lemma trace_ok_after_alloc entry fr :
  trace_ok fr →
  trace_ok (after_alloc entry fr) ∧
  (next_uid entry (_share_dict (self fr))).1 ∉ uids fr.
Proof.
  intros [Hnd Hacc].
  pose proof (next_uid_fresh _ _ entry Hacc) as Hfresh.
  split; [|done]. split; cbn.
  - apply NoDup_app. split_and!; [done| |apply NoDup_singleton].
    intros x Hx Hx'. by apply list_elem_of_singleton in Hx' as ->.
  - by apply next_uid_accounted.
Qed.

Lemma grows_after_alloc entry fr : trace_ok fr → grows fr (after_alloc entry fr).
Proof.
  intros Hok. destruct (trace_ok_after_alloc entry fr Hok) as [Hok' _].
  split_and!; [done|by eexists|done].
Qed.

(** A step that, after an allocation, stores records under the new UID
    only. *)
Lemma grows_store_new entry fr fr' :
  trace_ok fr →
  uids fr' = uids (after_alloc entry fr) →
  _share_dict (self fr') = _share_dict (self (after_alloc entry fr)) →
  (∀ u, u ≠ (next_uid entry (_share_dict (self fr))).1 →
        label_dict (self fr') !! u = label_dict (self fr) !! u ∧
        part_dict (self fr') !! u = part_dict (self fr) !! u) →
  grows fr fr'.
Proof.
  intros Hok Hu Hsd Hother.
  destruct (trace_ok_after_alloc entry fr Hok) as [[Hnd Hacc] Hfresh].
  unfold grows, trace_ok. rewrite Hu, Hsd. split_and!; [done..|by eexists|].
  intros u [Hin|Hnin]; apply Hother; intros ->; [done|].
  apply Hnin. cbn. apply elem_of_app. right. by left.
Qed.

Lemma grows_enter_assembly st lab parent_uid fr :
  trace_ok fr → grows fr (enter_assembly st lab parent_uid fr).
Proof.
  intros Hok. apply (grows_store_new lab); [done..|].
  intros u Hne. cbn. by rewrite lookup_insert_ne.
Qed.

Lemma grows_enter_component st label fr :
  trace_ok fr → grows fr (enter_component st label fr).
Proof.
  intros Hok. by apply (grows_store_new label).
Qed.

Lemma grows_leave_component fr1 fr2 :
  trace_ok fr1 → leave_component fr1 = Ok (tt, fr2) → grows fr1 fr2.
Proof.
  intros Hok (_ & stk & _ & ->)%leave_component_Ok. by apply grows_same.
Qed.

Lemma runs_grows st w fr fr' : runs st w fr fr' → trace_ok fr → grows fr fr'.
Proof.
  induction 1 as
    [lab fr parent_uid fr' Hleaf Htop Hvisit
    |lab fr parent_uid Hassy Hsimple Htop
    |lab fr parent_uid fr' Hassy Htop Hloop IH
    |fr
    |label rest fr fr' Href Hrest IH
    |label rest fr fr1 fr2 fr' Href Hvisit IH1 Hleave Hrest IH2
    |fr
    |root_item rest fr fr1 fr' Hvisit IH1 Hrest IH2]; intros Hok.
  - destruct (visit_simple_shape_run st lab (next_uid lab (_share_dict (self fr))).1
                lab (GetLabelName st lab) parent_uid (GetSubShapes st lab)
                (after_alloc lab fr))
      as (c & fr_res & fr'' & _ & Hrun & Hpart & Hlabel & _ & Hsd & _ & _ & _ & Hu & _).
    rewrite Hvisit in Hrun. injection Hrun as <-.
    apply (grows_store_new lab); [done..|].
    intros u Hne. rewrite Hpart, Hlabel. by rewrite !lookup_insert_ne.
  - by apply grows_after_alloc.
  - pose proof (grows_enter_assembly st lab parent_uid fr Hok) as Hin.
    eapply grows_trans; [done|]. apply IH. by destruct Hin.
  - by apply grows_refl.
  - by apply IH.
  - pose proof (grows_enter_component st label fr Hok) as H0.
    pose proof (IH1 (proj1 H0)) as H1.
    pose proof (grows_leave_component _ _ (proj1 H1) Hleave) as H2.
    pose proof (IH2 (proj1 H2)) as H3.
    eauto using grows_trans.
  - by apply grows_refl.
  - pose proof (IH1 Hok) as H1. pose proof (IH2 (proj1 H1)) as H2.
    eauto using grows_trans.
Qed.

(** *** The whole walk of [parse_doc] *)

Lemma trace_ok_parse_doc_enter (dm : DocModel) : trace_ok (parse_doc_enter dm).
Proof. split; [apply NoDup_nil_2|apply accounted_nil]. Qed.

Lemma parse_doc_frame_total (fuel : nat) (dm : DocModel) (rank : TDF_Label → nat) :
  ranked (shape_tool (doc dm)) rank →
  (∀ root_item, root_item ∈ GetFreeShapes (shape_tool (doc dm)) →
                (rank root_item < fuel)%nat) →
  _parent_uid_stack dm ≠ [] →
  ∃ fr', parse_doc_frame fuel dm = Ok fr'.
Proof.
  intros Hranked Hfuel Hstk. unfold parse_doc_frame, _get_shapes.
  destruct (for_each_total
              (λ f, _parent_uid_stack (self f) ≠ [] ∧ lvl f = 0)
              (GetFreeShapes (shape_tool (doc dm)))
              (λ root_item, _get_sub_shapes fuel (shape_tool (doc dm)) root_item None))
    with (fr := parse_doc_enter dm) as (fr' & -> & _).
  - intros root_item f Hin [Hne Hl].
    destruct (_get_sub_shapes_total _ rank Hranked fuel root_item None f)
      as (f' & Hrun & Hne'); [by apply Hfuel|done|lia|].
    exists f'. split_and!; [done..|].
    apply _get_sub_shapes_runs, runs_restores in Hrun as (-> & _). done.
  - done.
  - by eexists.
Qed.

(** *** How a walk sorts its UIDs *)

Lemma sorts_same st P fr fr' :
  component_uids fr `sublist_of` uids fr →
  uids fr' = uids fr →
  component_uids fr' = component_uids fr →
  sorts st P fr fr'.
Proof.
  intros Hsub Hu Hc. unfold sorts. rewrite Hu, Hc.
  split_and!; [done|done|done|done..].
Qed.

Lemma sorts_weaken st (P Q : TDF_Label → Prop) fr fr' :
  (∀ lab, P lab → Q lab) → sorts st P fr fr' → sorts st Q fr fr'.
Proof.
  intros HPQ (Hpre & Hsub & Hnew & Hcomp & Hother).
  split_and!; [done..|].
  intros u Hin Hold Hnc.
  destruct (Hother u Hin Hold Hnc) as (lab & n & -> & HP & Hrec).
  exists lab, n. split_and!; [done|by apply HPQ|done].
Qed.

Lemma sorts_trans st (P : TDF_Label → Prop) fr0 fr1 fr2 :
  grows fr0 fr1 → grows fr1 fr2 →
  sorts st P fr0 fr1 → sorts st P fr1 fr2 → sorts st P fr0 fr2.
Proof.
  intros (_ & Hpre1 & Hsame1) (_ & Hpre2 & Hsame2)
    (Hcp1 & Hsub1 & Hnew1 & Hcomp1 & Hother1)
    (Hcp2 & Hsub2 & Hnew2 & Hcomp2 & Hother2).
  assert (∀ u, u ∈ uids fr0 → u ∈ uids fr1) as Hmono1.
  { intros u Hu. destruct Hpre1 as [k ->]. apply elem_of_app. by left. }
  assert (∀ u, u ∈ component_uids fr1 → u ∈ component_uids fr2) as Hcmono2.
  { intros u Hu. destruct Hcp2 as [k ->]. apply elem_of_app. by left. }
  split_and!.
  - by etrans.
  - done.
  - intros u Hin Hold.
    destruct (decide (u ∈ component_uids fr1)) as [Hin1|Hnin1]; [by apply Hnew1|].
    intros Hu0. by apply (Hnew2 u Hin Hnin1), Hmono1.
  - intros u Hin Hold Hc.
    destruct (decide (u ∈ uids fr1)) as [Hin1|Hnin1].
    + assert (u ∈ component_uids fr1) as Hc1.
      { destruct (decide (u ∈ component_uids fr1)) as [|Hnc1]; [done|].
        by destruct (Hnew2 u Hc Hnc1). }
      destruct (Hsame2 u (or_introl Hin1)) as [-> _]. by apply Hcomp1.
    + rewrite (Hcomp2 u Hin Hnin1 Hc).
      by destruct (Hsame1 u (or_intror Hnin1)) as [-> _].
  - intros u Hin Hold Hnc.
    destruct (decide (u ∈ uids fr1)) as [Hin1|Hnin1].
    + destruct (Hother1 u Hin1 Hold) as (lab & n & -> & HP & Hrec).
      { intros Hc1. by apply Hnc, Hcmono2. }
      exists lab, n. split_and!; [done..|].
      destruct (Hsame2 _ (or_introl Hin1)) as [-> _]. done.
    + destruct (Hother2 u Hin Hnin1 Hnc) as (lab & n & -> & HP & Hrec).
      exists lab, n. split_and!; [done..|].
      destruct (IsAssembly st lab || IsSimpleShape st lab); [done|].
      rewrite Hrec. by destruct (Hsame1 _ (or_intror Hnin1)) as [-> _].
Qed.

(** The UID returned on entering [_get_sub_shapes] for [lab], once the
    branch taken has stored its Label Record, if it stores one. *)
Lemma sorts_visit st (P : TDF_Label → Prop) lab fr fr' :
  P lab →
  component_uids fr `sublist_of` uids fr →
  uids fr' = uids (after_alloc lab fr) →
  component_uids fr' = component_uids fr →
  (if IsAssembly st lab || IsSimpleShape st lab
   then ∃ r, label_dict (self fr') !! (next_uid lab (_share_dict (self fr))).1 = Some r ∧
             l_entry r = lab
   else label_dict (self fr') = label_dict (self fr)) →
  sorts st P fr fr'.
Proof.
  intros HP Hsub Hu Hc Hrec. unfold sorts. rewrite Hu, Hc. cbn [after_alloc uids].
  split_and!; [done|by apply sublist_inserts_r|done| |].
  { intros u _ Hold Hin. by apply (elem_of_sublist _ _ _ Hin) in Hsub. }
  intros u [Hin|Hin%list_elem_of_singleton]%elem_of_app Hold Hnc; [done|].
  subst u. rewrite next_uid_fst. eexists lab, _. split_and!; [done..|].
  rewrite next_uid_fst in Hrec.
  destruct (IsAssembly st lab || IsSimpleShape st lab); [done|by rewrite Hrec].
Qed.

Lemma resolve_shape_color_component_uids shape lab fr c fr' :
  resolve_shape_color shape lab fr = Ok (c, fr') →
  component_uids fr' = component_uids fr.
Proof.
  unfold resolve_shape_color, bind, get_color_tool.
  destruct (first_color (GetInstanceColor _ shape)); [by intros [= _ <-]|].
  destruct (first_color (GetColor _ lab)); by intros [= _ <-].
Qed.

Lemma resolve_subshape_color_component_uids shape shape_sub lab fr c fr' :
  resolve_subshape_color shape shape_sub lab fr = Ok (c, fr') →
  component_uids fr' = component_uids fr.
Proof.
  unfold resolve_subshape_color, bind, get_color_tool.
  destruct (first_color (GetInstanceColor _ shape_sub)); [by intros [= _ <-]|].
  destruct (first_color (GetColor _ lab)); by intros [= _ <-].
Qed.

Lemma output_shapes_add_component_uids shape name c fr fr' :
  output_shapes_add shape name c fr = Ok (tt, fr') →
  component_uids fr' = component_uids fr.
Proof. unfold output_shapes_add. case_decide; by intros [= <-]. Qed.

Lemma for_each_sub_shapes_component_uids st shape (loc : Loc) l_subss fr fr' :
  for_each l_subss (visit_sub_shape st shape loc) fr = Ok (tt, fr') →
  component_uids fr' = component_uids fr.
Proof.
  revert fr. induction l_subss as [|lab_subs rest IH]; intros fr.
  - by intros [= <-].
  - cbn [for_each]. intros ([] & fr1 & Hbody & Hrest)%bind_Ok.
    unfold visit_sub_shape in Hbody.
    apply bind_Ok in Hbody as (c & fr0 & Hres & Hadd).
    apply resolve_subshape_color_component_uids in Hres.
    apply output_shapes_add_component_uids in Hadd.
    rewrite (IH _ Hrest). congruence.
Qed.

Lemma visit_simple_shape_component_uids
    st lab uid text_entry name parent_uid l_subss fr fr' :
  visit_simple_shape st lab uid text_entry name parent_uid l_subss fr = Ok (tt, fr') →
  component_uids fr' = component_uids fr.
Proof.
  unfold visit_simple_shape.
  intros ([] & fr1 & [= <-] & Hrest)%bind_Ok.
  apply bind_Ok in Hrest as (ls & fr2 & [= <- <-] & Hrest).
  apply bind_Ok in Hrest as (c & fr3 & Hres & Hrest).
  apply bind_Ok in Hrest as ([] & fr4 & Hadd & Hrest).
  apply bind_Ok in Hrest as ([] & fr5 & [= <-] & Hloop).
  apply resolve_shape_color_component_uids in Hres.
  apply output_shapes_add_component_uids in Hadd.
  apply for_each_sub_shapes_component_uids in Hloop.
  cbn in Hres, Hloop. congruence.
Qed.

Lemma runs_sorts st w fr fr' :
  runs st w fr fr' → trace_ok fr → component_uids fr `sublist_of` uids fr →
  sorts st (reaches st w) fr fr'.
Proof.
  induction 1 as
    [lab fr parent_uid fr' Hleaf Htop Hvisit
    |lab fr parent_uid Hassy Hsimple Htop
    |lab fr parent_uid fr' Hassy Htop Hloop IH
    |fr
    |label rest fr fr' Href Hrest IH
    |label rest fr fr1 fr2 fr' Href Hvisit IH1 Hleave Hrest IH2
    |fr
    |root_item rest fr fr1 fr' Hvisit IH1 Hrest IH2]; intros Hok Hsub.
  - destruct (visit_simple_shape_run st lab (next_uid lab (_share_dict (self fr))).1
                lab (GetLabelName st lab) parent_uid (GetSubShapes st lab)
                (after_alloc lab fr))
      as (c & fr_res & fr'' & _ & Hrun & _ & Hlabel & _ & _ & _ & _ & _ & Hu & _).
    rewrite Hvisit in Hrun. injection Hrun as <-.
    apply visit_simple_shape_component_uids in Hvisit.
    apply (sorts_visit st _ lab); [by exists []; apply descent_here|done..|].
    destruct Hleaf as [-> ->]. cbn [orb].
    eexists. split; [rewrite Hlabel; apply lookup_insert_eq|done].
  - apply (sorts_visit st _ lab); [by exists []; apply descent_here|done..|].
    by rewrite Hassy, Hsimple.
  - pose proof (grows_enter_assembly st lab parent_uid fr Hok) as Hg.
    pose proof (runs_grows _ _ _ _ Hloop (proj1 Hg)) as Hg'.
    assert (sorts st (reaches st (Visit lab)) fr (enter_assembly st lab parent_uid fr))
      as Hs.
    { apply (sorts_visit st _ lab); [by exists []; apply descent_here|done..|].
      rewrite Hassy. cbn [orb]. eexists. split; [apply lookup_insert_eq|done]. }
    eapply sorts_trans; [exact Hg|exact Hg'|exact Hs|].
    eapply sorts_weaken; [|apply IH; [by destruct Hg|by destruct Hs as (_ & ? & _)]].
    intros target (label & refs & Hin & Href & Hdesc).
    exists (label :: refs). by apply descent_step.
  - by apply sorts_same.
  - eapply sorts_weaken; [|by apply IH].
    intros target (l & refs & Hin & Hl & Hdesc).
    exists l, refs. split_and!; [by right|done..].
  - pose proof (grows_enter_component st label fr Hok) as H0.
    pose proof (runs_grows _ _ _ _ Hvisit (proj1 H0)) as H1.
    pose proof (grows_leave_component _ _ (proj1 H1) Hleave) as H2.
    pose proof (runs_grows _ _ _ _ Hrest (proj1 H2)) as H3.
    destruct (trace_ok_after_alloc label fr Hok) as [_ Hfresh].
    set (P := reaches st (Components (label :: rest))).
    assert (sorts st P fr (enter_component st label fr)) as Hs0.
    { split_and!; cbn.
      - by apply prefix_app_r.
      - by apply sublist_app.
      - intros u [Hin|Hin%list_elem_of_singleton]%elem_of_app Hold; [done|by subst u].
      - done.
      - intros u [Hin|Hin%list_elem_of_singleton]%elem_of_app Hold Hnc; [done|].
        subst u. exfalso. apply Hnc, elem_of_app. right. by left. }
    assert (sorts st P (enter_component st label fr) fr1) as Hs1.
    { eapply sorts_weaken; [|apply IH1; [by destruct H0|by destruct Hs0 as (_ & ? & _)]].
      intros target [refs Hdesc]. exists label, refs. split_and!; [by left|done..]. }
    assert (sorts st P fr1 fr2) as Hs2.
    { apply leave_component_Ok in Hleave as (_ & stk & _ & ->).
      apply sorts_same; [by destruct Hs1 as (_ & ? & _)|done..]. }
    assert (sorts st P fr2 fr') as Hs3.
    { eapply sorts_weaken; [|apply IH2; [by destruct H2|by destruct Hs2 as (_ & ? & _)]].
      intros target (l & refs & Hin & Hl & Hdesc).
      exists l, refs. split_and!; [by right|done..]. }
    apply (sorts_trans st P fr (enter_component st label fr) fr');
      [exact H0|eauto using grows_trans|exact Hs0|].
    apply (sorts_trans st P _ fr1 fr'); [exact H1|eauto using grows_trans|exact Hs1|].
    by apply (sorts_trans st P _ fr2 fr').
  - by apply sorts_same.
  - pose proof (runs_grows _ _ _ _ Hvisit Hok) as H1.
    pose proof (runs_grows _ _ _ _ Hrest (proj1 H1)) as H2.
    set (P := reaches st (Roots (root_item :: rest))).
    assert (sorts st P fr fr1) as Hs1.
    { eapply sorts_weaken; [|by apply IH1].
      intros target [refs Hdesc]. exists root_item, refs. split; [by left|done]. }
    assert (sorts st P fr1 fr') as Hs2.
    { eapply sorts_weaken; [|apply IH2; [by destruct H1|by destruct Hs1 as (_ & ? & _)]].
      intros target (r & refs & Hin & Hdesc). exists r, refs. split; [by right|done]. }
    by eapply sorts_trans.
Qed.

(** C5, as the code has it.  On an acyclic document, a walk that starts
    with an empty Label Table completes, and the UIDs the allocator
    returned during the walk are pairwise distinct.  They are of two
    sorts.
    - The UIDs allocated for the reference components (line 202), noted
      in [component_uids]: none of them keys a Label Record.
    - The UIDs allocated on entering [_get_sub_shapes] (line 151) for a
      label [lab] that the walker reaches from a free shape: such a UID
      keys a Label Record whose entry is [lab] if [lab] is an assembly or
      a simple shape, and keys none if it is neither.
    Every key of the Label Table is one of the UIDs returned.  So the
    number of Label Records and the number of reference components
    followed add up to at most the number of UIDs returned, and to
    exactly that number when every label the walker reaches is an
    assembly or a simple shape. *)
Theorem walk_uids_distinct_label_keys_among_them
    (fuel : nat) (dm : DocModel) (rank : TDF_Label → nat) :
  let st := shape_tool (doc dm) in
  ranked st rank →
  (∀ root_item, root_item ∈ GetFreeShapes st → (rank root_item < fuel)%nat) →
  _parent_uid_stack dm ≠ [] →
  label_dict dm = ∅ →
  ∃ fr', parse_doc_frame fuel dm = Ok fr' ∧
    NoDup (uids fr') ∧
    (∀ uid, uid ∈ dom (label_dict (self fr')) → uid ∈ uids fr') ∧
    component_uids fr' `sublist_of` uids fr' ∧
    (∀ uid, uid ∈ component_uids fr' → label_dict (self fr') !! uid = None) ∧
    (∀ uid, uid ∈ uids fr' → uid ∉ component_uids fr' →
       ∃ lab n root_item refs,
         uid = uid_of lab n ∧
         root_item ∈ GetFreeShapes st ∧ descent st root_item refs lab ∧
         if IsAssembly st lab || IsSimpleShape st lab
         then ∃ r, label_dict (self fr') !! uid = Some r ∧ l_entry r = lab
         else label_dict (self fr') !! uid = None) ∧
    (size (label_dict (self fr')) + length (component_uids fr')
       ≤ length (uids fr'))%nat ∧
    ((∀ root_item refs lab,
        root_item ∈ GetFreeShapes st → descent st root_item refs lab →
        IsAssembly st lab = true ∨ IsSimpleShape st lab = true) →
     (size (label_dict (self fr')) + length (component_uids fr')
        = length (uids fr'))%nat).
Proof.
  intros st Hranked Hfuel Hstk Hempty. subst st.
  destruct (parse_doc_frame_total fuel dm rank) as (fr' & Hrun); [done..|].
  exists fr'. split; [done|].
  pose proof (parse_doc_frame_runs _ _ _ Hrun) as Hruns.
  pose proof (runs_grows _ _ _ _ Hruns (trace_ok_parse_doc_enter dm))
    as ([Hnd _] & _ & Hsame).
  destruct (runs_sorts _ _ _ _ Hruns (trace_ok_parse_doc_enter dm))
    as (_ & Hsub & _ & Hcomp & Hother); [apply sublist_nil|].
  assert (∀ uid, uid ∈ dom (label_dict (self fr')) → uid ∈ uids fr') as Hkeys.
  { intros uid [r Hr]%elem_of_dom.
    destruct (decide (uid ∈ uids fr')) as [|Hnin]; [done|].
    destruct (Hsame uid (or_intror Hnin)) as [Hl _].
    cbn in Hl. rewrite Hempty, lookup_empty in Hl. congruence. }
  assert (∀ uid, uid ∈ component_uids fr' → label_dict (self fr') !! uid = None)
    as Hnone.
  { intros uid Hin. rewrite Hcomp; [|by eapply elem_of_sublist|by apply not_elem_of_nil|done].
    cbn. by rewrite Hempty. }
  assert (∀ uid, uid ∈ uids fr' → uid ∉ component_uids fr' →
       ∃ lab n root_item refs,
         uid = uid_of lab n ∧
         root_item ∈ GetFreeShapes (shape_tool (doc dm)) ∧
         descent (shape_tool (doc dm)) root_item refs lab ∧
         if IsAssembly (shape_tool (doc dm)) lab || IsSimpleShape (shape_tool (doc dm)) lab
         then ∃ r, label_dict (self fr') !! uid = Some r ∧ l_entry r = lab
         else label_dict (self fr') !! uid = None) as Hsorted.
  { intros uid Hin Hnc.
    destruct (Hother uid Hin) as (lab & n & -> & (root_item & refs & Hroot & Hdesc) & Hrec);
      [by apply not_elem_of_nil|done|].
    exists lab, n, root_item, refs. split_and!; [done..|].
    destruct (IsAssembly _ lab || IsSimpleShape _ lab); [done|].
    rewrite Hrec. cbn. by rewrite Hempty. }
  pose proof (sublist_NoDup _ _ Hnd Hsub) as Hndc.
  assert (dom (label_dict (self fr')) ## (list_to_set (component_uids fr') : gset string))
    as Hdisj.
  { intros uid [r Hr]%elem_of_dom Hin%elem_of_list_to_set.
    rewrite (Hnone uid Hin) in Hr. done. }
  split_and!; [done..| |].
  - rewrite <-size_dom, <-(size_list_to_set (C := gset string) (component_uids fr')),
      <-size_union, <-(size_list_to_set (C := gset string) (uids fr')) by done.
    apply subseteq_size. intros uid [Hin|Hin%elem_of_list_to_set]%elem_of_union;
      apply elem_of_list_to_set; [by apply Hkeys|by eapply elem_of_sublist].
  - intros Hkinds.
    rewrite <-size_dom, <-(size_list_to_set (C := gset string) (component_uids fr')),
      <-size_union, <-(size_list_to_set (C := gset string) (uids fr')) by done.
    f_equal. apply set_eq. intros uid. rewrite elem_of_union, !elem_of_list_to_set.
    split.
    + intros [Hin|Hin]; [by apply Hkeys|by eapply elem_of_sublist].
    + intros Hin. destruct (decide (uid ∈ component_uids fr')) as [|Hnc]; [by right|].
      left. destruct (Hsorted uid Hin Hnc)
        as (lab & n & root_item & refs & -> & Hroot & Hdesc & Hrec).
      destruct (Hkinds root_item refs lab Hroot Hdesc) as [Hk|Hk];
        rewrite Hk in Hrec; [|rewrite orb_true_r in Hrec];
        destruct Hrec as (r & Hr & _); by apply elem_of_dom.
Qed.

(** *** Part Records and the paths of the walk *)

Lemma from_path_step st a label base p :
  IsAssembly st a = true → label ∈ GetComponents st a →
  IsReference st label = true →
  from_path st (GetReferredShape st label) (base ++ [GetLocation st label]) p →
  from_path st a base p.
Proof.
  intros Hassy Hin Href (refs & leaf & Hdesc & Hleaf & Hshape & Hname).
  exists (label :: refs), leaf. split_and!; [by eapply descent_step|done|].
  split; [|done]. rewrite Hshape. cbn [map]. by rewrite <-app_assoc.
Qed.

Lemma runs_records_sound st w fr fr' : runs st w fr fr' → records_sound st w fr fr'.
Proof.
  induction 1 as
    [lab fr parent_uid fr' Hleaf Htop Hvisit
    |lab fr parent_uid Hassy Hsimple Htop
    |lab fr parent_uid fr' Hassy Htop Hloop IH
    |fr
    |label rest fr fr' Href Hrest IH
    |label rest fr fr1 fr2 fr' Href Hvisit IH1 Hleave Hrest IH2
    |fr
    |root_item rest fr fr1 fr' Hvisit IH1 Hrest IH2]; intros uid p Hp.
  - destruct (visit_simple_shape_run st lab (next_uid lab (_share_dict (self fr))).1
                lab (GetLabelName st lab) parent_uid (GetSubShapes st lab)
                (after_alloc lab fr))
      as (c & fr_res & fr'' & _ & Hrun & Hpart & _).
    rewrite Hvisit in Hrun. injection Hrun as <-. rewrite Hpart in Hp.
    destruct (decide (uid = (next_uid lab (_share_dict (self fr))).1)) as [->|Hne].
    + rewrite lookup_insert_eq in Hp. injection Hp as <-. right.
      exists [], lab. split_and!; [constructor|done|].
      split; [|done]. cbn. by rewrite app_nil_r.
    + rewrite lookup_insert_ne in Hp by done. by left.
  - by left.
  - destruct (IH uid p Hp) as [Hold|(label & Hin & Href & Hpath)]; [by left|].
    right. by eapply from_path_step.
  - by left.
  - destruct (IH uid p Hp) as [Hold|(l & Hin & Href' & Hpath)]; [by left|].
    right. exists l. split_and!; [by right|done..].
  - apply runs_restores in Hvisit as (_ & Hlocs1 & _).
    apply leave_component_Ok in Hleave as (_ & stk & _ & ->).
    destruct (IH2 uid p Hp) as [Hold|(l & Hin & Href' & Hpath)].
    + cbn in Hold. destruct (IH1 uid p Hold) as [Hold'|Hpath]; [by left|].
      right. exists label. split_and!; [by left|done|done].
    + right. exists l. split_and!; [by right|done|].
      cbn in Hpath. rewrite Hlocs1 in Hpath. cbn in Hpath.
      by rewrite removelast_last in Hpath.
  - by left.
  - apply runs_restores in Hvisit as (_ & Hlocs1 & _).
    destruct (IH2 uid p Hp) as [Hold|(r & Hin & Hpath)].
    + destruct (IH1 uid p Hold) as [Hold'|Hpath]; [by left|].
      right. exists root_item. split; [by left|done].
    + right. exists r. split; [by right|]. by rewrite <-Hlocs1.
Qed.

(** A record stored during a first stretch is still there after a second. *)
Lemma record_stored_later st fr0 fr1 fr2 base refs leaf :
  grows fr0 fr1 → grows fr1 fr2 →
  record_stored st fr0 fr1 base refs leaf →
  record_stored st fr0 fr2 base refs leaf.
Proof.
  intros _ (_ & [k Hk] & Hsame) (uid & p & Hin & Hnin & Hp & Hplaced).
  exists uid, p. split_and!; [|done| |done].
  - rewrite Hk. apply elem_of_app. by left.
  - destruct (Hsame uid (or_introl Hin)) as [_ ->]. done.
Qed.

(** A record stored during a second stretch was not there after the first. *)
Lemma record_stored_earlier st fr0 fr1 fr2 base refs leaf :
  grows fr0 fr1 →
  record_stored st fr1 fr2 base refs leaf →
  record_stored st fr0 fr2 base refs leaf.
Proof.
  intros (_ & [k Hk] & _) (uid & p & Hin & Hnin & Hp & Hplaced).
  exists uid, p. split_and!; [done| |done..].
  intros Hin0. apply Hnin. rewrite Hk. apply elem_of_app. by left.
Qed.

Lemma runs_records_complete st w fr fr' :
  runs st w fr fr' → trace_ok fr → records_complete st w fr fr'.
Proof.
  induction 1 as
    [lab fr parent_uid fr' Hleaf Htop Hvisit
    |lab fr parent_uid Hassy Hsimple Htop
    |lab fr parent_uid fr' Hassy Htop Hloop IH
    |fr
    |label rest fr fr' Href Hrest IH
    |label rest fr fr1 fr2 fr' Href Hvisit IH1 Hleave Hrest IH2
    |fr
    |root_item rest fr fr1 fr' Hvisit IH1 Hrest IH2]; intros Hok; cbn [records_complete].
  - intros refs leaf Hdesc _.
    destruct Hleaf as [Hassy Hsimple].
    inversion Hdesc as [|? ? ? ? Hassy']; subst; [|congruence].
    destruct (visit_simple_shape_run st leaf (next_uid leaf (_share_dict (self fr))).1
                leaf (GetLabelName st leaf) parent_uid (GetSubShapes st leaf)
                (after_alloc leaf fr))
      as (c & fr_res & fr'' & _ & Hrun & Hpart & _ & _ & _ & _ & _ & _ & Hu & _).
    rewrite Hvisit in Hrun. injection Hrun as <-.
    destruct (trace_ok_after_alloc leaf fr Hok) as [_ Hfresh].
    eexists _, _. split_and!; [| exact Hfresh | |].
    + rewrite Hu. cbn. apply elem_of_app. right. by left.
    + rewrite Hpart. apply lookup_insert_eq.
    + split; [|done]. cbn. by rewrite app_nil_r.
  - intros refs leaf Hdesc [Hassy' Hsimple'].
    inversion Hdesc; subst; congruence.
  - intros refs leaf Hdesc [Hassy' Hsimple'].
    inversion Hdesc as [|? label refs' ? _ Hin Href Hdesc']; subst; [congruence|].
    pose proof (grows_enter_assembly st lab parent_uid fr Hok) as Hg.
    eapply record_stored_earlier; [exact Hg|].
    destruct (IH (proj1 Hg) label refs' leaf Hin Href Hdesc' (conj Hassy' Hsimple'))
      as (uid & p & ? & ? & ? & Hshape & Hname).
    exists uid, p. split_and!; [done..|]. split; [|done].
    rewrite Hshape. cbn [map]. by rewrite <-app_assoc.
  - intros label refs leaf Hin. by apply elem_of_nil in Hin.
  - intros l refs leaf Hin Href' Hdesc Hleaf.
    apply elem_of_cons in Hin as [->|Hin]; [congruence|]. by eapply IH.
  - pose proof (grows_enter_component st label fr Hok) as H0.
    pose proof (runs_grows _ _ _ _ Hvisit (proj1 H0)) as H1.
    pose proof (grows_leave_component _ _ (proj1 H1) Hleave) as H2.
    pose proof (runs_grows _ _ _ _ Hrest (proj1 H2)) as H3.
    pose proof (runs_restores _ _ _ _ Hvisit) as (_ & Hlocs1 & _).
    pose proof (leave_component_Ok _ _ Hleave) as (_ & stk & _ & Hfr2).
    intros l refs leaf Hin Href' Hdesc Hleaf.
    apply elem_of_cons in Hin as [->|Hin].
    + eapply record_stored_earlier; [exact H0|].
      eapply record_stored_later; [exact H1|exact (grows_trans _ _ _ H2 H3)|].
      by apply (IH1 (proj1 H0)).
    + eapply record_stored_earlier; [exact (grows_trans _ _ _ H0 (grows_trans _ _ _ H1 H2))|].
      assert (locs fr2 = locs fr) as Hlocs2.
      { rewrite Hfr2. cbn. rewrite Hlocs1. cbn. apply removelast_last. }
      rewrite <-Hlocs2. by apply (IH2 (proj1 H2)).
  - intros r refs leaf Hin. by apply elem_of_nil in Hin.
  - pose proof (runs_grows _ _ _ _ Hvisit Hok) as H1.
    pose proof (runs_grows _ _ _ _ Hrest (proj1 H1)) as H2.
    pose proof (runs_restores _ _ _ _ Hvisit) as (_ & Hlocs1 & _).
    intros r refs leaf Hin Hdesc Hleaf.
    apply elem_of_cons in Hin as [->|Hin].
    + eapply record_stored_later; [exact H1|exact H2|]. by apply (IH1 Hok).
    + eapply record_stored_earlier; [exact H1|].
      rewrite <-Hlocs1. pose proof (IH2 (proj1 H1)) as IH2'.
      cbn [records_complete] in IH2'. by eapply IH2'.
Qed.

(** C2.  On an acyclic document the walk completes, and:
    - for every simple shape [leaf] reached from a free shape through the
      reference components [refs] (outermost first, any number N of them),
      the Part Table holds, under a UID returned during the walk, a
      record whose shape is the shape of [leaf] moved by the transform
      obtained from the identity by multiplying it on the right, in turn,
      by the location of each of the N components of [refs], outermost
      first, and by nothing else;
    - every record of the Part Table after the walk was there before the
      walk or is such a record. *)
Theorem leaf_transform_is_product_of_reference_locations
    (fuel : nat) (dm : DocModel) (rank : TDF_Label → nat) :
  let st := shape_tool (doc dm) in
  ranked st rank →
  (∀ root_item, root_item ∈ GetFreeShapes st → (rank root_item < fuel)%nat) →
  _parent_uid_stack dm ≠ [] →
  ∃ fr', parse_doc_frame fuel dm = Ok fr' ∧
    (∀ root_item refs leaf,
       root_item ∈ GetFreeShapes st → descent st root_item refs leaf →
       is_leaf st leaf →
       ∃ uid p, uid ∈ uids fr' ∧ part_dict (self fr') !! uid = Some p ∧
         p_shape p = BRepBuilderAPI_Transform (GetShape st leaf)
                       (fold_left Multiplied (map (GetLocation st) refs) Identity) ∧
         p_name p = GetLabelName st leaf) ∧
    (∀ uid p, part_dict (self fr') !! uid = Some p →
       part_dict dm !! uid = Some p ∨
       ∃ root_item refs leaf,
         root_item ∈ GetFreeShapes st ∧ descent st root_item refs leaf ∧
         is_leaf st leaf ∧
         p_shape p = BRepBuilderAPI_Transform (GetShape st leaf)
                       (fold_left Multiplied (map (GetLocation st) refs) Identity) ∧
         p_name p = GetLabelName st leaf).
Proof.
  intros st Hranked Hfuel Hstk.
  destruct (parse_doc_frame_total fuel dm rank) as (fr' & Hrun); [done..|].
  exists fr'. split; [done|].
  pose proof (parse_doc_frame_runs _ _ _ Hrun) as Hruns. fold st in Hruns.
  split.
  - intros root_item refs leaf Hin Hdesc Hleaf.
    destruct (runs_records_complete _ _ _ _ Hruns (trace_ok_parse_doc_enter dm)
                root_item refs leaf Hin Hdesc Hleaf)
      as (uid & p & Hu & _ & Hp & Hshape & Hname).
    by exists uid, p.
  - intros uid p Hp.
    destruct (runs_records_sound _ _ _ _ Hruns uid p Hp)
      as [Hold|(root_item & Hin & refs & leaf & Hdesc & Hleaf & Hshape & Hname)].
    + by left.
    + right. by exists root_item, refs, leaf.
Qed.

End WalkerRuns.

(** * Evaluations on the concrete documents *)

(** C1.  The tables are not cleared by a walk.  A new [DocModel] loads
    [two.step] (one walk, inside [load_stp]) and then calls [parse_doc]
    again, as the script at the end of the source does.  One walk of this
    document produces three Label Records and two Part Records; after the
    second walk the tables hold six and four: the records of the first
    walk are all still there, under their UIDs. *)
Theorem parse_doc_twice_keeps_first_walk_records :
  ∃ dm1 shapes dm2,
    @load_stp demo_kernel demo_environment 2 (Some "two.step") demo_model = Ok dm1 ∧
    parse_doc 2 dm1 = Ok (shapes, dm2) ∧
    size (label_dict dm1) = 3%nat ∧ size (part_dict dm1) = 2%nat ∧
    size (label_dict dm2) = 6%nat ∧ size (part_dict dm2) = 4%nat ∧
    label_dict dm1 ⊆ label_dict dm2 ∧
    part_dict dm1 ⊆ part_dict dm2 ∧
    is_Some (label_dict dm1 !! "0:1:1:2.0") ∧
    is_Some (part_dict dm1 !! "0:1:1:2.0").
Proof.
  eexists _, _, _. split; [vm_compute; reflexivity|].
  split; [vm_compute; reflexivity|].
  split_and!; try (vm_compute; reflexivity); try (vm_compute; eexists; reflexivity).
  - apply map_subseteq_spec. intros uid r Hr.
    apply elem_of_map_to_list in Hr.
    match type of Hr with _ ∈ ?l => remember l as records eqn:Hl end.
    vm_compute in Hl. subst records.
    repeat (apply elem_of_cons in Hr as [[= -> ->]|Hr]; [vm_compute; reflexivity|]).
    by apply elem_of_nil in Hr.
  - apply map_subseteq_spec. intros uid r Hr.
    apply elem_of_map_to_list in Hr.
    match type of Hr with _ ∈ ?l => remember l as records eqn:Hl end.
    vm_compute in Hl. subst records.
    repeat (apply elem_of_cons in Hr as [[= -> ->]|Hr]; [vm_compute; reflexivity|]).
    by apply elem_of_nil in Hr.
Qed.

(** C6.  The UID of a root assembly stays on the stack of parents.  A new
    [DocModel] loads [roots.step], whose two free shapes are the assembly
    [0:1:1:1] and then the simple shape [0:1:1:2].  The Label Record of
    the first root has no parent; the Label Record of the second root has
    the UID of the first root as its [parent_uid]. *)
Theorem second_root_gets_first_root_as_parent :
  ∃ dm1,
    @load_stp demo_kernel demo_environment 1 (Some "roots.step") demo_model = Ok dm1 ∧
    label_dict dm1 !! "0:1:1:1.0" =
      Some (mkLabel "0:1:1:1" "First" None None true) ∧
    label_dict dm1 !! "0:1:1:2.0" =
      Some (mkLabel "0:1:1:2" "Second" (Some "0:1:1:1.0") (Some None) false) ∧
    _parent_uid_stack dm1 = [None; Some "0:1:1:1.0"].
Proof.
  eexists. split; [vm_compute; reflexivity|].
  split_and!; vm_compute; reflexivity.
Qed.

(** C5, as stated, fails: on [two.step] the allocator returns five UIDs
    (one for the root, one for each of the two reference components, one
    for each of the two visits of the simple shape) and the Label Table
    has three entries. *)
Lemma label_table_smaller_than_uid_count :
  ∃ fr', parse_doc_frame 2 (with_doc two_instances demo_model) = Ok fr' ∧
         length (uids fr') = 5%nat ∧
         size (label_dict (self fr')) = 3%nat ∧
         size (label_dict (self fr')) ≠ length (uids fr').
Proof.
  eexists. split; [vm_compute; reflexivity|].
  split_and!; [vm_compute; reflexivity..|]. vm_compute. discriminate.
Qed.


(** * The theorems at concrete inputs *)


Lemma demo_kernel_unseen shape shape' :
  shape' ≠ shape → @unseen_by demo_kernel shape shape'.
Proof.
  intros Hne ct scope c scope'. cbn. repeat case_decide; congruence.
Defined.

Lemma demo_rank_nested : ranked nested_tool demo_rank.
Proof.
  intros a label Hassy Hin Href. cbn in Hassy, Hin.
  apply orb_true_iff in Hassy as [Ha|Ha]; apply bool_decide_eq_true in Ha; subst a;
    cbn in Hin; apply list_elem_of_singleton in Hin; subst label;
    vm_compute; lia.
Defined.

(** Three calls, for the entries [a], [b] and [a] again. *)
Lemma uid_allocator_witness :
  (alloc_all ["a"; "b"; "a"] ∅).1 !! 0%nat = Some "a.0" ∧
  (alloc_all ["a"; "b"; "a"] ∅).1 !! 1%nat = Some "b.0" ∧
  (alloc_all ["a"; "b"; "a"] ∅).1 !! 2%nat = Some "a.1" ∧
  (alloc_all ["a"; "b"; "a"] ∅).2 !! "a" = Some 1 ∧
  NoDup (alloc_all ["a"; "b"; "a"] ∅).1.
Proof.
  destruct (uid_allocator_serials_and_distinct ["a"; "b"; "a"]) as (Hk & Hm & Hnd).
  split_and!.
  - exact (Hk 0%nat "a" eq_refl).
  - exact (Hk 1%nat "b" eq_refl).
  - exact (Hk 2%nat "a" eq_refl).
  - exact (Hm "a").
  - exact Hnd.
Defined.

(** The walk of [nested.step]: the bolt is reached through two reference
    components and is moved by [[1]] then [[2]]. *)
Lemma leaf_transform_witness :
  ∃ fr' uid p,
    parse_doc_frame 3 (with_doc nested demo_model) = Ok fr' ∧
    part_dict (self fr') !! uid = Some p ∧
    p_shape p = Located (Solid 7) [1%nat; 2%nat] ∧
    p_name p = "Bolt".
Proof.
  destruct (leaf_transform_is_product_of_reference_locations
              3 (with_doc nested demo_model) demo_rank)
    as (fr' & Hrun & Hall & _).
  - exact demo_rank_nested.
  - intros root_item Hin. cbn in Hin. apply list_elem_of_singleton in Hin.
    subst root_item. vm_compute. lia.
  - discriminate.
  - destruct (Hall "0:1:1:1" ["0:1:1:1:1"; "0:1:1:2:1"] "0:1:1:3")
      as (uid & p & _ & Hp & Hshape & Hname).
    + cbn. by left.
    + apply descent_step; [reflexivity|cbn; by left|reflexivity|].
      apply descent_step; [reflexivity|cbn; by left|reflexivity|].
      apply descent_here.
    + split; reflexivity.
    + exists fr', uid, p. split_and!; [exact Hrun|exact Hp|exact Hshape|exact Hname].
Defined.

(** Every label of [nested.step] the walker reaches is an assembly or a
    simple shape. *)
Lemma nested_kinds root_item refs lab :
  root_item ∈ GetFreeShapes nested_tool →
  descent nested_tool root_item refs lab →
  IsAssembly nested_tool lab = true ∨ IsSimpleShape nested_tool lab = true.
Proof.
  intros Hin Hdesc. cbn in Hin. apply list_elem_of_singleton in Hin. subst root_item.
  inversion Hdesc as [|? c1 ? ? _ Hc1 _ Hd1]; subst; [by left|].
  cbn in Hc1. apply list_elem_of_singleton in Hc1. subst c1.
  change (GetReferredShape nested_tool "0:1:1:1:1") with "0:1:1:2" in Hd1.
  inversion Hd1 as [|? c2 ? ? _ Hc2 _ Hd2]; subst; [by left|].
  cbn in Hc2. apply list_elem_of_singleton in Hc2. subst c2.
  change (GetReferredShape nested_tool "0:1:1:2:1") with "0:1:1:3" in Hd2.
  inversion Hd2 as [|? ? ? ? Hassy]; subst; [by right|].
  vm_compute in Hassy. discriminate Hassy.
Defined.

(** The walk of [nested.step]: five UIDs are returned, all distinct.  The
    two allocated for the reference components key no Label Record; the
    other three key the three Label Records. *)
Lemma walk_uids_witness :
  ∃ fr', parse_doc_frame 3 (with_doc nested demo_model) = Ok fr' ∧
         NoDup (uids fr') ∧
         component_uids fr' = ["0:1:1:1:1.0"; "0:1:1:2:1.0"] ∧
         label_dict (self fr') !! "0:1:1:1:1.0" = None ∧
         label_dict (self fr') !! "0:1:1:2:1.0" = None ∧
         (size (label_dict (self fr')) + 2 = length (uids fr'))%nat.
Proof.
  destruct (walk_uids_distinct_label_keys_among_them
              3 (with_doc nested demo_model) demo_rank)
    as (fr' & Hrun & Hnd & _ & _ & Hnone & _ & _ & Hsize).
  - exact demo_rank_nested.
  - intros root_item Hin. cbn in Hin. apply list_elem_of_singleton in Hin.
    subst root_item. vm_compute. lia.
  - discriminate.
  - reflexivity.
  - assert (component_uids fr' = ["0:1:1:1:1.0"; "0:1:1:2:1.0"]) as Hcomp.
    { vm_compute in Hrun. injection Hrun as <-. reflexivity. }
    exists fr'. split_and!; [exact Hrun|exact Hnd|exact Hcomp|..].
    + apply Hnone. rewrite Hcomp. by left.
    + apply Hnone. rewrite Hcomp. right. by left.
    + rewrite <-(Hsize nested_kinds), Hcomp. reflexivity.
Defined.


(** The walk of [sub.step]: the solid 1 declares the sub-shape solid 2,
    whose label is [red].  The three writes of [red] are made for the
    solid 1, and the solid 2 still has no instance colour. *)
Lemma sub_shape_label_color_witness :
  ∃ fr',
    _get_sub_shapes 1 with_sub_shape_tool "0:1:1:1" None
      (parse_doc_enter (with_doc with_sub_shape demo_model)) = Ok (tt, fr') ∧
    color_tool (doc (self fr')) =
      @set_all_scopes demo_kernel (Solid 1) red (color_tool with_sub_shape) ∧
    GetInstanceColor (color_tool (doc (self fr'))) (Solid 2) 0 = None ∧
    GetInstanceColor (color_tool (doc (self fr'))) (Solid 2) 1 = None ∧
    GetInstanceColor (color_tool (doc (self fr'))) (Solid 2) 2 = None.
Proof.
  destruct (sub_shape_label_color_written_to_enclosing_shape
              0 with_sub_shape_tool "0:1:1:1" "0:1:1:1:1" None
              (parse_doc_enter (with_doc with_sub_shape demo_model)) None red)
    as (fr' & Hrun & Htable & Hsub).
  - split; reflexivity.
  - reflexivity.
  - reflexivity.
  - intros k _. reflexivity.
  - intros k _. reflexivity.
  - intros k _. reflexivity.
  - reflexivity.
  - assert (@unseen_by demo_kernel (Solid 1) (Solid 2)) as Hunseen
      by (apply demo_kernel_unseen; discriminate).
    exists fr'. split_and!; [exact Hrun|exact Htable|..]; apply (Hsub Hunseen); lia.
Defined.

(** The second root of [roots.step] has no colour anywhere. *)
Lemma uncolored_simple_shape_witness :
  ∃ fr' p,
    _get_sub_shapes 1 two_roots_tool "0:1:1:2" None
      (parse_doc_enter (with_doc two_roots demo_model)) = Ok (tt, fr') ∧
    part_dict (self fr') !! "0:1:1:2.0" = Some p ∧
    p_color p = default_color ∧
    color_tool (doc (self fr')) = no_colors.
Proof.
  destruct (uncolored_simple_shape_gets_default 0 two_roots_tool "0:1:1:2" None
              (parse_doc_enter (with_doc two_roots demo_model)) None)
    as (_ & fr_lbl & fr' & _ & _ & Hrun & (p & Hp & Hc) & Hsub).
  - split; reflexivity.
  - reflexivity.
  - intros k _. reflexivity.
  - intros k _. reflexivity.
  - exists fr', p. split_and!; [exact Hrun|exact Hp|exact Hc|exact (Hsub eq_refl)].
Defined.

(** No file [missing.step] can be read. *)
Lemma load_stp_failed_read_witness :
  ∃ dm', @load_stp demo_kernel demo_environment 0 (Some "missing.step") demo_model
           = Ok dm' ∧
         part_dict dm' = ∅ ∧ label_dict dm' = ∅.
Proof.
  destruct (@load_stp_failed_read_leaves_tables demo_kernel demo_environment
              0 "missing.step" demo_model)
    as (dm' & Hrun & _ & _ & _ & _ & _ & Hempty).
  - discriminate.
  - vm_compute. discriminate.
  - exists dm'. split; [exact Hrun|]. exact (Hempty eq_refl eq_refl).
Defined.

(** The file dialog was cancelled. *)
Lemma load_stp_falsy_filename_witness :
  @load_stp demo_kernel demo_environment 0 (Some "") demo_model = Ok demo_model ∧
  @load_stp demo_kernel demo_environment 0 None demo_model = Ok demo_model.
Proof.
  split.
  - apply load_stp_falsy_filename_returns_unchanged. reflexivity.
  - apply load_stp_falsy_filename_returns_unchanged. reflexivity.
Defined.

(** * Invariants of the tables *)

Section ModelInvariants.

Context {K : Kernel}.

Implicit Types (dm : DocModel) (fr : Frame) (st : XCAFDoc_ShapeTool).

Lemma next_uid_lookup entry sd e :
  (next_uid entry sd).2 !! e =
  if decide (e = entry) then Some (next_serial sd entry) else sd !! e.
Proof.
  unfold next_uid, next_serial. cbn [snd]. case_decide as He.
  - subst. rewrite lookup_insert_eq. destruct (sd !! entry); f_equal; lia.
  - by rewrite lookup_insert_ne.
Qed.

Lemma next_serial_nonneg dm entry :
  serials_nonneg dm → 0 ≤ next_serial (_share_dict dm) entry.
Proof.
  intros Hnn. unfold next_serial.
  destruct (_share_dict dm !! entry) as [m|] eqn:Hm; [|done].
  specialize (Hnn _ _ Hm). lia.
Qed.

(** The invariants only read the two tables, the serial map and the stack
    of parents. *)
Lemma model_ok_ext dm dm' :
  part_dict dm' = part_dict dm →
  label_dict dm' = label_dict dm →
  _share_dict dm' = _share_dict dm →
  _parent_uid_stack dm' = _parent_uid_stack dm →
  model_ok dm → model_ok dm'.
Proof.
  intros Hp Hl Hs Hk.
  unfold model_ok, serials_nonneg, keyed_by_entry, parts_labelled, parents_known,
    is_assembly_key.
  by rewrite Hp, Hl, Hs, Hk.
Qed.

(** The UID the allocator is about to return is the key of no record. *)
Lemma model_ok_fresh dm entry :
  model_ok dm →
  label_dict dm !! (next_uid entry (_share_dict dm)).1 = None ∧
  part_dict dm !! (next_uid entry (_share_dict dm)).1 = None.
Proof.
  intros (_ & Hkeyed & Hparts & _).
  assert (label_dict dm !! (next_uid entry (_share_dict dm)).1 = None) as Hl.
  { destruct (label_dict dm !! _) as [r|] eqn:Hr; [|done].
    destruct (Hkeyed _ _ Hr) as (n & m & Heq & Hm & Hn).
    rewrite next_uid_fst in Heq. apply uid_of_inj in Heq as [He Hs].
    unfold next_serial in Hs. rewrite He, Hm in Hs. lia. }
  split; [done|].
  destruct (part_dict dm !! _) as [p|] eqn:Hp; [|done].
  destruct (Hparts _ _ Hp) as (r & Hr & _). congruence.
Qed.

(** The effect, on the invariants, of allocating a UID for [entry] and
    storing a Label Record under it with the parent found on top of the
    stack; the UID is pushed on the stack when [push] is set, which the
    walker does for assemblies only. *)
Lemma model_ok_new_label dm dm' entry name parent_uid ref_entry is_assy (push : bool) :
  model_ok dm →
  last (_parent_uid_stack dm) = Some parent_uid →
  (push = true → is_assy = true) →
  _share_dict dm' = (next_uid entry (_share_dict dm)).2 →
  label_dict dm' =
    <[(next_uid entry (_share_dict dm)).1 :=
        mkLabel entry name parent_uid ref_entry is_assy]> (label_dict dm) →
  part_dict dm' = part_dict dm →
  _parent_uid_stack dm' =
    _parent_uid_stack dm ++
      (if push then [Some (next_uid entry (_share_dict dm)).1] else []) →
  model_ok dm'.
Proof.
  intros Hok Htop Hpush Hs Hl Hp Hk.
  destruct (model_ok_fresh dm entry Hok) as [Hfl Hfp].
  destruct Hok as (Hnn & Hkeyed & Hparts & Hne & Hstack & Hparents).
  set (uid := (next_uid entry (_share_dict dm)).1) in *.
  assert (∀ pu, is_assembly_key dm pu → is_assembly_key dm' pu) as Hmono.
  { intros pu (rp & Hrp & Hassy). exists rp. split; [|done].
    rewrite Hl, lookup_insert_ne; [done|]. intros <-. congruence. }
  split_and!.
  - intros e m. rewrite Hs, next_uid_lookup. case_decide.
    + intros [= <-]. by apply next_serial_nonneg.
    + apply Hnn.
  - intros u r. rewrite Hl, Hs. destruct (decide (u = uid)) as [->|Hne'].
    + rewrite lookup_insert_eq. intros [= <-]. cbn [l_entry].
      exists (next_serial (_share_dict dm) entry), (next_serial (_share_dict dm) entry).
      rewrite next_uid_lookup, decide_True by done.
      split_and!; [by unfold uid; rewrite next_uid_fst|done| |lia].
      by apply next_serial_nonneg.
    + rewrite lookup_insert_ne by done. intros Hr.
      destruct (Hkeyed _ _ Hr) as (n & m & Heq & Hm & Hn).
      rewrite next_uid_lookup. case_decide as He.
      * exists n, (next_serial (_share_dict dm) entry). split_and!; [done..| |].
        { lia. }
        { unfold next_serial. rewrite <-He, Hm. lia. }
      * by exists n, m.
  - intros u p. rewrite Hp. intros Hup.
    destruct (Hparts _ _ Hup) as (r & Hr & Hassy & Hname).
    exists r. split_and!; [|done..].
    rewrite Hl, lookup_insert_ne; [done|]. intros <-. congruence.
  - split_and!.
    + rewrite Hk. by destruct (_parent_uid_stack dm).
    + intros pu. rewrite Hk. intros [Hin|Hin]%elem_of_app.
      * by apply Hmono, Hstack.
      * destruct push; [|by apply elem_of_nil in Hin].
        apply list_elem_of_singleton in Hin as [= ->].
        eexists. split; [by rewrite Hl, lookup_insert_eq|]. cbn. by apply Hpush.
    + intros u r pu. rewrite Hl. destruct (decide (u = uid)) as [->|Hne'].
      * rewrite lookup_insert_eq. intros [= <-]. cbn [l_parent_uid]. intros ->.
        apply Hmono, Hstack. apply last_Some in Htop as [l' ->].
        apply elem_of_app. right. by left.
      * rewrite lookup_insert_ne by done. intros Hr Hpu.
        by eapply Hmono, Hparents.
Qed.

(** Storing a Part Record under the key of a Label Record that is not an
    assembly and has the same name. *)
Lemma model_ok_new_part dm dm' uid r p :
  model_ok dm →
  label_dict dm !! uid = Some r → l_is_assy r = false → l_name r = p_name p →
  part_dict dm' = <[uid := p]> (part_dict dm) →
  label_dict dm' = label_dict dm →
  _share_dict dm' = _share_dict dm →
  _parent_uid_stack dm' = _parent_uid_stack dm →
  model_ok dm'.
Proof.
  intros (Hnn & Hkeyed & Hparts & Hpar) Hr Hassy Hname Hp Hl Hs Hk.
  unfold model_ok, serials_nonneg, keyed_by_entry, parts_labelled, parents_known,
    is_assembly_key in *.
  rewrite Hp, Hl, Hs, Hk. split_and!; try done; try apply Hpar.
  intros u p'. destruct (decide (u = uid)) as [->|Hne].
  - rewrite lookup_insert_eq. intros [= <-]. by exists r.
  - rewrite lookup_insert_ne by done. apply Hparts.
Qed.

(** Cutting the stack of parents down to a non-empty prefix. *)
Lemma model_ok_trim dm dm' :
  model_ok dm →
  _parent_uid_stack dm' `prefix_of` _parent_uid_stack dm →
  _parent_uid_stack dm' ≠ [] →
  part_dict dm' = part_dict dm →
  label_dict dm' = label_dict dm →
  _share_dict dm' = _share_dict dm →
  model_ok dm'.
Proof.
  intros (Hnn & Hkeyed & Hparts & _ & Hstack & Hparents) [k Hk] Hne Hp Hl Hs.
  unfold model_ok, serials_nonneg, keyed_by_entry, parts_labelled, parents_known,
    is_assembly_key in *.
  rewrite Hp, Hl, Hs. split_and!; try done.
  intros pu Hin. apply Hstack. rewrite Hk. apply elem_of_app. by left.
Qed.

Lemma trim_loop_prefix (n : nat) (l : Z) (stk stk' : list (option string)) :
  trim_loop n l stk = Ok stk' →
  stk' `prefix_of` stk ∧ (0 ≤ l → stk ≠ [] → stk' ≠ []).
Proof.
  revert stk. induction n as [|n IH]; intros stk; cbn [trim_loop];
    case_bool_decide as Hgt; try done.
  - intros [= <-]. done.
  - intros Hrec. destruct (IH _ Hrec) as [Hpre Hne]. split.
    + etrans; [done|]. rewrite removelast_firstn_len. apply prefix_take.
    + intros Hl _. apply Hne; [done|].
      destruct stk as [|a [|b stk]]; cbn in Hgt |- *; [lia..|done].
  - intros [= <-]. done.
Qed.

(** Allocating a UID without storing anything. *)
Lemma model_ok_alloc dm dm' entry :
  model_ok dm →
  _share_dict dm' = (next_uid entry (_share_dict dm)).2 →
  label_dict dm' = label_dict dm →
  part_dict dm' = part_dict dm →
  _parent_uid_stack dm' = _parent_uid_stack dm →
  model_ok dm'.
Proof.
  intros (Hnn & Hkeyed & Hparts & Hpar) Hs Hl Hp Hk.
  unfold model_ok, serials_nonneg, keyed_by_entry, parts_labelled, parents_known,
    is_assembly_key in *.
  rewrite Hp, Hl, Hs, Hk. split_and!; try done; try apply Hpar.
  - intros e m. rewrite next_uid_lookup. case_decide.
    + intros [= <-]. by apply next_serial_nonneg.
    + apply Hnn.
  - intros u r Hr. destruct (Hkeyed _ _ Hr) as (n & m & Heq & Hm & Hn).
    rewrite next_uid_lookup. case_decide as He.
    + exists n, (next_serial (_share_dict dm) entry). split_and!; [done..|lia|].
      unfold next_serial. rewrite <-He, Hm. lia.
    + by exists n, m.
Qed.

(** A run keeps the invariants, and it only adds records: every record
    present before the run is present, unchanged, after it. *)
Lemma runs_model_ok st w fr fr' :
  runs st w fr fr' →
  0 ≤ lvl fr → model_ok (self fr) →
  model_ok (self fr') ∧
  label_dict (self fr) ⊆ label_dict (self fr') ∧
  part_dict (self fr) ⊆ part_dict (self fr').
Proof.
  induction 1 as
    [lab fr parent_uid fr' Hleaf Htop Hvisit
    |lab fr parent_uid Hassy Hsimple Htop
    |lab fr parent_uid fr' Hassy Htop Hloop IH
    |fr
    |label rest fr fr' Href Hrest IH
    |label rest fr fr1 fr2 fr' Href Hvisit IH1 Hleave Hrest IH2
    |fr
    |root_item rest fr fr1 fr' Hvisit IH1 Hrest IH2]; intros Hlvl Hok.
  - destruct (model_ok_fresh _ lab Hok) as [Hfl Hfp].
    destruct (visit_simple_shape_run st lab (next_uid lab (_share_dict (self fr))).1
                lab (GetLabelName st lab) parent_uid (GetSubShapes st lab)
                (after_alloc lab fr))
      as (c & fr_res & fr'' & _ & Hrun & Hpart & Hlabel & _ & Hsd & Hstk & _).
    rewrite Hvisit in Hrun. injection Hrun as <-.
    set (uid := (next_uid lab (_share_dict (self fr))).1) in *.
    set (l_dict := mkLabel lab (GetLabelName st lab) parent_uid (Some None) false) in *.
    assert (model_ok (self (after_set_label uid l_dict (after_alloc lab fr)))) as Hok1.
    { eapply (model_ok_new_label (self fr) _ lab _ parent_uid _ false false);
        [done|done|done|reflexivity|reflexivity|reflexivity|].
      cbn. by rewrite app_nil_r. }
    split_and!.
    + eapply (model_ok_new_part _ _ uid l_dict);
        [exact Hok1|cbn; apply lookup_insert_eq|reflexivity| |exact Hpart
        |exact Hlabel|exact Hsd|exact Hstk].
      reflexivity.
    + rewrite Hlabel. by apply insert_subseteq.
    + rewrite Hpart. by apply insert_subseteq.
  - split_and!; [|done..]. by eapply (model_ok_alloc (self fr) _ lab).
  - destruct (model_ok_fresh _ lab Hok) as [Hfl Hfp].
    destruct IH as (Hok' & Hl & Hp); [done| |].
    { eapply (model_ok_new_label (self fr) _ lab _ parent_uid _ true true);
        [done|done|done|reflexivity..]. }
    split_and!; [done| |done].
    etrans; [|exact Hl]. cbn. by apply insert_subseteq.
  - done.
  - by apply IH.
  - pose proof (runs_restores _ _ _ _ Hvisit) as (Hlvl1 & _ & _). cbn in Hlvl1.
    destruct IH1 as (Hok1 & Hl1 & Hp1); [cbn; lia| |].
    { by eapply (model_ok_alloc (self fr) _ label). }
    apply leave_component_Ok in Hleave as (_ & stk & Htrim & ->).
    apply trim_loop_prefix in Htrim as [Hpre Hne].
    destruct IH2 as (Hok2 & Hl2 & Hp2); [cbn; lia| |].
    { eapply (model_ok_trim (self fr1)); [done|done| |done..].
      apply Hne; [lia|]. by destruct Hok1 as (_ & _ & _ & ? & _). }
    split_and!; [done|by etrans|by etrans].
  - done.
  - pose proof (runs_restores _ _ _ _ Hvisit) as (Hlvl1 & _ & _).
    destruct IH1 as (Hok1 & Hl1 & Hp1); [done..|].
    destruct IH2 as (Hok2 & Hl2 & Hp2); [lia|done|].
    split_and!; [done|by etrans|by etrans].
Qed.

End ModelInvariants.

(** ** What holds of every object a program can hold *)

Section Reachable.

Context {K : Kernel} {E : Environment}.

Implicit Types (dm : DocModel) (fr : Frame).

Lemma model_ok_init : model_ok __init__.
Proof.
  unfold model_ok, serials_nonneg, keyed_by_entry, parts_labelled, parents_known.
  cbn. split_and!; try done.
  intros pu Hin. by apply list_elem_of_singleton in Hin.
Qed.

Lemma parse_doc_model_ok fuel dm shapes dm' :
  model_ok dm → parse_doc fuel dm = Ok (shapes, dm') →
  model_ok dm' ∧ label_dict dm ⊆ label_dict dm' ∧ part_dict dm ⊆ part_dict dm'.
Proof.
  intros Hok. unfold parse_doc.
  destruct (parse_doc_frame fuel dm) as [fr| |] eqn:Hrun; [|done..].
  intros [= _ <-].
  by apply (runs_model_ok _ _ _ _ (parse_doc_frame_runs _ _ _ Hrun)).
Qed.

Lemma load_stp_model_ok fuel filename dm dm' :
  model_ok dm → load_stp fuel filename dm = Ok dm' →
  model_ok dm' ∧ label_dict dm ⊆ label_dict dm' ∧ part_dict dm ⊆ part_dict dm'.
Proof.
  intros Hok. unfold load_stp.
  destruct filename as [fname|]; [|by intros [= <-]].
  case_bool_decide; [by intros [= <-]|].
  destruct (parse_doc fuel _) as [[shapes dm1]| |] eqn:Hrun; [|done..].
  intros [= <-].
  apply parse_doc_model_ok in Hrun; [done|].
  by eapply model_ok_ext; [..|exact Hok].
Qed.

Lemma reachable_model_ok dm : reachable dm → model_ok dm.
Proof.
  induction 1 as [|fuel dm shapes dm' _ IH Hrun|fuel filename dm dm' _ IH Hrun].
  - apply model_ok_init.
  - by apply (parse_doc_model_ok _ _ _ _ IH Hrun).
  - by apply (load_stp_model_ok _ _ _ _ IH Hrun).
Qed.

(** X1.  In every object a program can hold, the Label Table has no
    dangling parent: a [parent_uid] that is not [None] is the key of a
    Label Record, and that record is the record of an assembly. *)
Theorem reachable_no_dangling_parent dm u r pu :
  reachable dm →
  label_dict dm !! u = Some r → l_parent_uid r = Some pu →
  ∃ rp, label_dict dm !! pu = Some rp ∧ l_is_assy rp = true.
Proof.
  intros (_ & _ & _ & _ & _ & Hparents)%reachable_model_ok. apply Hparents.
Qed.

(** X2.  In every object a program can hold, each key of the Part Table
    is also a key of the Label Table, where it keys a record that is not
    an assembly and carries the same name as the Part Record. *)
Theorem reachable_part_keys_are_label_keys dm u p :
  reachable dm →
  part_dict dm !! u = Some p →
  ∃ r, label_dict dm !! u = Some r ∧ l_is_assy r = false ∧ l_name r = p_name p.
Proof.
  intros (_ & _ & Hparts & _)%reachable_model_ok. apply Hparts.
Qed.

(** X3.  In every object a program can hold, a key of the Label Table is
    the entry of its record, a full stop, and a serial between 0 and the
    last serial [_share_dict] holds for that entry. *)
Theorem reachable_label_keys_from_entry_and_serial dm u r :
  reachable dm →
  label_dict dm !! u = Some r →
  ∃ n m, u = l_entry r +:+ "." +:+ str n ∧
         _share_dict dm !! l_entry r = Some m ∧ 0 ≤ n ≤ m.
Proof.
  intros (_ & Hkeyed & _)%reachable_model_ok. apply Hkeyed.
Qed.

(** X4.  A completed [parse_doc] on an object a program can hold only adds
    records: every Label Record and every Part Record present before the
    call is present, under the same key and unchanged, after it. *)
Theorem parse_doc_only_adds_records fuel dm shapes dm' :
  reachable dm →
  parse_doc fuel dm = Ok (shapes, dm') →
  label_dict dm ⊆ label_dict dm' ∧ part_dict dm ⊆ part_dict dm'.
Proof.
  intros Hok%reachable_model_ok Hrun.
  by destruct (parse_doc_model_ok _ _ _ _ Hok Hrun) as (_ & ? & ?).
Qed.

(** X5.  A completed [load_stp] on an object a program can hold only adds
    records too, although it replaces the document: the records made from
    the document held before are all kept. *)
Theorem load_stp_only_adds_records fuel filename dm dm' :
  reachable dm →
  load_stp fuel filename dm = Ok dm' →
  label_dict dm ⊆ label_dict dm' ∧ part_dict dm ⊆ part_dict dm'.
Proof.
  intros Hok%reachable_model_ok Hrun.
  by destruct (load_stp_model_ok _ _ _ _ Hok Hrun) as (_ & ? & ?).
Qed.

(** X6.  On an object a program can hold whose document is acyclic,
    [parse_doc] completes: it raises no [IndexError], neither on the stack
    of parents nor on [locs]. *)
Theorem reachable_parse_doc_completes fuel dm (rank : TDF_Label → nat) :
  reachable dm →
  ranked (shape_tool (doc dm)) rank →
  (∀ root_item, root_item ∈ GetFreeShapes (shape_tool (doc dm)) →
                (rank root_item < fuel)%nat) →
  ∃ shapes dm', parse_doc fuel dm = Ok (shapes, dm').
Proof.
  intros (_ & _ & _ & Hne & _)%reachable_model_ok Hranked Hfuel.
  destruct (parse_doc_frame_total fuel dm rank) as (fr' & Hrun); [done..|].
  unfold parse_doc. rewrite Hrun. by eexists _, _.
Qed.

End Reachable.

(** * The invariants at concrete inputs *)

Lemma demo_loaded_run :
  @load_stp demo_kernel demo_environment 2 (Some "two.step") demo_model
  = Ok demo_loaded.
Proof. vm_compute. reflexivity. Defined.

Lemma demo_loaded_reachable : @reachable demo_kernel demo_environment demo_loaded.
Proof.
  eapply reachable_load_stp; [apply reachable_init|exact demo_loaded_run].
Defined.

Lemma demo_rank_two_instances : ranked two_instances_tool demo_rank.
Proof.
  intros a label Hassy Hin Href. cbn in Hassy, Hin.
  apply bool_decide_eq_true in Hassy. subst a. cbn in Hin.
  apply elem_of_cons in Hin as [->|Hin];
    [|apply list_elem_of_singleton in Hin; subst label]; vm_compute; lia.
Defined.

(** The parent of the first instance of the part is the root assembly. *)
Lemma no_dangling_parent_witness :
  ∃ rp, label_dict demo_loaded !! "0:1:1:1.0" = Some rp ∧ l_is_assy rp = true.
Proof.
  apply (reachable_no_dangling_parent demo_loaded "0:1:1:2.0"
           (mkLabel "0:1:1:2" "Part" (Some "0:1:1:1.0") (Some None) false)
           "0:1:1:1.0" demo_loaded_reachable).
  - vm_compute. reflexivity.
  - reflexivity.
Defined.

Lemma part_keys_are_label_keys_witness :
  ∃ r, label_dict demo_loaded !! "0:1:1:2.1" = Some r ∧ l_is_assy r = false ∧
       l_name r = "Part".
Proof.
  apply (reachable_part_keys_are_label_keys demo_loaded "0:1:1:2.1"
           (@mkPart demo_kernel (Located (Solid 1) [2%nat]) "Part" default_color)
           demo_loaded_reachable).
  vm_compute. reflexivity.
Defined.

Lemma label_keys_from_entry_and_serial_witness :
  ∃ n m, "0:1:1:2.1" = "0:1:1:2" +:+ "." +:+ str n ∧
         _share_dict demo_loaded !! "0:1:1:2" = Some m ∧ 0 ≤ n ≤ m.
Proof.
  apply (reachable_label_keys_from_entry_and_serial demo_loaded "0:1:1:2.1"
           (mkLabel "0:1:1:2" "Part" (Some "0:1:1:1.0") (Some None) false)
           demo_loaded_reachable).
  vm_compute. reflexivity.
Defined.

Lemma parse_doc_only_adds_records_witness :
  ∃ shapes dm', parse_doc 2 demo_loaded = Ok (shapes, dm') ∧
                label_dict demo_loaded ⊆ label_dict dm' ∧
                part_dict demo_loaded ⊆ part_dict dm'.
Proof.
  eexists _, _. split; [vm_compute; reflexivity|].
  eapply (parse_doc_only_adds_records (E := demo_environment) 2 demo_loaded _ _
            demo_loaded_reachable).
  vm_compute. reflexivity.
Defined.

Lemma load_stp_only_adds_records_witness :
  ∃ dm', @load_stp demo_kernel demo_environment 3 (Some "nested.step") demo_loaded
           = Ok dm' ∧
         label_dict demo_loaded ⊆ label_dict dm' ∧
         part_dict demo_loaded ⊆ part_dict dm'.
Proof.
  eexists. split; [vm_compute; reflexivity|].
  eapply (load_stp_only_adds_records (E := demo_environment) 3 (Some "nested.step")
            demo_loaded _ demo_loaded_reachable).
  vm_compute. reflexivity.
Defined.

Lemma reachable_parse_doc_completes_witness :
  ∃ shapes dm', parse_doc 3 demo_loaded = Ok (shapes, dm').
Proof.
  apply (reachable_parse_doc_completes (E := demo_environment) 3 demo_loaded demo_rank
           demo_loaded_reachable).
  - exact demo_rank_two_instances.
  - intros root_item Hin. change (root_item ∈ ["0:1:1:1"]) in Hin.
    apply list_elem_of_singleton in Hin. subst root_item. vm_compute. lia.
Defined.

(** * Documents with a cycle *)

Section Cycles.

Context {K : Kernel}.

Implicit Types (st : XCAFDoc_ShapeTool) (fr : Frame) (lab : TDF_Label).

Lemma descent_app st a refs1 b refs2 c :
  descent st a refs1 b → descent st b refs2 c → descent st a (refs1 ++ refs2) c.
Proof.
  induction 1 as [lab|a label refs leaf Hassy Hin Href Hd IH]; intros Hbc; [done|].
  cbn. apply descent_step; auto.
Qed.

(** A label that reaches a cycle is an assembly with a reference component
    whose target reaches a cycle. *)
Lemma reaches_cycle_step st lab :
  reaches_cycle st lab →
  IsAssembly st lab = true ∧
  ∃ label, label ∈ GetComponents st lab ∧ IsReference st label = true ∧
           reaches_cycle st (GetReferredShape st label).
Proof.
  intros (refs & mid & again & Hdesc & Hne & Hloop).
  destruct Hdesc as [lab|a label refs leaf Hassy Hin Href Hd].
  - inversion Hloop as [|a label refs leaf Hassy Hin Href Hd]; subst; [done|].
    split; [done|]. exists label. split_and!; [done..|].
    exists [], (GetReferredShape st label), (refs ++ [label]).
    split_and!; [apply descent_here|by destruct refs|].
    eapply descent_app; [exact Hd|].
    apply descent_step; [done..|apply descent_here].
  - split; [done|]. exists label. split_and!; [done..|].
    by exists refs, leaf, again.
Qed.

Lemma for_each_never_Ok {A} (l : list A) (body : A → M unit) x :
  x ∈ l →
  (∀ fr r, body x fr ≠ Ok r) →
  ∀ fr r, for_each l body fr ≠ Ok r.
Proof.
  intros Hin Hbody. induction l as [|y l IH]; intros fr r.
  - by apply elem_of_nil in Hin.
  - cbn [for_each]. unfold bind.
    destruct (body y fr) as [[[] fr1]| |] eqn:Hy; [|done..].
    apply elem_of_cons in Hin as [->|Hin].
    + by destruct (Hbody fr ((), fr1)).
    + by apply IH.
Qed.

Lemma _get_sub_shapes_never_Ok_on_cycle st lab :
  reaches_cycle st lab →
  ∀ fuel loc fr r, _get_sub_shapes fuel st lab loc fr ≠ Ok r.
Proof.
  intros Hcyc fuel. revert lab Hcyc.
  induction fuel as [|fuel IH]; intros lab Hcyc loc fr r; [done|].
  destruct (reaches_cycle_step _ _ Hcyc) as (Hassy & label & Hin & Href & Hnext).
  rewrite _get_sub_shapes_unfold.
  destruct (last (_parent_uid_stack (self fr))) as [parent_uid|]; [|done].
  cbn zeta. rewrite Hassy, visit_assembly_run.
  apply (for_each_never_Ok _ _ label); [done|].
  intros f r'. rewrite visit_component_reference by done. unfold bind.
  destruct (_get_sub_shapes fuel st _ _ _) as [[[] f1]| |] eqn:Hrec; [|done..].
  by destruct (IH _ Hnext _ _ _ Hrec).
Qed.

(** X7.  The walker has no guard against cycles.  When a free shape of
    the document reaches, through reference components, an assembly that
    contains itself (directly or through other assemblies), [parse_doc]
    never completes: whatever the depth of recursion allowed, the walk
    ends in an error and returns nothing. *)
Theorem parse_doc_never_completes_on_cycle
    (fuel : nat) (dm : DocModel) (root_item : TDF_Label) :
  root_item ∈ GetFreeShapes (shape_tool (doc dm)) →
  reaches_cycle (shape_tool (doc dm)) root_item →
  ∀ r, parse_doc fuel dm ≠ Ok r.
Proof.
  intros Hin Hcyc r. unfold parse_doc, parse_doc_frame, _get_shapes.
  destruct (for_each _ _ _) as [[[] fr1]| |] eqn:Hrun; [|done..].
  exfalso. revert Hrun. apply (for_each_never_Ok _ _ root_item); [done|].
  intros f r'. by apply _get_sub_shapes_never_Ok_on_cycle.
Qed.

End Cycles.

Lemma parse_doc_never_completes_on_cycle_witness :
  parse_doc 50 (with_doc self_reference demo_model) = IndexError ∨
  parse_doc 50 (with_doc self_reference demo_model) = OutOfFuel.
Proof.
  destruct (parse_doc 50 (with_doc self_reference demo_model)) as [r| |] eqn:Hrun;
    [|by left|by right].
  exfalso.
  apply (parse_doc_never_completes_on_cycle 50 (with_doc self_reference demo_model)
           "0:1:1:1") with (r := r); [| |exact Hrun].
  - cbn. by left.
  - exists [], "0:1:1:1", ["0:1:1:1:1"]. split_and!.
    + apply descent_here.
    + discriminate.
    + apply (descent_step self_reference_tool "0:1:1:1" "0:1:1:1:1" [] "0:1:1:1");
        [reflexivity|cbn; by left|reflexivity|apply descent_here].
Defined.

(** * What a walk writes *)

Section WalkWrites.

Context {K : Kernel}.

Implicit Types (st : XCAFDoc_ShapeTool) (fr : Frame) (dm : DocModel).

Lemma labels_describe_same st fr fr' :
  label_dict (self fr') = label_dict (self fr) → labels_describe st fr fr'.
Proof. intros Heq u r Hr. left. by rewrite <-Heq. Qed.

Lemma labels_describe_trans st fr0 fr1 fr2 :
  labels_describe st fr0 fr1 → labels_describe st fr1 fr2 →
  labels_describe st fr0 fr2.
Proof.
  intros H01 H12 u r Hr. destruct (H12 u r Hr) as [Hold|Hnew]; [|by right].
  by apply H01.
Qed.

Lemma labels_describe_insert st fr fr' uid lab parent_uid :
  label_dict (self fr') =
    <[uid := mkLabel lab (GetLabelName st lab) parent_uid
               (if IsAssembly st lab then None else Some None)
               (IsAssembly st lab)]> (label_dict (self fr)) →
  (IsAssembly st lab = false → IsSimpleShape st lab = true) →
  labels_describe st fr fr'.
Proof.
  intros Heq Hkind u r. rewrite Heq. destruct (decide (u = uid)) as [->|Hne].
  - rewrite lookup_insert_eq. intros [= <-]. right. by cbn.
  - rewrite lookup_insert_ne by done. by left.
Qed.

Lemma runs_labels_describe st w fr fr' : runs st w fr fr' → labels_describe st fr fr'.
Proof.
  induction 1 as
    [lab fr parent_uid fr' Hleaf Htop Hvisit
    |lab fr parent_uid Hassy Hsimple Htop
    |lab fr parent_uid fr' Hassy Htop Hloop IH
    |fr
    |label rest fr fr' Href Hrest IH
    |label rest fr fr1 fr2 fr' Href Hvisit IH1 Hleave Hrest IH2
    |fr
    |root_item rest fr fr1 fr' Hvisit IH1 Hrest IH2].
  - destruct (visit_simple_shape_run st lab (next_uid lab (_share_dict (self fr))).1
                lab (GetLabelName st lab) parent_uid (GetSubShapes st lab)
                (after_alloc lab fr))
      as (c & fr_res & fr'' & _ & Hrun & _ & Hlabel & _).
    rewrite Hvisit in Hrun. injection Hrun as <-. destruct Hleaf as [Hassy Hsimple].
    eapply (labels_describe_insert st _ _ _ lab parent_uid); [|done].
    rewrite Hassy. exact Hlabel.
  - by apply labels_describe_same.
  - eapply labels_describe_trans; [|exact IH].
    eapply (labels_describe_insert st _ _ _ lab parent_uid); [|intros ?; congruence].
    rewrite Hassy. reflexivity.
  - by apply labels_describe_same.
  - done.
  - apply leave_component_Ok in Hleave as (_ & stk & _ & ->).
    eapply labels_describe_trans; [|exact IH2].
    eapply labels_describe_trans; [|by apply labels_describe_same].
    eapply labels_describe_trans; [|exact IH1].
    by apply labels_describe_same.
  - by apply labels_describe_same.
  - by eapply labels_describe_trans.
Qed.

(** X8.  Every Label Record a completed [parse_doc] has added or changed
    describes a label of the document walked: its name is the name of the
    label at its entry, [is_assy] tells whether that label is an assembly,
    a record that is not an assembly is the record of a simple shape, and
    the key ['ref_entry'] is present, with [None], in those records
    only. *)
Theorem parse_doc_label_records_describe_labels fuel dm shapes dm' u r :
  parse_doc fuel dm = Ok (shapes, dm') →
  label_dict dm' !! u = Some r →
  label_dict dm !! u = Some r ∨
  (l_name r = GetLabelName (shape_tool (doc dm)) (l_entry r) ∧
   l_is_assy r = IsAssembly (shape_tool (doc dm)) (l_entry r) ∧
   (l_is_assy r = false → IsSimpleShape (shape_tool (doc dm)) (l_entry r) = true) ∧
   l_ref_entry r = (if l_is_assy r then None else Some None)).
Proof.
  unfold parse_doc.
  destruct (parse_doc_frame fuel dm) as [fr| |] eqn:Hrun; [|done..].
  intros [= _ <-].
  apply (runs_labels_describe _ _ _ _ (parse_doc_frame_runs _ _ _ Hrun)).
Qed.

Lemma returns_new_uids_same fr fr' : uids fr' = uids fr → returns_new_uids fr fr'.
Proof. intros Heq u Hu. left. by rewrite <-Heq. Qed.

Lemma returns_new_uids_trans fr0 fr1 fr2 :
  label_dict (self fr0) ⊆ label_dict (self fr1) →
  part_dict (self fr0) ⊆ part_dict (self fr1) →
  returns_new_uids fr0 fr1 → returns_new_uids fr1 fr2 →
  returns_new_uids fr0 fr2.
Proof.
  intros Hl Hp H01 H12 u Hu. destruct (H12 u Hu) as [Hold|[Hnl Hnp]]; [by apply H01|].
  right. split; by eapply lookup_weaken_None.
Qed.

Lemma returns_new_uids_alloc entry fr fr' :
  model_ok (self fr) →
  uids fr' = uids fr ++ [(next_uid entry (_share_dict (self fr))).1] →
  returns_new_uids fr fr'.
Proof.
  intros Hok Heq u. rewrite Heq. intros [Hin|Hin]%elem_of_app; [by left|].
  apply list_elem_of_singleton in Hin as ->. right. by apply model_ok_fresh.
Qed.

Lemma runs_returns_new_uids st w fr fr' :
  runs st w fr fr' → 0 ≤ lvl fr → model_ok (self fr) → returns_new_uids fr fr'.
Proof.
  induction 1 as
    [lab fr parent_uid fr' Hleaf Htop Hvisit
    |lab fr parent_uid Hassy Hsimple Htop
    |lab fr parent_uid fr' Hassy Htop Hloop IH
    |fr
    |label rest fr fr' Href Hrest IH
    |label rest fr fr1 fr2 fr' Href Hvisit IH1 Hleave Hrest IH2
    |fr
    |root_item rest fr fr1 fr' Hvisit IH1 Hrest IH2]; intros Hlvl Hok.
  - destruct (visit_simple_shape_run st lab (next_uid lab (_share_dict (self fr))).1
                lab (GetLabelName st lab) parent_uid (GetSubShapes st lab)
                (after_alloc lab fr))
      as (c & fr_res & fr'' & _ & Hrun & _ & _ & _ & _ & _ & _ & _ & Hu & _).
    rewrite Hvisit in Hrun. injection Hrun as <-.
    by apply (returns_new_uids_alloc lab).
  - by apply (returns_new_uids_alloc lab).
  - destruct (model_ok_fresh _ lab Hok) as [Hfl Hfp].
    assert (model_ok (self (enter_assembly st lab parent_uid fr))) as Hok1.
    { eapply (model_ok_new_label (self fr) _ lab _ parent_uid _ true true);
        [done|done|done|reflexivity..]. }
    eapply (returns_new_uids_trans _ (enter_assembly st lab parent_uid fr)).
    + cbn. by apply insert_subseteq.
    + done.
    + by apply (returns_new_uids_alloc lab).
    + by apply IH.
  - by apply returns_new_uids_same.
  - by apply IH.
  - pose proof (runs_restores _ _ _ _ Hvisit) as (Hlvl1 & _ & _). cbn in Hlvl1.
    assert (model_ok (self (enter_component st label fr))) as Hok0.
    { by eapply (model_ok_alloc (self fr) _ label). }
    destruct (runs_model_ok _ _ _ _ Hvisit) as (Hok1 & Hl1 & Hp1); [cbn; lia|done|].
    pose proof (leave_component_Ok _ _ Hleave) as (_ & stk & Htrim & Hfr2).
    apply trim_loop_prefix in Htrim as [Hpre Hne].
    assert (model_ok (self fr2)) as Hok2.
    { rewrite Hfr2. eapply (model_ok_trim (self fr1)); [done|done| |done..].
      apply Hne; [lia|]. by destruct Hok1 as (_ & _ & _ & ? & _). }
    assert (returns_new_uids fr fr1) as H01.
    { eapply (returns_new_uids_trans _ (enter_component st label fr)); [done|done| |].
      - by apply (returns_new_uids_alloc label).
      - apply IH1; [cbn; lia|done]. }
    eapply (returns_new_uids_trans _ fr2).
    + rewrite Hfr2. exact Hl1.
    + rewrite Hfr2. exact Hp1.
    + eapply (returns_new_uids_trans _ fr1); [done..|].
      apply returns_new_uids_same. by rewrite Hfr2.
    + apply IH2; [|done]. rewrite Hfr2. cbn. lia.
  - by apply returns_new_uids_same.
  - pose proof (runs_restores _ _ _ _ Hvisit) as (Hlvl1 & _ & _).
    destruct (runs_model_ok _ _ _ _ Hvisit) as (Hok1 & Hl1 & Hp1); [done..|].
    eapply (returns_new_uids_trans _ fr1); [done|done|by apply IH1|].
    apply IH2; [lia|done].
Qed.

End WalkWrites.

Section FreshUids.

Context {K : Kernel} {E : Environment}.

(** X9.  On an object a program can hold, no UID the allocator returns
    during a walk is already a key of [label_dict] or of [part_dict]:
    the walk never stores a record over a record of an earlier walk. *)
Theorem walk_uids_are_not_yet_keys (fuel : nat) (dm : DocModel) (fr' : Frame) (u : string) :
  reachable dm →
  parse_doc_frame fuel dm = Ok fr' →
  u ∈ uids fr' →
  label_dict dm !! u = None ∧ part_dict dm !! u = None.
Proof.
  intros Hok%reachable_model_ok Hrun Hu.
  destruct (runs_returns_new_uids _ _ _ _ (parse_doc_frame_runs _ _ _ Hrun)
              (Z.le_refl 0) Hok u Hu) as [Hin|Hnew]; [|done].
  by apply elem_of_nil in Hin.
Qed.

End FreshUids.

Lemma label_records_describe_labels_witness :
  let r := mkLabel "0:1:1:2" "Part" (Some "0:1:1:1.0") (Some None) false in
  l_name r = GetLabelName two_instances_tool (l_entry r) ∧
  l_is_assy r = IsAssembly two_instances_tool (l_entry r) ∧
  (l_is_assy r = false → IsSimpleShape two_instances_tool (l_entry r) = true) ∧
  l_ref_entry r = (if l_is_assy r then None else Some None).
Proof.
  intros r.
  assert (label_dict (with_doc two_instances demo_model) !! "0:1:1:2.0" = Some r ∨
          (l_name r = GetLabelName two_instances_tool (l_entry r) ∧
           l_is_assy r = IsAssembly two_instances_tool (l_entry r) ∧
           (l_is_assy r = false → IsSimpleShape two_instances_tool (l_entry r) = true) ∧
           l_ref_entry r = (if l_is_assy r then None else Some None)))
    as [Hold|Hnew].
  { eapply (parse_doc_label_records_describe_labels 2
              (with_doc two_instances demo_model)).
    - vm_compute. reflexivity.
    - vm_compute. reflexivity. }
  - vm_compute in Hold. discriminate Hold.
  - exact Hnew.
Defined.

(** The second walk of [two.step] returns, among others, the UID
    [0:1:1:2.2], which keyed nothing after the first walk. *)
Lemma walk_uids_are_not_yet_keys_witness :
  label_dict demo_loaded !! "0:1:1:2.2" = None ∧
  part_dict demo_loaded !! "0:1:1:2.2" = None.
Proof.
  eapply (walk_uids_are_not_yet_keys (E := demo_environment) 2 demo_loaded _
            "0:1:1:2.2" demo_loaded_reachable).
  - vm_compute. reflexivity.
  - apply list_elem_of_In. vm_compute.
    repeat (first [left; reflexivity | right]).
Defined.

(** * What a call of the walker restores *)

Section Restores.

Context {K : Kernel}.

(** X11.  A completed call of the walker leaves [lvl] and [locs] as it
    found them, whatever it pushed in between: every [locs.append] is
    matched by a [locs.pop], every [lvl += 1] by a [lvl -= 1].  It does
    not change the structure of the document. *)
Theorem _get_sub_shapes_restores_and_keeps
    (fuel : nat) st lab (loc : option Loc) fr fr' :
  _get_sub_shapes fuel st lab loc fr = Ok (tt, fr') →
  lvl fr' = lvl fr ∧ locs fr' = locs fr ∧
  shape_tool (doc (self fr')) = shape_tool (doc (self fr)).
Proof.
  intros Hrun. apply _get_sub_shapes_runs in Hrun as Hruns.
  exact (runs_restores _ _ _ _ Hruns).
Qed.

End Restores.

(** The walk of the nested assemblies from its root, where [locs] goes up
    to two transforms and comes back to none. *)
Lemma _get_sub_shapes_restores_and_keeps_witness :
  ∃ fr', _get_sub_shapes 3 nested_tool "0:1:1:1" None
           (parse_doc_enter (with_doc nested demo_model)) = Ok (tt, fr') ∧
         lvl fr' = 0 ∧ locs fr' = [].
Proof.
  destruct (_get_sub_shapes 3 nested_tool "0:1:1:1" None
              (parse_doc_enter (with_doc nested demo_model)))
    as [[[] fr']| |] eqn:Hrun; [|vm_compute in Hrun; discriminate Hrun..].
  exists fr'. split; [reflexivity|].
  destruct (_get_sub_shapes_restores_and_keeps _ _ _ _ _ _ Hrun) as (Hlvl & Hlocs & _).
  split; [exact Hlvl|exact Hlocs].
Defined.

(** * The shapes [parse_doc] returns *)

Section OutputShapes.

Context {K : Kernel}.

Implicit Types (shape : Shape) (fr : Frame) (c : Quantity_Color)
  (st : XCAFDoc_ShapeTool) (lab : TDF_Label).

Lemma out_grows_refl fr : out_grows fr fr.
Proof. by split. Qed.

Lemma out_grows_trans fr1 fr2 fr3 :
  out_grows fr1 fr2 → out_grows fr2 fr3 → out_grows fr1 fr3.
Proof. intros [H1 H1'] [H2 H2']. split; [by etrans|auto]. Qed.

Lemma out_grows_same fr fr' :
  output_shapes fr' = output_shapes fr → out_grows fr fr'.
Proof. intros Heq. unfold out_grows. by rewrite Heq. Qed.

Lemma out_grows_key fr fr' shape :
  out_grows fr fr' → shape ∈ (output_shapes fr).*1 → shape ∈ (output_shapes fr').*1.
Proof.
  intros [[k ->] _] Hin. rewrite fmap_app. apply elem_of_app. by left.
Qed.

Lemma output_shapes_add_inv shape name c fr fr' :
  output_shapes_add shape name c fr = Ok (tt, fr') →
  out_grows fr fr' ∧ shape ∈ (output_shapes fr').*1.
Proof.
  unfold output_shapes_add. case_decide as Hin; intros [= <-].
  - split; [apply out_grows_refl|done].
  - unfold out_grows. cbn [output_shapes]. split.
    + split; [by eexists|]. intros Hnd. rewrite fmap_app. cbn.
      apply NoDup_app. split_and!; [done| |apply NoDup_singleton].
      intros x Hx Hx'. by apply list_elem_of_singleton in Hx' as ->.
    + rewrite fmap_app. apply elem_of_app. right. by left.
Qed.

Lemma resolve_shape_color_output shape lab fr c fr' :
  resolve_shape_color shape lab fr = Ok (c, fr') →
  output_shapes fr' = output_shapes fr.
Proof.
  destruct (resolve_shape_color_total shape lab fr) as (c0 & fr0 & -> & _ & Hout).
  by intros [= _ <-].
Qed.

Lemma resolve_subshape_color_output shape shape_sub lab fr c fr' :
  resolve_subshape_color shape shape_sub lab fr = Ok (c, fr') →
  output_shapes fr' = output_shapes fr.
Proof.
  destruct (resolve_subshape_color_total shape shape_sub lab fr)
    as (c0 & fr0 & -> & _ & Hout).
  by intros [= _ <-].
Qed.

Lemma visit_sub_shape_out st shape loc lab_subs fr fr' :
  visit_sub_shape st shape loc lab_subs fr = Ok (tt, fr') → out_grows fr fr'.
Proof.
  unfold visit_sub_shape. intros (c & fr1 & Hres & Hadd)%bind_Ok.
  apply resolve_subshape_color_output in Hres.
  apply output_shapes_add_inv in Hadd as [Hadd _].
  eapply out_grows_trans; [by apply out_grows_same|done].
Qed.

Lemma for_each_sub_shapes_out st shape loc l_subss fr fr' :
  for_each l_subss (visit_sub_shape st shape loc) fr = Ok (tt, fr') →
  out_grows fr fr'.
Proof.
  revert fr. induction l_subss as [|lab_subs rest IH]; intros fr.
  - intros [= <-]. apply out_grows_refl.
  - cbn [for_each]. intros ([] & fr1 & Hbody & Hrest)%bind_Ok.
    eapply out_grows_trans; [by eapply visit_sub_shape_out|by apply IH].
Qed.

Lemma visit_simple_shape_out st lab uid text_entry name parent_uid l_subss fr fr' :
  visit_simple_shape st lab uid text_entry name parent_uid l_subss fr = Ok (tt, fr') →
  out_grows fr fr' ∧
  BRepBuilderAPI_Transform (GetShape st lab) (compose_locs (locs fr))
    ∈ (output_shapes fr').*1.
Proof.
  unfold visit_simple_shape.
  intros ([] & fr1 & [= <-] & Hrest)%bind_Ok.
  apply bind_Ok in Hrest as (ls & fr2 & [= <- <-] & Hrest).
  apply bind_Ok in Hrest as (c & fr3 & Hres & Hrest).
  apply bind_Ok in Hrest as ([] & fr4 & Hadd & Hrest).
  apply bind_Ok in Hrest as ([] & fr5 & [= <-] & Hloop).
  apply resolve_shape_color_output in Hres. cbn in Hres.
  apply output_shapes_add_inv in Hadd as [Hadd Hin].
  apply for_each_sub_shapes_out in Hloop.
  assert (out_grows fr4 fr') as H45.
  { eapply out_grows_trans; [|exact Hloop]. by apply out_grows_same. }
  split.
  - eapply out_grows_trans; [by apply out_grows_same|].
    by eapply out_grows_trans.
  - by eapply out_grows_key.
Qed.

Lemma parts_shown_trans fr0 fr1 fr2 :
  out_grows fr1 fr2 → parts_shown fr0 fr1 → parts_shown fr1 fr2 →
  parts_shown fr0 fr2.
Proof.
  intros Hout H01 H12 u p Hp. destruct (H12 u p Hp) as [Hold|Hnew]; [|by right].
  destruct (H01 u p Hold) as [Hold'|Hkey]; [by left|right].
  by eapply out_grows_key.
Qed.

Lemma parts_shown_same fr fr' :
  part_dict (self fr') = part_dict (self fr) → parts_shown fr fr'.
Proof. intros Heq u p Hp. left. by rewrite <-Heq. Qed.

Lemma runs_output_shapes st w fr fr' :
  runs st w fr fr' → out_grows fr fr' ∧ parts_shown fr fr'.
Proof.
  induction 1 as
    [lab fr parent_uid fr' Hleaf Htop Hvisit
    |lab fr parent_uid Hassy Hsimple Htop
    |lab fr parent_uid fr' Hassy Htop Hloop IH
    |fr
    |label rest fr fr' Href Hrest IH
    |label rest fr fr1 fr2 fr' Href Hvisit IH1 Hleave Hrest IH2
    |fr
    |root_item rest fr fr1 fr' Hvisit IH1 Hrest IH2].
  - destruct (visit_simple_shape_run st lab (next_uid lab (_share_dict (self fr))).1
                lab (GetLabelName st lab) parent_uid (GetSubShapes st lab)
                (after_alloc lab fr))
      as (c & fr_res & fr'' & _ & Hrun & Hpart & _).
    rewrite Hvisit in Hrun. injection Hrun as <-.
    apply visit_simple_shape_out in Hvisit as [Hout Hkey].
    split; [exact Hout|].
    intros u p. rewrite Hpart.
    destruct (decide (u = (next_uid lab (_share_dict (self fr))).1)) as [->|Hne].
    + rewrite lookup_insert_eq. intros [= <-]. by right.
    + rewrite lookup_insert_ne by done. by left.
  - split; [by apply out_grows_same|by apply parts_shown_same].
  - exact IH.
  - split; [apply out_grows_refl|by apply parts_shown_same].
  - exact IH.
  - apply leave_component_Ok in Hleave as (_ & stk & _ & ->).
    destruct IH1 as [Ho1 Hp1], IH2 as [Ho2 Hp2].
    split; [by eapply out_grows_trans|].
    by eapply (parts_shown_trans fr _ fr').
  - split; [apply out_grows_refl|by apply parts_shown_same].
  - destruct IH1 as [Ho1 Hp1], IH2 as [Ho2 Hp2].
    split; [by eapply out_grows_trans|by eapply parts_shown_trans].
Qed.

(** X12.  The value a completed [parse_doc] returns has pairwise distinct
    keys, and every Part Record of the object after the call was there
    before the call or has its positioned shape among these keys: all the
    parts made by the walk are in the shapes handed over for display. *)
Theorem parse_doc_returns_the_shapes_of_its_parts fuel (dm : DocModel) shapes dm' :
  parse_doc fuel dm = Ok (shapes, dm') →
  NoDup shapes.*1 ∧
  ∀ u p, part_dict dm' !! u = Some p →
         part_dict dm !! u = Some p ∨ p_shape p ∈ shapes.*1.
Proof.
  unfold parse_doc.
  destruct (parse_doc_frame fuel dm) as [fr| |] eqn:Hrun; [|done..].
  intros [= <- <-].
  destruct (runs_output_shapes _ _ _ _ (parse_doc_frame_runs _ _ _ Hrun))
    as [[_ Hnd] Hshown].
  split; [apply Hnd; apply NoDup_nil_2|exact Hshown].
Qed.

End OutputShapes.

Lemma parse_doc_returns_the_shapes_of_its_parts_witness :
  ∃ shapes dm',
    parse_doc 2 (with_doc two_instances demo_model) = Ok (shapes, dm') ∧
    NoDup shapes.*1 ∧
    Located (Solid 1) [2%nat] ∈ shapes.*1.
Proof.
  destruct (parse_doc 2 (with_doc two_instances demo_model))
    as [[shapes dm']| |] eqn:Hrun; [|vm_compute in Hrun; discriminate Hrun..].
  exists shapes, dm'. split; [reflexivity|].
  destruct (parse_doc_returns_the_shapes_of_its_parts _ _ _ _ Hrun) as [Hnd Hshown].
  split; [exact Hnd|].
  destruct (Hshown "0:1:1:2.1"
              (@mkPart demo_kernel (Located (Solid 1) [2%nat]) "Part" default_color))
    as [Hold|Hkey].
  - vm_compute in Hrun. injection Hrun as _ <-. vm_compute. reflexivity.
  - vm_compute in Hold. discriminate Hold.
  - exact Hkey.
Defined.

(** * The Label Table as the tree of the document *)

Section Tree.

Context {K : Kernel}.

Implicit Types (st : XCAFDoc_ShapeTool) (fr : Frame) (dm : DocModel).

Lemma child_of_mono st dm dm' r :
  label_dict dm ⊆ label_dict dm' → child_of st dm r → child_of st dm' r.
Proof.
  intros Hsub (pu & rp & label & Hpar & Hrp & Hrest).
  destruct Hrest as (Hassy & Hin & Href & Hto).
  exists pu, rp, label. split_and!; try done.
  by eapply lookup_weaken.
Qed.

Lemma trim_loop_keep (n : nat) (l : Z) (stk : list (option string)) :
  Z.of_nat (length stk) ≤ l + 2 → trim_loop n l stk = Ok stk.
Proof.
  intros Hlen. destruct n; cbn [trim_loop];
    by rewrite bool_decide_eq_false_2 by lia.
Qed.

Lemma trim_loop_pop_one (n : nat) (l : Z) (stk : list (option string)) x :
  Z.of_nat (length stk) = l + 2 → trim_loop (S n) l (stk ++ [x]) = Ok stk.
Proof.
  intros Hlen. cbn [trim_loop].
  rewrite bool_decide_eq_true_2 by (rewrite length_app; cbn; lia).
  rewrite removelast_last. apply trim_loop_keep. lia.
Qed.

Lemma runs_tree_post st w fr fr' :
  runs st w fr fr' → 0 ≤ lvl fr → model_ok (self fr) → tree_post st w fr fr'.
Proof.
  induction 1 as
    [lab fr parent_uid fr' Hleaf Htop Hvisit
    |lab fr parent_uid Hassy Hsimple Htop
    |lab fr parent_uid fr' Hassy Htop Hloop IH
    |fr
    |label rest fr fr' Href Hrest IH
    |label rest fr fr1 fr2 fr' Href Hvisit IH1 Hleave Hrest IH2
    |fr
    |root_item rest fr fr1 fr' Hvisit IH1 Hrest IH2]; intros Hlvl Hok;
    cbn [tree_post]; try done.
  - intros _. cbn zeta.
    destruct (visit_simple_shape_run st lab (next_uid lab (_share_dict (self fr))).1
                lab (GetLabelName st lab) parent_uid (GetSubShapes st lab)
                (after_alloc lab fr))
      as (c & fr_res & fr'' & _ & Hrun & _ & Hlabel & _ & _ & Hstk & _).
    rewrite Hvisit in Hrun. injection Hrun as <-.
    destruct Hleaf as [-> _]. split.
    + rewrite Hstk. cbn. by rewrite app_nil_r.
    + intros u r. rewrite Hlabel.
      destruct (decide (u = (next_uid lab (_share_dict (self fr))).1)) as [->|Hne].
      * rewrite lookup_insert_eq. intros [= <-]. right. left. by rewrite Htop.
      * rewrite lookup_insert_ne by done. by left.
  - intros _. cbn zeta. rewrite Hassy. split; [cbn; by rewrite app_nil_r|].
    intros u r Hr. by left.
  - intros Hlen. cbn zeta. rewrite Hassy.
    set (uid := (next_uid lab (_share_dict (self fr))).1) in *.
    set (rec := mkLabel lab (GetLabelName st lab) parent_uid None true).
    destruct (model_ok_fresh _ lab Hok) as [Hfl Hfp].
    assert (model_ok (self (enter_assembly st lab parent_uid fr))) as Hok1.
    { eapply (model_ok_new_label (self fr) _ lab _ parent_uid _ true true);
        [done|done|done|reflexivity..]. }
    destruct (runs_model_ok _ _ _ _ Hloop) as (_ & Hsub & _); [done..|].
    cbn [tree_post] in IH.
    destruct (IH Hlvl Hok1) with (pu := uid) (rp := rec) as [Hstk Hrecs].
    + cbn. rewrite length_app. cbn. lia.
    + cbn. by rewrite last_snoc.
    + cbn. apply lookup_insert_eq.
    + done.
    + done.
    + split; [exact Hstk|].
      intros u r Hr. destruct (Hrecs u r Hr) as [Hold|Hchild]; [|by right; right].
      cbn in Hold. destruct (decide (u = uid)) as [->|Hne].
      * rewrite lookup_insert_eq in Hold. injection Hold as <-.
        right. left. by rewrite Htop.
      * rewrite lookup_insert_ne in Hold by done. by left.
  - intros Hlen pu rp Hlast Hrp Hassy Hsub. split; [done|]. by left.
  - intros Hlen pu rp Hlast Hrp Hassy Hsub. cbn [tree_post] in IH.
    eapply IH; try done. intros l Hl. apply Hsub. by right.
  - intros Hlen pu rp Hlast Hrp Hassy Hsub.
    pose proof (runs_restores _ _ _ _ Hvisit) as (Hlvl1 & _ & _). cbn in Hlvl1.
    assert (model_ok (self (enter_component st label fr))) as Hok0.
    { by eapply (model_ok_alloc (self fr) _ label). }
    destruct (runs_model_ok _ _ _ _ Hvisit) as (Hok1 & Hl1 & _); [cbn; lia|done|].
    cbn [tree_post] in IH1, IH2.
    destruct IH1 as [Hstk1 Hrecs1]; [cbn; lia|done|cbn; lia|].
    cbn zeta in Hstk1, Hrecs1. cbn in Hstk1.
    pose proof (leave_component_Ok _ _ Hleave) as (_ & stk & Htrim & Hfr2).
    assert (stk = _parent_uid_stack (self fr)) as ->.
    { rewrite Hstk1, Hlvl1 in Htrim.
      destruct (IsAssembly st (GetReferredShape st label)).
      - rewrite length_app in Htrim. cbn in Htrim.
        rewrite Nat.add_1_r, trim_loop_pop_one in Htrim by lia. congruence.
      - rewrite app_nil_r, trim_loop_keep in Htrim by lia. congruence. }
    assert (model_ok (self fr2)) as Hok2.
    { rewrite Hfr2. eapply (model_ok_trim (self fr1)); cbn; [done| |by destruct
        (_parent_uid_stack (self fr))|done..].
      rewrite Hstk1. by apply prefix_app_r. }
    destruct (runs_model_ok _ _ _ _ Hrest) as (_ & Hl2 & _);
      [rewrite Hfr2; cbn; lia|done|].
    destruct (IH2) with (pu := pu) (rp := rp) as [Hstk2 Hrecs2].
    + rewrite Hfr2. cbn. lia.
    + done.
    + rewrite Hfr2. cbn. lia.
    + rewrite Hfr2. cbn. done.
    + rewrite Hfr2. cbn. by eapply lookup_weaken.
    + done.
    + intros l Hl. apply Hsub. by right.
    + split; [rewrite Hstk2, Hfr2; done|].
      intros u r Hr. destruct (Hrecs2 u r Hr) as [Hold|Hchild]; [|by right].
      rewrite Hfr2 in Hold. cbn in Hold.
      destruct (Hrecs1 u r Hold) as [Hold'|[(-> & Hentry & Hparent)|Hchild]].
      * by left.
      * right. exists pu, rp, label. split_and!; try done.
        -- cbn in Hparent. rewrite Hlast in Hparent. by injection Hparent.
        -- eapply lookup_weaken; [|exact Hl2]. rewrite Hfr2. cbn.
           by eapply lookup_weaken.
        -- apply Hsub. by left.
      * right. eapply child_of_mono; [|exact Hchild].
        etrans; [|exact Hl2]. by rewrite Hfr2.
Qed.

End Tree.

Section FirstLoad.

Context {K : Kernel} {E : Environment}.

Implicit Types (dm : DocModel).

(** The tree a walk builds when it starts with the stack of parents
    [[None]] on a document with a single free shape. *)
Lemma parse_doc_builds_the_tree fuel dm root_item shapes dm' u r :
  model_ok dm →
  _parent_uid_stack dm = [None] →
  GetFreeShapes (shape_tool (doc dm)) = [root_item] →
  parse_doc fuel dm = Ok (shapes, dm') →
  label_dict dm' !! u = Some r →
  label_dict dm !! u = Some r ∨
  (l_entry r = root_item ∧ l_parent_uid r = None) ∨
  child_of (shape_tool (doc dm)) dm' r.
Proof.
  intros Hok Hstk Hfree. unfold parse_doc.
  destruct (parse_doc_frame fuel dm) as [fr| |] eqn:Hrun; [|done..].
  intros [= _ <-] Hr.
  apply parse_doc_frame_runs in Hrun. rewrite Hfree in Hrun.
  inversion Hrun as [| | | | | | |? ? ? fr1 ? Hvisit Hnil]; subst.
  inversion Hnil; subst.
  pose proof (runs_tree_post _ _ _ _ Hvisit (Z.le_refl 0) Hok) as Hpost.
  cbn [tree_post] in Hpost. destruct Hpost as [_ Hrecs].
  { cbn. by rewrite Hstk. }
  destruct (Hrecs u r Hr) as [Hold|[(_ & Hentry & Hparent)|Hchild]].
  - by left.
  - right. left. split; [done|]. cbn in Hparent. rewrite Hstk in Hparent.
    cbn in Hparent. by injection Hparent.
  - by right; right.
Qed.

(** X13.  An object a program can hold whose stack of parents is still
    [[None]], as in a new [DocModel], loads a file that is read and whose
    document has a single free shape.  The load builds the tree of that
    document: every Label Record it adds either is the record of the free
    shape, with no parent, or has for [parent_uid] the key of the record
    of an assembly one of whose reference components refers to the label
    of the record. *)
Theorem first_load_builds_the_tree fuel (fname : string) dm root_item dm' u r :
  reachable dm →
  _parent_uid_stack dm = [None] →
  fname ≠ "" →
  ReadFile fname = IFSelect_RetDone →
  let st := shape_tool (Transfer fname new_TDocStd_Document) in
  GetFreeShapes st = [root_item] →
  load_stp fuel (Some fname) dm = Ok dm' →
  label_dict dm' !! u = Some r →
  label_dict dm !! u = Some r ∨
  (l_entry r = root_item ∧ l_parent_uid r = None) ∨
  child_of st dm' r.
Proof.
  intros Hok%reachable_model_ok Hstk Hname Hstatus st Hfree. unfold load_stp.
  rewrite bool_decide_eq_false_2 by done. rewrite Hstatus, decide_True by done.
  destruct (parse_doc fuel _) as [[shapes dm1]| |] eqn:Hrun; [|done..].
  intros [= ->] Hr.
  eapply (parse_doc_builds_the_tree fuel
            (with_doc (Transfer fname new_TDocStd_Document) dm) root_item shapes dm' u r);
    [|done..].
  by eapply model_ok_ext; [..|exact Hok].
Qed.

End FirstLoad.

(** A new [DocModel] loads [nested.step]: the record of the bolt hangs
    under the record of the arm. *)
Lemma first_load_builds_the_tree_witness :
  ∃ dm',
    @load_stp demo_kernel demo_environment 3 (Some "nested.step") demo_model = Ok dm' ∧
    child_of nested_tool dm'
      (mkLabel "0:1:1:3" "Bolt" (Some "0:1:1:2.0") (Some None) false).
Proof.
  destruct (@load_stp demo_kernel demo_environment 3 (Some "nested.step") demo_model)
    as [dm'| |] eqn:Hrun; [|vm_compute in Hrun; discriminate Hrun..].
  exists dm'. split; [reflexivity|].
  destruct (first_load_builds_the_tree (E := demo_environment) 3 "nested.step"
              demo_model "0:1:1:1" dm' "0:1:1:3.0"
              (mkLabel "0:1:1:3" "Bolt" (Some "0:1:1:2.0") (Some None) false))
    as [Hold|[[Hentry _]|Hchild]].
  - apply reachable_init.
  - reflexivity.
  - discriminate.
  - vm_compute. reflexivity.
  - reflexivity.
  - exact Hrun.
  - vm_compute in Hrun. injection Hrun as <-. vm_compute. reflexivity.
  - vm_compute in Hold. discriminate Hold.
  - vm_compute in Hentry. discriminate Hentry.
  - exact Hchild.
Defined.

(** * Every label reached is in the Label Table *)

Section LabelsComplete.

Context {K : Kernel}.

Implicit Types (st : XCAFDoc_ShapeTool) (fr : Frame) (lab : TDF_Label).

Lemma label_stored_later fr0 fr1 fr2 lab :
  grows fr1 fr2 → label_stored fr0 fr1 lab → label_stored fr0 fr2 lab.
Proof.
  intros (_ & [k Hk] & Hsame) (u & r & Hin & Hnin & Hr & Hentry).
  exists u, r. split_and!; [|done| |done].
  - rewrite Hk. apply elem_of_app. by left.
  - destruct (Hsame u (or_introl Hin)) as [-> _]. done.
Qed.

Lemma label_stored_earlier fr0 fr1 fr2 lab :
  grows fr0 fr1 → label_stored fr1 fr2 lab → label_stored fr0 fr2 lab.
Proof.
  intros (_ & [k Hk] & _) (u & r & Hin & Hnin & Hr & Hentry).
  exists u, r. split_and!; [done| |done..].
  intros Hin0. apply Hnin. rewrite Hk. apply elem_of_app. by left.
Qed.

Lemma runs_labels_complete st w fr fr' :
  runs st w fr fr' → trace_ok fr → labels_complete st w fr fr'.
Proof.
  induction 1 as
    [lab fr parent_uid fr' Hleaf Htop Hvisit
    |lab fr parent_uid Hassy Hsimple Htop
    |lab fr parent_uid fr' Hassy Htop Hloop IH
    |fr
    |label rest fr fr' Href Hrest IH
    |label rest fr fr1 fr2 fr' Href Hvisit IH1 Hleave Hrest IH2
    |fr
    |root_item rest fr fr1 fr' Hvisit IH1 Hrest IH2]; intros Hok; cbn [labels_complete].
  - intros refs target Hdesc _. destruct Hleaf as [Hassy Hsimple].
    inversion Hdesc as [|? ? ? ? Hassy']; subst; [|congruence].
    destruct (visit_simple_shape_run st target
                (next_uid target (_share_dict (self fr))).1
                target (GetLabelName st target) parent_uid (GetSubShapes st target)
                (after_alloc target fr))
      as (c & fr_res & fr'' & _ & Hrun & _ & Hlabel & _ & _ & _ & _ & _ & Hu & _).
    rewrite Hvisit in Hrun. injection Hrun as <-.
    destruct (trace_ok_after_alloc target fr Hok) as [_ Hfresh].
    eexists _, _. split_and!; [|exact Hfresh| |].
    + rewrite Hu. cbn. apply elem_of_app. right. by left.
    + rewrite Hlabel. apply lookup_insert_eq.
    + done.
  - intros refs target Hdesc Hkind.
    inversion Hdesc; subst; [|congruence]. destruct Hkind; congruence.
  - intros refs target Hdesc Hkind.
    pose proof (grows_enter_assembly st lab parent_uid fr Hok) as Hg.
    pose proof (runs_grows _ _ _ _ Hloop (proj1 Hg)) as Hg'.
    inversion Hdesc as [|? label refs' ? _ Hin Href Hdesc']; subst.
    + eapply label_stored_later; [exact Hg'|].
      destruct (trace_ok_after_alloc target fr Hok) as [_ Hfresh].
      eexists _, _. split_and!; [|exact Hfresh| |].
      * cbn. apply elem_of_app. right. by left.
      * cbn. apply lookup_insert_eq.
      * done.
    + eapply label_stored_earlier; [exact Hg|].
      pose proof (IH (proj1 Hg)) as IH'. cbn [labels_complete] in IH'.
      by eapply IH'.
  - intros label refs target Hin. by apply elem_of_nil in Hin.
  - intros l refs target Hin Href' Hdesc Hkind.
    apply elem_of_cons in Hin as [->|Hin]; [congruence|]. by eapply IH.
  - pose proof (grows_enter_component st label fr Hok) as H0.
    pose proof (runs_grows _ _ _ _ Hvisit (proj1 H0)) as H1.
    pose proof (grows_leave_component _ _ (proj1 H1) Hleave) as H2.
    pose proof (runs_grows _ _ _ _ Hrest (proj1 H2)) as H3.
    intros l refs target Hin Href' Hdesc Hkind.
    apply elem_of_cons in Hin as [->|Hin].
    + eapply label_stored_earlier; [exact H0|].
      eapply label_stored_later; [exact (grows_trans _ _ _ H2 H3)|].
      pose proof (IH1 (proj1 H0)) as IH1'. cbn [labels_complete] in IH1'.
      by eapply IH1'.
    + eapply label_stored_earlier;
        [exact (grows_trans _ _ _ H0 (grows_trans _ _ _ H1 H2))|].
      pose proof (IH2 (proj1 H2)) as IH2'. cbn [labels_complete] in IH2'.
      by eapply IH2'.
  - intros r refs target Hin. by apply elem_of_nil in Hin.
  - pose proof (runs_grows _ _ _ _ Hvisit Hok) as H1.
    pose proof (runs_grows _ _ _ _ Hrest (proj1 H1)) as H2.
    intros r refs target Hin Hdesc Hkind.
    apply elem_of_cons in Hin as [->|Hin].
    + eapply label_stored_later; [exact H2|].
      pose proof (IH1 Hok) as IH1'. cbn [labels_complete] in IH1'.
      by eapply IH1'.
    + eapply label_stored_earlier; [exact H1|].
      pose proof (IH2 (proj1 H1)) as IH2'. cbn [labels_complete] in IH2'.
      by eapply IH2'.
Qed.

(** X14.  After a completed [parse_doc], every label the walker reaches
    from a free shape through reference components, if it is an assembly
    or a simple shape, has a Label Record: some key of [label_dict], a
    UID returned during this walk, keys a record whose entry is that
    label. *)
Theorem parse_doc_labels_every_label_reached fuel (dm : DocModel) fr'
    root_item refs target :
  let st := shape_tool (doc dm) in
  parse_doc_frame fuel dm = Ok fr' →
  root_item ∈ GetFreeShapes st →
  descent st root_item refs target →
  IsAssembly st target = true ∨ IsSimpleShape st target = true →
  ∃ u r, u ∈ uids fr' ∧ label_dict (self fr') !! u = Some r ∧ l_entry r = target.
Proof.
  intros st Hrun Hin Hdesc Hkind.
  destruct (runs_labels_complete _ _ _ _ (parse_doc_frame_runs _ _ _ Hrun)
              (trace_ok_parse_doc_enter dm) root_item refs target Hin Hdesc Hkind)
    as (u & r & Hu & _ & Hr & Hentry).
  by exists u, r.
Qed.

(** X15.  The loop over the declared sub-shapes of a simple shape always
    completes, and the sub-shapes get nothing of their own in the tables:
    the loop adds no Label Record and no Part Record, allocates no UID,
    and leaves the stack of parents, [lvl] and [locs] alone. *)
Theorem sub_shapes_get_no_record st shape (loc : Loc) (l_subss : list TDF_Label) fr :
  ∃ fr', for_each l_subss (visit_sub_shape st shape loc) fr = Ok (tt, fr') ∧
         part_dict (self fr') = part_dict (self fr) ∧
         label_dict (self fr') = label_dict (self fr) ∧
         _share_dict (self fr') = _share_dict (self fr) ∧
         uids fr' = uids fr ∧
         _parent_uid_stack (self fr') = _parent_uid_stack (self fr) ∧
         lvl fr' = lvl fr ∧ locs fr' = locs fr.
Proof.
  destruct (for_each_sub_shapes_total st shape loc l_subss fr)
    as (fr' & Hrun & _ & Hp & Hl & Hs & Hk & Hlvl & Hlocs & Hu).
  exists fr'. by split_and!.
Qed.

End LabelsComplete.

Section LoadSuccess.

Context {K : Kernel} {E : Environment}.

(** X16.  An object a program can hold loads a file that is read.  After
    the load the document of the object has the structure of the document
    transferred from the file, and the Label Table covers it: every label
    the walker reaches from a free shape of that document through
    reference components, if it is an assembly or a simple shape, has a
    Label Record with its entry, its name and its kind. *)
Theorem load_stp_holds_the_transferred_document
    (fuel : nat) (fname : string) (dm dm' : DocModel) :
  reachable dm →
  fname ≠ "" →
  ReadFile fname = IFSelect_RetDone →
  load_stp fuel (Some fname) dm = Ok dm' →
  let st := shape_tool (Transfer fname new_TDocStd_Document) in
  shape_tool (doc dm') = st ∧
  ∀ root_item refs target,
    root_item ∈ GetFreeShapes st →
    descent st root_item refs target →
    IsAssembly st target = true ∨ IsSimpleShape st target = true →
    ∃ u r, label_dict dm' !! u = Some r ∧
           l_entry r = target ∧
           l_name r = GetLabelName st target ∧
           l_is_assy r = IsAssembly st target.
Proof.
  intros Hok%reachable_model_ok Hname Hstatus. unfold load_stp.
  rewrite bool_decide_eq_false_2 by done. rewrite Hstatus, decide_True by done.
  unfold parse_doc.
  destruct (parse_doc_frame fuel _) as [fr| |] eqn:Hrun; [|done..].
  intros [= <-].
  set (st := shape_tool (Transfer fname new_TDocStd_Document)).
  apply parse_doc_frame_runs in Hrun.
  destruct (runs_restores _ _ _ _ Hrun) as (_ & _ & Hst).
  split; [done|].
  intros root_item refs target Hin Hdesc Hkind.
  destruct (runs_labels_complete _ _ _ _ Hrun (trace_ok_parse_doc_enter _)
              root_item refs target Hin Hdesc Hkind)
    as (u & r & Hu & _ & Hr & Hentry).
  exists u, r. split; [done|]. split; [done|].
  destruct (runs_labels_describe _ _ _ _ Hrun u r Hr) as [Hold|(Hn & Ha & _)].
  - destruct (runs_returns_new_uids _ _ _ _ Hrun (Z.le_refl 0)) with (u := u)
      as [Hnil|[Hnone _]]; [|done| |].
    + by eapply model_ok_ext; [..|exact Hok].
    + by apply elem_of_nil in Hnil.
    + cbn in Hold, Hnone. congruence.
  - rewrite Hentry in Hn, Ha. done.
Qed.

End LoadSuccess.

Lemma parse_doc_labels_every_label_reached_witness :
  ∃ fr' u r,
    parse_doc_frame 3 (with_doc nested demo_model) = Ok fr' ∧
    label_dict (self fr') !! u = Some r ∧ l_entry r = "0:1:1:2".
Proof.
  destruct (parse_doc_frame 3 (with_doc nested demo_model))
    as [fr'| |] eqn:Hrun; [|vm_compute in Hrun; discriminate Hrun..].
  destruct (parse_doc_labels_every_label_reached 3 (with_doc nested demo_model) fr'
              "0:1:1:1" ["0:1:1:1:1"] "0:1:1:2" Hrun)
    as (u & r & _ & Hr & Hentry).
  - cbn. by left.
  - apply (descent_step nested_tool "0:1:1:1" "0:1:1:1:1" [] "0:1:1:2");
      [reflexivity|cbn; by left|reflexivity|apply descent_here].
  - left. reflexivity.
  - exists fr', u, r. split_and!; [reflexivity|exact Hr|exact Hentry].
Defined.

(** The new [DocModel] that has loaded [two.step] holds the structure of
    that file and a Label Record for the part both components refer to. *)
Lemma load_stp_holds_the_transferred_document_witness :
  shape_tool (doc demo_loaded) = two_instances_tool ∧
  ∃ u r, label_dict demo_loaded !! u = Some r ∧
         l_entry r = "0:1:1:2" ∧ l_name r = "Part" ∧ l_is_assy r = false.
Proof.
  destruct (load_stp_holds_the_transferred_document (E := demo_environment)
              2 "two.step" demo_model demo_loaded) as (Hst & Hall).
  - apply reachable_init.
  - discriminate.
  - vm_compute. reflexivity.
  - exact demo_loaded_run.
  - split; [exact Hst|].
    destruct (Hall "0:1:1:1" ["0:1:1:1:1"] "0:1:1:2")
      as (u & r & Hr & Hentry & Hn & Ha).
    + cbn. by left.
    + apply (descent_step two_instances_tool "0:1:1:1" "0:1:1:1:1" [] "0:1:1:2");
        [reflexivity|cbn; by left|reflexivity|apply descent_here].
    + right. reflexivity.
    + exists u, r. split_and!; [exact Hr|exact Hentry|exact Hn|exact Ha].
Defined.

(** * Documents without colours *)

Section NoColours.

Context {K : Kernel}.

Implicit Types (st : XCAFDoc_ShapeTool) (fr : Frame) (shape : Shape).

Lemma plain_refl fr : plain fr fr.
Proof. split_and!; [done|by left..]. Qed.

Lemma plain_trans fr1 fr2 fr3 : plain fr1 fr2 → plain fr2 fr3 → plain fr1 fr3.
Proof.
  intros (Hc1 & Hp1 & Ho1) (Hc2 & Hp2 & Ho2). split_and!; [congruence| |].
  - intros u p Hp. destruct (Hp2 u p Hp) as [Hp'|?]; [by apply Hp1|by right].
  - intros shape name c Hin.
    destruct (Ho2 shape name c Hin) as [Hin'|?]; [by apply Ho1|by right].
Qed.

Lemma plain_same fr fr' :
  doc (self fr') = doc (self fr) →
  part_dict (self fr') = part_dict (self fr) →
  output_shapes fr' = output_shapes fr →
  plain fr fr'.
Proof. intros Hd Hp Ho. unfold plain. rewrite Hd, Hp, Ho. apply plain_refl. Qed.

Lemma resolve_subshape_color_default shape shape_sub lab_subs fr :
  first_color (GetInstanceColor (color_tool (doc (self fr))) shape_sub) = None →
  first_color (GetColor (color_tool (doc (self fr))) lab_subs) = None →
  resolve_subshape_color shape shape_sub lab_subs fr = Ok (default_color, fr).
Proof.
  intros Hi Hl. unfold resolve_subshape_color, bind, get_color_tool. by rewrite Hi, Hl.
Qed.

Lemma output_shapes_add_plain shape name fr fr' :
  output_shapes_add shape name default_color fr = Ok (tt, fr') → plain fr fr'.
Proof.
  unfold output_shapes_add. case_decide; intros [= <-]; [apply plain_refl|].
  split_and!; cbn; [done|by left|].
  intros s n c [Hin|[= -> -> ->]%list_elem_of_singleton]%elem_of_app;
    [by left|by right].
Qed.

Lemma for_each_sub_shapes_plain st shape (loc : Loc) l_subss fr fr' :
  colorless (color_tool (doc (self fr))) →
  for_each l_subss (visit_sub_shape st shape loc) fr = Ok (tt, fr') →
  plain fr fr'.
Proof.
  revert fr. induction l_subss as [|lab_subs rest IH]; intros fr Hcl.
  - intros [= <-]. apply plain_refl.
  - cbn [for_each]. intros ([] & fr1 & Hbody & Hrest)%bind_Ok.
    unfold visit_sub_shape in Hbody.
    apply bind_Ok in Hbody as (c & fr0 & Hres & Hadd).
    destruct Hcl as [Hinst Hlab].
    rewrite resolve_subshape_color_default in Hres
      by (apply first_color_None; intros; by apply Hinst || by apply Hlab).
    injection Hres as <- <-.
    apply output_shapes_add_plain in Hadd.
    eapply plain_trans; [exact Hadd|]. apply IH; [|done].
    destruct Hadd as (-> & _). by split.
Qed.

Lemma visit_simple_shape_plain st lab uid text_entry name parent_uid l_subss fr fr' :
  colorless (color_tool (doc (self fr))) →
  visit_simple_shape st lab uid text_entry name parent_uid l_subss fr = Ok (tt, fr') →
  plain fr fr'.
Proof.
  intros Hcl. unfold visit_simple_shape.
  intros ([] & fr1 & [= <-] & Hrest)%bind_Ok.
  apply bind_Ok in Hrest as (ls & fr2 & [= <- <-] & Hrest).
  apply bind_Ok in Hrest as (c & fr3 & Hres & Hrest).
  apply bind_Ok in Hrest as ([] & fr4 & Hadd & Hrest).
  apply bind_Ok in Hrest as ([] & fr5 & [= <-] & Hloop).
  pose proof Hcl as [Hinst Hlab].
  rewrite resolve_shape_color_default in Hres
    by (apply first_color_None; intros; by apply Hinst || by apply Hlab).
  injection Hres as <- <-.
  apply output_shapes_add_plain in Hadd.
  apply for_each_sub_shapes_plain in Hloop;
    [|cbn; destruct Hadd as (-> & _); by split].
  eapply plain_trans; [|exact Hloop].
  destruct Hadd as (Hc & Hp & Ho). split_and!; cbn.
  - by rewrite Hc.
  - intros u p.
    destruct (decide (u = uid)) as [->|Hne].
    + rewrite lookup_insert_eq. intros [= <-]. by right.
    + rewrite lookup_insert_ne by done. apply Hp.
  - done.
Qed.

Lemma runs_plain st w fr fr' :
  runs st w fr fr' → colorless (color_tool (doc (self fr))) → plain fr fr'.
Proof.
  induction 1 as
    [lab fr parent_uid fr' Hleaf Htop Hvisit
    |lab fr parent_uid Hassy Hsimple Htop
    |lab fr parent_uid fr' Hassy Htop Hloop IH
    |fr
    |label rest fr fr' Href Hrest IH
    |label rest fr fr1 fr2 fr' Href Hvisit IH1 Hleave Hrest IH2
    |fr
    |root_item rest fr fr1 fr' Hvisit IH1 Hrest IH2]; intros Hcl.
  - apply visit_simple_shape_plain in Hvisit; [|done].
    eapply plain_trans; [|exact Hvisit]. by apply plain_same.
  - by apply plain_same.
  - eapply plain_trans; [|by apply IH]. by apply plain_same.
  - apply plain_refl.
  - by apply IH.
  - pose proof (IH1 Hcl) as H1.
    apply leave_component_Ok in Hleave as (_ & stk & _ & ->).
    assert (plain fr fr1) as H01.
    { eapply plain_trans; [|exact H1]. by apply plain_same. }
    eapply plain_trans; [exact H01|].
    eapply plain_trans; [|apply IH2; cbn; destruct H01 as (-> & _); by cbn].
    by apply plain_same.
  - apply plain_refl.
  - pose proof (IH1 Hcl) as H1.
    eapply plain_trans; [exact H1|]. apply IH2. by destruct H1 as (-> & _).
Qed.

(** X17.  On a document without colours the walk writes no colour: when
    the colour table of the document answers no instance-colour and no
    label-colour query at the scopes 0, 1, 2, a completed [parse_doc]
    leaves the colour table as it is, whatever the kernel does with a
    write; every Part Record it adds and every shape it returns has the
    default colour. *)
Theorem parse_doc_writes_no_color_without_colors
    (fuel : nat) (dm : DocModel) shapes dm' :
  let ct := color_tool (doc dm) in
  (∀ shape k, (k < 3)%nat → GetInstanceColor ct shape k = None) →
  (∀ lab k, (k < 3)%nat → GetColor ct lab k = None) →
  parse_doc fuel dm = Ok (shapes, dm') →
  color_tool (doc dm') = ct ∧
  (∀ u p, part_dict dm' !! u = Some p →
          part_dict dm !! u = Some p ∨ p_color p = default_color) ∧
  (∀ shape name c, (shape, (name, c)) ∈ shapes → c = default_color).
Proof.
  intros ct Hinst Hlab. unfold parse_doc.
  destruct (parse_doc_frame fuel dm) as [fr| |] eqn:Hrun; [|done..].
  intros [= <- <-].
  destruct (runs_plain _ _ _ _ (parse_doc_frame_runs _ _ _ Hrun))
    as (Hc & Hp & Ho); [by split|].
  split_and!; [done..|].
  intros shape name c Hin.
  destruct (Ho shape name c Hin) as [Hnil|?]; [|done].
  by apply elem_of_nil in Hnil.
Qed.

End NoColours.

(** The walk of [two.step], which has no colour: both Part Records are
    mid-grey and the colour table is still the empty one. *)
Lemma parse_doc_writes_no_color_without_colors_witness :
  ∃ shapes dm',
    parse_doc 2 (with_doc two_instances demo_model) = Ok (shapes, dm') ∧
    color_tool (doc dm') = no_colors ∧
    ∃ p, part_dict dm' !! "0:1:1:2.1" = Some p ∧ p_color p = default_color.
Proof.
  destruct (parse_doc 2 (with_doc two_instances demo_model))
    as [[shapes dm']| |] eqn:Hrun; [|vm_compute in Hrun; discriminate Hrun..].
  exists shapes, dm'. split; [reflexivity|].
  destruct (parse_doc_writes_no_color_without_colors
              2 (with_doc two_instances demo_model) shapes dm')
    as (Hct & Hparts & _).
  - intros shape k _. reflexivity.
  - intros lab k _. reflexivity.
  - exact Hrun.
  - split; [exact Hct|].
    assert (is_Some (part_dict dm' !! "0:1:1:2.1")) as [p Hp].
    { vm_compute in Hrun. injection Hrun as _ <-. vm_compute. by eexists. }
    exists p. split; [exact Hp|].
    destruct (Hparts _ _ Hp) as [Hold|Hdefault]; [|exact Hdefault].
    vm_compute in Hold. discriminate Hold.
Defined.
